(** * jira-claude-bot: the ticket workflow (Worker), the Poller and the Daemon

    A shallow embedding of the TypeScript sources

      - [src/core/worker.ts]   (class [Worker]),
      - [src/core/poller.ts]   (class [Poller]),
      - [src/core/daemon.ts]   (class [Daemon]),
      - [src/clients/github.ts] (class [GitHubClient]),
      - [src/clients/claude.ts] (class [ClaudeClient], [runClaude]),
      - [src/utils/logger.ts]  (class [Logger]),
      - [src/clients/jira.ts]  (class [JiraClient]: its methods as calls to
        the tracker, and the conversion of a comment to Atlassian Document
        Format),

    followed by the properties the design document states about them and
    by further properties of the code.

    Conventions of the embedding.

    - JavaScript strings are modelled by [string] (sequences of 8-bit
      characters).  Case conversion, white space and the regular expressions
      of the source are defined on the ASCII range; a character above 127 is
      treated as an opaque non-alphanumeric, non-blank character.
    - JavaScript numbers that hold counts, exit codes and durations are [Z].
    - An [async] method is a computation in the monad [M]: it reads and
      updates the process state, emits the externally visible actions it
      performs, and either returns, throws, or stays pending for ever (an
      awaited promise that never settles).
    - Everything outside the Node process (the git repository reached through
      [execSync], the tracker reached through HTTP, the file system, the
      spawned agent) is a [Host]: an arbitrary state type with one transition
      function per primitive. *)

From Stdlib Require Import ZArith Lia Ascii String List.
From stdpp Require Import base gmap strings list pretty.

Local Open Scope Z_scope.
Local Open Scope list_scope.

(** ** JavaScript string primitives used by the sources *)

Module Js.

Definition code (c : ascii) : nat := nat_of_ascii c.

Definition is_upper (c : ascii) : bool :=
  (Nat.leb 65 (code c) && Nat.leb (code c) 90)%bool.

Definition is_lower (c : ascii) : bool :=
  (Nat.leb 97 (code c) && Nat.leb (code c) 122)%bool.

Definition is_digit (c : ascii) : bool :=
  (Nat.leb 48 (code c) && Nat.leb (code c) 57)%bool.

(** The character class [[a-z0-9]]. *)
Definition is_lower_alnum (c : ascii) : bool :=
  (is_lower c || is_digit c)%bool.

(** White space as [String.prototype.trim] sees it, on the ASCII range:
    TAB, LF, VT, FF, CR and SPACE. *)
Definition is_space (c : ascii) : bool :=
  (Nat.leb 9 (code c) && Nat.leb (code c) 13 || Nat.eqb (code c) 32)%bool.

Definition lower_char (c : ascii) : ascii :=
  if is_upper c then ascii_of_nat (code c + 32) else c.

(** [s.toLowerCase()] *)
Fixpoint toLowerCase (s : string) : string :=
  match s with
  | EmptyString => EmptyString
  | String c s' => String (lower_char c) (toLowerCase s')
  end.

(** [s.substring(0, n)] *)
Definition take (n : nat) (s : string) : string := String.substring 0 n s.

(** [s.substring(n)] *)
Fixpoint drop (n : nat) (s : string) : string :=
  match n, s with
  | O, _ => s
  | S _, EmptyString => EmptyString
  | S n', String _ s' => drop n' s'
  end.

(** [s.startsWith(p)] *)
Definition startsWith (p s : string) : bool := String.prefix p s.

(** [s[i]]: [None] stands for [undefined]. *)
Definition charAt (i : nat) (s : string) : option ascii := String.get i s.

Fixpoint last_char (s : string) : option ascii :=
  match s with
  | EmptyString => None
  | String c EmptyString => Some c
  | String _ s' => last_char s'
  end.

Fixpoint drop_last (s : string) : string :=
  match s with
  | EmptyString => EmptyString
  | String _ EmptyString => EmptyString
  | String c s' => String c (drop_last s')
  end.

(** [s.trim().length > 0], also the truthiness of [s.trim()]: the string
    has a character that is not white space. *)
Fixpoint has_nonspace (s : string) : bool :=
  match s with
  | EmptyString => false
  | String c s' => (negb (is_space c) || has_nonspace s')%bool
  end.

Fixpoint drop_leading_space (s : string) : string :=
  match s with
  | EmptyString => EmptyString
  | String c s' => if is_space c then drop_leading_space s' else s
  end.

Fixpoint drop_trailing_space (s : string) : string :=
  match s with
  | EmptyString => EmptyString
  | String c s' =>
      match drop_trailing_space s' with
      | EmptyString => if is_space c then EmptyString else String c EmptyString
      | t => String c t
      end
  end.

(** [s.trim()] *)
Definition trim (s : string) : string :=
  drop_trailing_space (drop_leading_space s).

(** [s.split('\n')]: the pieces between line feeds; never empty. *)
Fixpoint split_lines (s : string) : list string :=
  match s with
  | EmptyString => [EmptyString]
  | String c s' =>
      if Ascii.eqb c "010"%char then EmptyString :: split_lines s'
      else match split_lines s' with
           | [] => [String c EmptyString]
           | l :: ls => String c l :: ls
           end
  end.

(** [xs.join(sep)] *)
Fixpoint join (sep : string) (xs : list string) : string :=
  match xs with
  | [] => EmptyString
  | [x] => x
  | x :: rest => x +:+ sep +:+ join sep rest
  end.

(** Substring test, used to state what a message mentions. *)
Fixpoint includes (needle s : string) : bool :=
  (String.prefix needle s ||
   match s with
   | EmptyString => false
   | String _ s' => includes needle s'
   end)%bool.

(** The replacement text of [String.prototype.replace] for a pattern
    without capture groups: [$$] is a dollar sign, [$&] the match,
    [$`] the text before the match and [$'] the text after it; any other
    use of [$] stands for itself. *)
Fixpoint expand_replacement (repl before matched after : string) : string :=
  match repl with
  | EmptyString => EmptyString
  | String "$" (String "$" r) =>
      String "$" (expand_replacement r before matched after)
  | String "$" (String "&" r) =>
      matched +:+ expand_replacement r before matched after
  | String "$" (String "`" r) =>
      before +:+ expand_replacement r before matched after
  | String "$" (String "'" r) =>
      after +:+ expand_replacement r before matched after
  | String c r => String c (expand_replacement r before matched after)
  end.

(** One left-to-right scan of [s.replace(/pat/g, repl)] for a pattern
    [pat] that is a literal, non-empty text.  [skip] counts the characters
    of a match still to be consumed and [before] is the text already
    scanned. *)
Fixpoint replace_scan (pat repl : string) (skip : nat) (before s : string)
  : string :=
  match s with
  | EmptyString => EmptyString
  | String c s' =>
      match skip with
      | S k => replace_scan pat repl k (before +:+ String c EmptyString) s'
      | O =>
          if String.prefix pat s then
            expand_replacement repl before pat (drop (String.length pat) s)
            +:+ replace_scan pat repl (String.length pat - 1)
                  (before +:+ String c EmptyString) s'
          else
            String c (replace_scan pat repl 0
                        (before +:+ String c EmptyString) s')
      end
  end.

(** [s.replace(/pat/g, repl)] for a literal pattern. *)
Definition replaceAll (pat repl s : string) : string :=
  match pat with
  | EmptyString => s
  | _ => replace_scan pat repl 0 EmptyString s
  end.

(** [s.replace(/[^a-z0-9]+/g, '-')]: every maximal run of characters
    outside [[a-z0-9]] becomes one hyphen.  [in_run] tells that the
    previous character already belonged to the run being replaced. *)
Fixpoint hyphenate_runs (in_run : bool) (s : string) : string :=
  match s with
  | EmptyString => EmptyString
  | String c s' =>
      if is_lower_alnum c then String c (hyphenate_runs false s')
      else if in_run then hyphenate_runs true s'
      else String "-" (hyphenate_runs true s')
  end.

(** [s.replace(/^-|-$/g, '')]: a hyphen at the very start is removed,
    then a hyphen at the very end of what remains. *)
Definition strip_edge_hyphens (s : string) : string :=
  let s1 := match s with
            | String "-" s' => s'
            | _ => s
            end in
  match last_char s1 with
  | Some "-"%char => drop_last s1
  | _ => s1
  end.

End Js.

(** Characters and texts that cannot be written inside a literal. *)
Definition nl : string := String "010"%char EmptyString.
Definition dquote : string := String "034"%char EmptyString.
Definition backslash : string := String "092"%char EmptyString.

(** ** Exceptions and outcomes *)

(** A thrown JavaScript value: an instance of [Error] with its [message],
    or any other value [v], kept as the text [String(v)]. *)
Inductive Exn : Type :=
  | JsError (message : string)
  | JsThrown (text : string).

(** [error instanceof Error ? error.message : String(error)] *)
Definition errorMessage (e : Exn) : string :=
  match e with
  | JsError m => m
  | JsThrown t => t
  end.

(** The outcome of awaiting a computation: a value, an exception, or a
    promise that never settles. *)
Inductive Res (A : Type) : Type :=
  | Ret (a : A)
  | Throw (e : Exn)
  | Pending.
Arguments Ret {A} a.
Arguments Throw {A} e.
Arguments Pending {A}.

(** ** Data of the clients *)

(** A value of TypeScript type [any]. *)
#[local] Set Warnings "-register-all".
Inductive Json : Type :=
  | JNull
  | JBool (b : bool)
  | JNum (n : Z)
  | JStr (s : string)
  | JArr (items : list Json)
  | JObj (fields : list (string * Json)).

Record JiraAttachment := {
  att_id : string;
  att_filename : string;
  att_url : string;
  att_mimeType : string }.

Record JiraComment := {
  com_id : string;
  com_author : string;
  com_body : Json;
  com_created : string }.

Record JiraTransition := {
  tr_id : string;
  tr_name : string }.

Record JiraTicket := {
  key : string;
  summary : string;
  description : Json;
  status : string;
  type : string;
  priority : string;
  assignee : option string;
  reporter : string;
  attachments : list JiraAttachment;
  comments : list JiraComment;
  labels : list string;
  customFields : list (string * Json) }.

Record PullRequest := {
  number : Z;
  url : string;
  title : string;
  state : string;
  headSha : string }.

Record ClaudeResult := {
  cr_success : bool;
  cr_output : string;
  cr_error : option string }.

(** [WorkResult] of worker.ts; [None] is an absent optional field. *)
Record WorkResult := {
  success : bool;
  ticketKey : string;
  pr : option PullRequest;
  previewUrl : option string;
  error : option string;
  changesSummary : option string }.

(** The fields of [ProjectConfig] and [GlobalConfig] read by the core. *)
Record ProjectConfig := {
  project_jiraKey : string;
  project_repo : string;
  tickets_statuses : option (list string);
  tickets_jql : option string;
  workflow_branchPattern : string;
  workflow_pr_baseBranch : string;
  workflow_pr_titlePattern : string;
  workflow_pr_bodyTemplate : string;
  workflow_transitions_onPrCreated : option string;
  deployment_waitForPreview : bool;
  deployment_previewTimeout : Z;
  claude_model : option string;
  claude_maxTurns : Z;
  claude_timeout : option Z }.

Record GlobalConfig := {
  bot_pollInterval : Z;
  jira_host : string }.

(** ** The logger (logger.ts) *)

Inductive LogLevel := debug | info | warn | error_level.

(** [LOG_LEVELS] *)
Definition LOG_LEVELS (l : LogLevel) : Z :=
  match l with
  | debug => 0
  | info => 1
  | warn => 2
  | error_level => 3
  end.

(** The five output methods of [Logger]. *)
Inductive LogMethod := m_debug | m_info | m_success | m_warn | m_error.

(** The level each method tests with [shouldLog]. *)
Definition method_level (m : LogMethod) : LogLevel :=
  match m with
  | m_debug => debug
  | m_info => info
  | m_success => info
  | m_warn => warn
  | m_error => error_level
  end.

Record Logger := {
  level : LogLevel;
  prefix : string }.

Definition shouldLog (lg : Logger) (l : LogLevel) : bool :=
  LOG_LEVELS (level lg) <=? LOG_LEVELS l.

(** [formatMessage], without the time stamp. *)
Definition formatMessage (lg : Logger) (message : string) : string :=
  (match prefix lg with
   | EmptyString => EmptyString
   | p => "[" +:+ p +:+ "] "
   end) +:+ message.

(** [child] *)
Definition child (lg : Logger) (p : string) : Logger :=
  {| level := level lg;
     prefix := match prefix lg with
               | EmptyString => p
               | q => q +:+ ":" +:+ p
               end |}.

(** ** The agent subprocess as seen by [runClaude] *)

Inductive Signal := SIGTERM | SIGKILL.

(** What the event loop delivers to the callbacks installed by [runClaude].
    The two timer events carry the answer of the operating system to the
    [kill] they may issue. *)
Inductive ChildEvent : Type :=
  | StdoutData (text : string)
  | StderrData (text : string)
  | TimeoutElapsed (delivered : bool)
  | GraceElapsed (delivered : bool)
  | CloseEvent (exitCode : option Z)
  | ErrorEvent (message : string).

(** ** Externally visible actions *)

Inductive JiraCall : Type :=
  | GetTicket (ticket : string)
  | SearchTickets (jql : string) (maxResults : Z)
  | AddComment (ticket : string) (text : string)
  | GetTransitions (ticket : string)
  | PostTransition (ticket : string) (id : string)
  | DownloadAttachment (a : JiraAttachment) (dir : string).

Inductive Event : Type :=
  | EExec (command : string)
  | ELog (method : LogMethod) (line : string)
  | EJira (call : JiraCall)
  | EMkdir (path : string)
  | ECommitSummary (base : string)
  | ESpawn (command : string) (args : list string) (cwd : string)
  | EStdout (text : string)
  | EStderr (text : string)
  | EConsoleError (text : string)
  | EKill (sig : Signal)
  | ESleep (ms : Z).

(** ** The host: everything outside the process *)

Class Host (W : Type) := {
  (** [child_process.execSync]: the standard output, or an exception. *)
  execSync : string → W → Res string * W;
  (** [fs.mkdirSync(path, { recursive: true })] *)
  mkdirSync : string → W → Res unit * W;
  (** [child_process.spawn]: the events the child will produce. *)
  spawn : string → list string → string → W → Res (list ChildEvent) * W;
  (** The tracker client, at the level of its methods. *)
  jiraGetTicket : string → W → Res JiraTicket * W;
  jiraSearchTickets : string → Z → W → Res (list JiraTicket) * W;
  jiraAddComment : string → string → W → Res unit * W;
  jiraGetTransitions : string → W → Res (list JiraTransition) * W;
  jiraPostTransition : string → string → W → Res unit * W;
  jiraDownloadAttachment : JiraAttachment → string → W → Res string * W;
  (** Modelled from the spec: [GitHubClient.getCommitSummary] is called by
      the Worker but not defined in the sources; the design document gives
      [getCommitSummary(base) -> text], the commit log between the base
      branch and HEAD. *)
  gitCommitSummary : string → W → Res string * W;
  (** [JSON.parse] of the output of [gh], read as a pull request. *)
  jsonPullRequest : string → Exn + PullRequest;
  (** The match of [/https:\/\/github\.com\/[^\s]+\/pull\/\d+/] with the
      number that ends it. *)
  matchPullRequestUrl : string → option (string * Z);
  (** [ClaudeClient.buildPrompt] *)
  buildPrompt : JiraTicket → string → Exn + string
}.

(** ** The process state and the monad of asynchronous methods *)

Section System.
Context {W : Type} {host : Host W}.

(** The mutable state of the Node process: the host behind it and the
    private fields of the one [Poller] and the one [Daemon] it holds. *)
Record Proc := {
  world : W;
  processedTickets : gset string;
  running : bool;
  currentTicket : option string }.

Definition set_world (w : W) (s : Proc) : Proc :=
  {| world := w;
     processedTickets := processedTickets s;
     running := running s;
     currentTicket := currentTicket s |}.

Definition set_processedTickets (p : gset string) (s : Proc) : Proc :=
  {| world := world s;
     processedTickets := p;
     running := running s;
     currentTicket := currentTicket s |}.

Definition set_running (b : bool) (s : Proc) : Proc :=
  {| world := world s;
     processedTickets := processedTickets s;
     running := b;
     currentTicket := currentTicket s |}.

Definition set_currentTicket (t : option string) (s : Proc) : Proc :=
  {| world := world s;
     processedTickets := processedTickets s;
     running := running s;
     currentTicket := t |}.

(** A computation: from a state to an outcome, the state it leaves and
    the actions it performed, oldest first. *)
Definition M (A : Type) : Type := Proc → Res A * Proc * list Event.

#[export] Instance M_ret : MRet M := λ A a s, (Ret a, s, []).

#[export] Instance M_bind : MBind M := λ A B f m s,
  match m s with
  | (Ret a, s1, e1) => let '(r, s2, e2) := f a s1 in (r, s2, e1 ++ e2)
  | (Throw e, s1, e1) => (Throw e, s1, e1)
  | (Pending, s1, e1) => (Pending, s1, e1)
  end.

(** [throw e] *)
Definition throw {A} (e : Exn) : M A := λ s, (Throw e, s, []).

Definition pending {A} : M A := λ s, (Pending, s, []).

(** [try { m } catch (e) { h e }] *)
Definition tryCatch {A} (m : M A) (h : Exn → M A) : M A := λ s,
  match m s with
  | (Throw e, s1, e1) => let '(r, s2, e2) := h e s1 in (r, s2, e1 ++ e2)
  | out => out
  end.

Definition emit (e : Event) : M unit := λ s, (Ret tt, s, [e]).

Definition emits (es : list Event) : M unit := λ s, (Ret tt, s, es).

Definition gets {A} (f : Proc → A) : M A := λ s, (Ret (f s), s, []).

Definition modify (f : Proc → Proc) : M unit := λ s, (Ret tt, f s, []).

(** A call to a primitive of the host, recorded as [e]. *)
Definition host_call {A} (e : Event) (f : W → Res A * W) : M A := λ s,
  let '(r, w) := f (world s) in (r, set_world w s, [e]).

(** A pure computation of the JavaScript runtime that may throw. *)
Definition lift_pure {A} (x : Exn + A) : M A :=
  match x with
  | inl e => throw e
  | inr a => mret a
  end.

Definition skip : M unit := mret tt.

(** JavaScript truthiness of an optional text. *)
Definition truthy (o : option string) : bool :=
  match o with
  | None => false
  | Some EmptyString => false
  | Some _ => true
  end.

Definition string_of_bool (b : bool) : string :=
  if b then "true" else "false".

(** [`${x}`] for an optional text. *)
Definition string_of_opt (o : option string) : string :=
  match o with
  | None => "undefined"
  | Some s => s
  end.

(** *** Logger methods *)

Definition log (lg : Logger) (m : LogMethod) (message : string) : M unit :=
  if shouldLog lg (method_level m)
  then emit (ELog m (formatMessage lg message))
  else skip.

(** *** GitHubClient (github.ts) *)

Definition exec (command : string) : M string :=
  host_call (EExec command) (execSync command).

Definition sleep (ms : Z) : M unit := emit (ESleep ms).

Definition getBranchExists (branchName : string) : M bool :=
  tryCatch
    (exec ("git rev-parse --verify " +:+ branchName);; mret true)
    (λ _, mret false).

Definition createBranch (branchName baseBranch : string) : M unit :=
  exec ("git checkout " +:+ baseBranch);;
  exec ("git pull origin " +:+ baseBranch);;
  branchExists ← getBranchExists branchName;
  (if branchExists : bool
   then exec ("git branch -D " +:+ branchName);; skip
   else skip);;
  tryCatch
    (exec ("git push origin --delete " +:+ branchName);; skip)
    (λ _, skip);;
  exec ("git checkout -b " +:+ branchName);;
  skip.

(** [message.replace(/"/g, '\\"')] *)
Definition escape_quotes (s : string) : string :=
  Js.replaceAll dquote (backslash +:+ dquote) s.

Definition commitChanges (message : string) (files : option (list string))
  : M unit :=
  match files with
  | Some (f :: fs) => exec ("git add " +:+ Js.join " " (f :: fs));; skip
  | _ => exec "git add -A";; skip
  end;;
  let commitCmd :=
    "git commit -m " +:+ dquote +:+ escape_quotes message +:+ dquote in
  exec commitCmd;;
  skip.

Definition pushBranch (branchName : string) : M unit :=
  exec ("git push -u origin " +:+ branchName);; skip.

Definition createPullRequest (title body baseBranch : string)
  : M PullRequest :=
  result ← exec ("gh pr create --base " +:+ baseBranch
                 +:+ " --title " +:+ dquote +:+ escape_quotes title +:+ dquote
                 +:+ " --body " +:+ dquote +:+ escape_quotes body +:+ dquote
                 +:+ " --json number,url,title,state,headRefOid");
  match jsonPullRequest result with
  | inr pr => mret pr
  | inl _ =>
      match matchPullRequestUrl result with
      | Some (u, prNumber) =>
          mret {| number := prNumber; url := u; title := title;
                  state := "open"; headSha := "" |}
      | None =>
          throw (JsError ("Failed to parse PR creation result: " +:+ result))
      end
  end.

Definition getPullRequest (prNumber : Z) : M PullRequest :=
  result ← exec ("gh pr view " +:+ pretty prNumber
                 +:+ " --json number,url,title,state,headRefOid");
  lift_pure (jsonPullRequest result).

(** One round of the polling loop of [getDeploymentUrl]: the URL when
    the deployment has one. *)
Definition deployment_attempt (repo headSha : string) : M (option string) :=
  tryCatch
    (deploymentsResult ←
       exec ("gh api repos/" +:+ repo +:+ "/deployments?sha=" +:+ headSha
             +:+ "&environment=Preview --jq '.[0].id'");
     let deploymentId := Js.trim deploymentsResult in
     if (truthy (Some deploymentId)
         && negb (String.eqb deploymentId "null"))%bool
     then
       statusResult ←
         exec ("gh api repos/" +:+ repo +:+ "/deployments/" +:+ deploymentId
               +:+ "/statuses --jq '.[0].environment_url'");
       let u := Js.trim statusResult in
       if (truthy (Some u) && negb (String.eqb u "null"))%bool
       then mret (Some u)
       else mret None
     else mret None)
    (λ _, mret None).

(** The loop [for (attempt = 0; attempt < maxAttempts; attempt++)], by
    the number of rounds still to run. *)
Fixpoint deployment_loop (repo headSha : string) (remaining : nat)
  : M (option string) :=
  match remaining with
  | O => mret None
  | S k =>
      found ← deployment_attempt repo headSha;
      match found with
      | Some u => mret (Some u)
      | None =>
          (match k with
           | O => skip
           | S _ => sleep 5000
           end);;
          deployment_loop repo headSha k
      end
  end.

Definition getDeploymentUrl (repo : string) (prNumber maxAttempts : Z)
  : M (option string) :=
  p ← getPullRequest prNumber;
  deployment_loop repo (headSha p) (Z.to_nat maxAttempts).

Definition checkoutBranch (branchName : string) : M unit :=
  exec ("git checkout " +:+ branchName);; skip.

Definition hasNewCommits (baseBranch : string) : M bool :=
  tryCatch
    (result ← exec ("git log " +:+ baseBranch +:+ "..HEAD --oneline");
     mret (Js.has_nonspace result))
    (λ _, mret false).

Record GitStatus := {
  staged : list string;
  unstaged : list string;
  untracked : list string }.

(** The body of the loop over the lines of [git status --porcelain]. *)
Definition status_line (acc : GitStatus) (line : string) : GitStatus :=
  let status := Js.take 2 line in
  let file := Js.drop 3 line in
  let acc1 :=
    if Js.startsWith "?" status then
      {| staged := staged acc; unstaged := unstaged acc;
         untracked := untracked acc ++ [file] |}
    else if negb (bool_decide (Js.charAt 0 status = Some " "%char)) then
      {| staged := staged acc ++ [file]; unstaged := unstaged acc;
         untracked := untracked acc |}
    else acc in
  if (negb (bool_decide (Js.charAt 1 status = Some " "%char))
      && negb (bool_decide (Js.charAt 1 status = Some "?"%char)))%bool
  then {| staged := staged acc1; unstaged := unstaged acc1 ++ [file];
          untracked := untracked acc1 |}
  else acc1.

Definition parse_status (result : string) : GitStatus :=
  let lines := List.filter Js.has_nonspace (Js.split_lines result) in
  fold_left status_line lines
    {| staged := []; unstaged := []; untracked := [] |}.

Definition getStatus : M GitStatus :=
  result ← exec "git status --porcelain";
  mret (parse_status result).

Definition getCommitSummary (baseBranch : string) : M string :=
  host_call (ECommitSummary baseBranch) (gitCommitSummary baseBranch).

(** *** ClaudeClient (claude.ts) *)

(** [DEFAULT_TIMEOUT_MS]: 30 minutes. *)
Definition DEFAULT_TIMEOUT_MS : Z := 30 * 60 * 1000.

(** [this.config.timeout || DEFAULT_TIMEOUT_MS] *)
Definition timeoutMs (pc : ProjectConfig) : Z :=
  match claude_timeout pc with
  | Some t => if t =? 0 then DEFAULT_TIMEOUT_MS else t
  | None => DEFAULT_TIMEOUT_MS
  end.

(** [Math.round(n / d)] for integers [n] and [d > 0]. *)
Definition round_div (n d : Z) : Z := (2 * n + d) / (2 * d).

Definition timeoutDisplay (ms : Z) : string :=
  if 60000 <=? ms
  then pretty (round_div ms 60000) +:+ " minutes"
  else pretty (round_div ms 1000) +:+ " seconds".

(** What the callbacks of [runClaude] share: the captured output, the two
    timers, the [killed] flag of the [ChildProcess] object, the value the
    promise was resolved with, and the actions performed so far. *)
Record Run := {
  stdout : string;
  stderr : string;
  timeoutSet : bool;
  graceSet : bool;
  killed : bool;
  resolved : option ClaudeResult;
  actions : list Event }.

Definition run_start : Run :=
  {| stdout := ""; stderr := ""; timeoutSet := true; graceSet := false;
     killed := false; resolved := None; actions := [] |}.

(** [resolve(r)]: only the first call settles the promise. *)
Definition resolve (r : ClaudeResult) (old : option ClaudeResult)
  : option ClaudeResult :=
  match old with
  | Some r0 => Some r0
  | None => Some r
  end.

(** [`Claude exited with code ${code}`] *)
Definition exit_text (exitCode : option Z) : string :=
  "Claude exited with code " +:+
  match exitCode with
  | Some c => pretty c
  | None => "null"
  end.

(** The value the ['close'] callback resolves with, from the captured
    output and the exit code. *)
Definition close_result (out err : string) (exitCode : option Z)
  : ClaudeResult :=
  if bool_decide (exitCode = Some 0) then
    {| cr_success := true; cr_output := out; cr_error := None |}
  else
    {| cr_success := false; cr_output := out;
       cr_error := Some (match err with
                         | EmptyString => exit_text exitCode
                         | e => e
                         end) |}.

(** One callback invocation.  [childProcess.kill(sig)] sets [killed] when
    the signal was delivered; a timer that is not set cannot fire. *)
Definition on_event (display : string) (r : Run) (ev : ChildEvent) : Run :=
  match ev with
  | StdoutData text =>
      {| stdout := stdout r +:+ text; stderr := stderr r;
         timeoutSet := timeoutSet r; graceSet := graceSet r;
         killed := killed r; resolved := resolved r;
         actions := actions r ++ [EStdout text] |}
  | StderrData text =>
      {| stdout := stdout r; stderr := stderr r +:+ text;
         timeoutSet := timeoutSet r; graceSet := graceSet r;
         killed := killed r; resolved := resolved r;
         actions := actions r ++ [EStderr text] |}
  | TimeoutElapsed delivered =>
      if timeoutSet r then
        {| stdout := stdout r; stderr := stderr r;
           timeoutSet := false; graceSet := true;
           killed := (killed r || delivered)%bool; resolved := resolved r;
           actions := actions r ++
             [EConsoleError (nl +:+ nl +:+ "Claude Code timed out after "
                             +:+ display +:+ ". Killing process...");
              EKill SIGTERM] |}
      else r
  | GraceElapsed delivered =>
      if graceSet r then
        if negb (killed r) then
          {| stdout := stdout r; stderr := stderr r;
             timeoutSet := timeoutSet r; graceSet := false;
             killed := delivered; resolved := resolved r;
             actions := actions r ++ [EKill SIGKILL] |}
        else
          {| stdout := stdout r; stderr := stderr r;
             timeoutSet := timeoutSet r; graceSet := false;
             killed := killed r; resolved := resolved r;
             actions := actions r |}
      else r
  | CloseEvent exitCode =>
      {| stdout := stdout r; stderr := stderr r;
         timeoutSet := false; graceSet := graceSet r;
         killed := killed r;
         resolved :=
           resolve (close_result (stdout r) (stderr r) exitCode)
             (resolved r);
         actions := actions r |}
  | ErrorEvent message =>
      {| stdout := stdout r; stderr := stderr r;
         timeoutSet := false; graceSet := graceSet r;
         killed := killed r;
         resolved :=
           resolve {| cr_success := false; cr_output := stdout r;
                      cr_error := Some message |}
                   (resolved r);
         actions := actions r |}
  end.

(** The callbacks run over everything the child produces. *)
Definition run_child (display : string) (evs : list ChildEvent) : Run :=
  fold_left (on_event display) evs run_start.

(** The argument vector of [spawn('claude', args, ...)]. *)
Definition claude_args (pc : ProjectConfig) (prompt : string) : list string :=
  ["--print"; "--dangerously-skip-permissions"]
  ++ (if truthy (claude_model pc)
      then ["--model"; string_of_opt (claude_model pc)] else [])
  ++ (if negb (claude_maxTurns pc =? 0)
      then ["--max-turns"; pretty (claude_maxTurns pc)] else [])
  ++ [prompt].

Definition runClaude (pc : ProjectConfig) (prompt workingDir : string)
  : M ClaudeResult :=
  let args := claude_args pc prompt in
  evs ← host_call (ESpawn "claude" args workingDir)
                  (spawn "claude" args workingDir);
  let r := run_child (timeoutDisplay (timeoutMs pc)) evs in
  emits (actions r);;
  match resolved r with
  | Some result => mret result
  | None => pending
  end.

Definition workTicket (pc : ProjectConfig) (ticket : JiraTicket)
    (ticketUrl workingDir : string) : M ClaudeResult :=
  prompt ← lift_pure (buildPrompt ticket ticketUrl);
  runClaude pc prompt workingDir.

(** *** JiraClient (jira.ts), at the level of its methods *)

Definition getTicket (ticketKey : string) : M JiraTicket :=
  host_call (EJira (GetTicket ticketKey)) (jiraGetTicket ticketKey).

Definition searchTickets (jql : string) (maxResults : Z)
  : M (list JiraTicket) :=
  host_call (EJira (SearchTickets jql maxResults))
            (jiraSearchTickets jql maxResults).

Definition addComment (ticketKey comment : string) : M unit :=
  host_call (EJira (AddComment ticketKey comment))
            (jiraAddComment ticketKey comment).

Definition getTransitions (ticketKey : string) : M (list JiraTransition) :=
  host_call (EJira (GetTransitions ticketKey)) (jiraGetTransitions ticketKey).

Definition transitionTicket (ticketKey statusName : string) : M unit :=
  transitions ← getTransitions ticketKey;
  match List.find (λ t, String.eqb (Js.toLowerCase (tr_name t))
                                   (Js.toLowerCase statusName)) transitions
  with
  | None =>
      let available := Js.join ", " (map tr_name transitions) in
      throw (JsError ("Transition " +:+ dquote +:+ statusName +:+ dquote
                      +:+ " not found. Available: " +:+ available))
  | Some transition =>
      host_call (EJira (PostTransition ticketKey (tr_id transition)))
                (jiraPostTransition ticketKey (tr_id transition))
  end.

Definition downloadAttachment (a : JiraAttachment) (outputDir : string)
  : M string :=
  host_call (EJira (DownloadAttachment a outputDir))
            (jiraDownloadAttachment a outputDir).

Definition getTicketUrl (gc : GlobalConfig) (ticketKey : string) : string :=
  jira_host gc +:+ "/browse/" +:+ ticketKey.

(** *** Worker (worker.ts) *)

Section Worker.
Variables (globalConfig : GlobalConfig) (projectConfig : ProjectConfig).
Variables (workingDir : string) (logger : Logger).

Definition sanitizeForBranch (text : string) : string :=
  Js.take 50
    (Js.strip_edge_hyphens
       (Js.hyphenate_runs false (Js.toLowerCase text))).

Definition formatPattern (pattern : string) (ticket : JiraTicket) : string :=
  Js.replaceAll "{type}" (Js.toLowerCase (type ticket))
    (Js.replaceAll "{summary}" (sanitizeForBranch (summary ticket))
       (Js.replaceAll "{ticket_key}" (key ticket) pattern)).

Definition formatPrBody (ticket : JiraTicket)
    (ticketUrl changesSummary : string) : string :=
  Js.replaceAll "{testing_instructions}"
    ("- Review the changes" +:+ nl +:+ "- Test on preview deployment")
    (Js.replaceAll "{changes_summary}"
       (match changesSummary with
        | EmptyString => "- Implementation details in commits"
        | c => c
        end)
       (Js.replaceAll "{summary}" (summary ticket)
          (Js.replaceAll "{ticket_url}" ticketUrl
             (Js.replaceAll "{ticket_key}" (key ticket)
                (workflow_pr_bodyTemplate projectConfig))))).

Definition formatJiraComment (p : PullRequest)
    (previewUrl : option string) (changesSummary : string) : string :=
  let comment := "PR: " +:+ url p in
  let comment :=
    if truthy previewUrl
    then comment +:+ nl +:+ "Preview: " +:+ string_of_opt previewUrl
    else comment in
  let comment :=
    if truthy (Some changesSummary)
    then comment +:+ nl +:+ nl +:+ "Changes made:" +:+ nl +:+ changesSummary
    else comment in
  comment +:+ nl +:+ nl +:+ "Ready for review.".

(** [path.join(workingDir, '.jira-tickets', ticket.key, 'attachments')] *)
Definition attachmentsDir (ticket : JiraTicket) : string :=
  Js.join "/" [workingDir; ".jira-tickets"; key ticket; "attachments"].

Fixpoint download_each (dir : string) (atts : list JiraAttachment)
  : M unit :=
  match atts with
  | [] => skip
  | a :: rest =>
      log logger m_info ("Downloading attachment: " +:+ att_filename a);;
      downloadAttachment a dir;;
      download_each dir rest
  end.

Definition downloadAttachments (ticket : JiraTicket) : M unit :=
  let dir := attachmentsDir ticket in
  host_call (EMkdir dir) (mkdirSync dir);;
  download_each dir (attachments ticket).

Definition baseBranch : string := workflow_pr_baseBranch projectConfig.

(** The result returned when the agent changed nothing. *)
Definition noChanges (ticketKey : string) : WorkResult :=
  {| success := false; ticketKey := ticketKey; pr := None;
     previewUrl := None; error := Some "No changes were made";
     changesSummary := None |}.

(** The result built by the [catch] clause. *)
Definition failure (ticketKey errorMessage : string) : WorkResult :=
  {| success := false; ticketKey := ticketKey; pr := None;
     previewUrl := None; error := Some errorMessage;
     changesSummary := None |}.

(** The [try] block of [processTicket]. *)
Definition processTicket_try (ticketKey : string) : M WorkResult :=
  (* 1. Fetch ticket details *)
  log logger m_info "Fetching ticket details...";;
  ticket ← getTicket ticketKey;
  let ticketUrl := getTicketUrl globalConfig ticketKey in
  (* 2. Download attachments *)
  (match attachments ticket with
   | [] => skip
   | _ :: _ => downloadAttachments ticket
   end);;
  (* 3. Create feature branch *)
  let branchName :=
    formatPattern (workflow_branchPattern projectConfig) ticket in
  log logger m_info ("Creating branch: " +:+ branchName);;
  createBranch branchName baseBranch;;
  (* 4. Run Claude Code to implement the ticket *)
  log logger m_info "Running Claude Code...";;
  claudeResult ← workTicket projectConfig ticket ticketUrl workingDir;
  log logger m_info ("Claude Code finished. Success: "
                     +:+ string_of_bool (cr_success claudeResult));;
  (if truthy (cr_error claudeResult)
   then log logger m_error
          ("Claude error: " +:+ string_of_opt (cr_error claudeResult))
   else skip);;
  (if negb (cr_success claudeResult)
   then throw (JsError ("Claude Code failed: "
                        +:+ string_of_opt (cr_error claudeResult)))
   else skip);;
  (* 5. Check if there are changes (committed or uncommitted) *)
  log logger m_info "Checking for changes...";;
  st ← getStatus;
  let hasUncommitted :=
    (negb (bool_decide (staged st = []))
     || negb (bool_decide (unstaged st = []))
     || negb (bool_decide (untracked st = [])))%bool in
  newCommits ← hasNewCommits baseBranch;
  log logger m_info ("Git status - uncommitted: "
                     +:+ string_of_bool hasUncommitted
                     +:+ ", new commits: " +:+ string_of_bool newCommits);;
  if (negb hasUncommitted && negb newCommits)%bool then
    log logger m_warn "No changes made by Claude Code";;
    mret (noChanges ticketKey)
  else
    (* If there are uncommitted changes, commit them *)
    (if hasUncommitted
     then log logger m_info "Committing uncommitted changes...";;
          commitChanges (ticketKey +:+ ": Implementation") None
     else skip);;
    (* 6. Push branch *)
    log logger m_info "Pushing branch...";;
    pushBranch branchName;;
    (* 7. Create PR *)
    let prTitle :=
      formatPattern (workflow_pr_titlePattern projectConfig) ticket in
    summaryText ← getCommitSummary baseBranch;
    let prBody := formatPrBody ticket ticketUrl summaryText in
    log logger m_info "Creating PR...";;
    p ← createPullRequest prTitle prBody baseBranch;
    (* 8. Wait for deployment preview *)
    preview ←
      (if deployment_waitForPreview projectConfig then
         log logger m_info "Waiting for preview deployment...";;
         u ← getDeploymentUrl (project_repo projectConfig) (number p)
               ((deployment_previewTimeout projectConfig + 4) / 5);
         if truthy u
         then log logger m_info ("Preview URL: " +:+ string_of_opt u);;
              mret u
         else mret None
       else mret None);
    (* 9. Update JIRA *)
    log logger m_info "Updating JIRA ticket...";;
    let comment := formatJiraComment p preview summaryText in
    addComment ticketKey comment;;
    (* 10. Transition ticket *)
    (if truthy (workflow_transitions_onPrCreated projectConfig) then
       let target :=
         string_of_opt (workflow_transitions_onPrCreated projectConfig) in
       log logger m_info ("Transitioning ticket to " +:+ dquote +:+ target
                          +:+ dquote +:+ "...");;
       transitionTicket ticketKey target
     else skip);;
    (* 11. Return to base branch *)
    checkoutBranch baseBranch;;
    log logger m_info ("Successfully completed " +:+ ticketKey);;
    mret {| success := true; ticketKey := ticketKey; pr := Some p;
            previewUrl := preview; error := None;
            changesSummary := Some summaryText |}.

(** The [catch (error)] clause of [processTicket]. *)
Definition processTicket_catch (ticketKey : string) (err : Exn)
  : M WorkResult :=
  let message := errorMessage err in
  log logger m_error ("Failed to process " +:+ ticketKey +:+ ": "
                      +:+ message);;
  (* Try to return to base branch *)
  tryCatch (checkoutBranch baseBranch) (λ _, skip);;
  mret (failure ticketKey message).

Definition processTicket (ticketKey : string) : M WorkResult :=
  log logger m_info ("Starting work on " +:+ ticketKey);;
  tryCatch (processTicket_try ticketKey) (processTicket_catch ticketKey).

End Worker.

(** *** Poller (poller.ts) *)

Section Poller.
Variables (projectConfig : ProjectConfig) (logger : Logger).

(** The query of [getNextTicket]. *)
Definition poll_jql : string :=
  let statuses :=
    match tickets_statuses projectConfig with
    | Some l => l
    | None => ["To Do"]
    end in
  let statusClause :=
    Js.join ", " (map (λ s, dquote +:+ s +:+ dquote) statuses) in
  if truthy (tickets_jql projectConfig)
  then string_of_opt (tickets_jql projectConfig)
  else "project = " +:+ project_jiraKey projectConfig
       +:+ " AND status IN (" +:+ statusClause
       +:+ ") ORDER BY priority DESC, created ASC".

Definition getNextTicket : M (option JiraTicket) :=
  let jql := poll_jql in
  log logger m_debug ("Polling with JQL: " +:+ jql);;
  tryCatch
    (tickets ← searchTickets jql 10;
     (* Filter out tickets we've already processed in this session *)
     processed ← gets processedTickets;
     let available :=
       List.filter (λ t, negb (bool_decide (key t ∈ processed))) tickets in
     match available with
     | [] => mret None
     | first :: _ => mret (Some first)
     end)
    (λ err,
       log logger m_error ("Failed to poll JIRA: " +:+ errorMessage err);;
       mret None).

Definition markProcessed (ticketKey : string) : M unit :=
  modify (λ s, set_processedTickets ({[ticketKey]} ∪ processedTickets s) s).

Definition clearProcessed : M unit :=
  modify (set_processedTickets ∅).

Definition getProcessedCount : M nat :=
  gets (λ s, size (processedTickets s)).

End Poller.

(** *** Daemon (daemon.ts) *)

Section Daemon.
Variables (globalConfig : GlobalConfig) (projectConfig : ProjectConfig).
Variables (workingDir : string) (logger : Logger).

(** [stop] is the handler of SIGINT and SIGTERM.  It reads [currentTicket]
    and writes [running] only; [poll] reads neither field, and [running] is
    tested by the loop of [start] between two iterations, so a signal that
    arrives during an iteration leaves what [poll] does unchanged. *)
Definition stop : M unit :=
  log logger m_info "";;
  current ← gets currentTicket;
  (if truthy current
   then log logger m_warn ("Stopping... (currently working on "
                           +:+ string_of_opt current +:+ ")")
   else log logger m_info "Stopping daemon...");;
  modify (set_running false).

Definition poll : M unit :=
  log logger m_info "Checking for tickets...";;
  next ← getNextTicket projectConfig logger;
  match next with
  | None => log logger m_info "No tickets to process"
  | Some ticket =>
      log logger m_info ("Found ticket: " +:+ key ticket +:+ " - "
                         +:+ summary ticket);;
      modify (set_currentTicket (Some (key ticket)));;
      (* Create a worker and process the ticket *)
      result ← processTicket globalConfig projectConfig workingDir
                 (child logger (key ticket)) (key ticket);
      (* Mark as processed regardless of success/failure *)
      markProcessed (key ticket);;
      modify (set_currentTicket None);;
      (if success result then
         log logger m_success ("Completed " +:+ key ticket);;
         (match pr result with
          | Some p => log logger m_info ("  PR: " +:+ url p)
          | None => skip
          end);;
         (if truthy (previewUrl result)
          then log logger m_info ("  Preview: "
                                  +:+ string_of_opt (previewUrl result))
          else skip)
       else
         log logger m_error ("Failed " +:+ key ticket +:+ ": "
                             +:+ string_of_opt (error result)));;
      log logger m_info ""
  end.

Definition isRunning : M bool := gets running.

Definition getCurrentTicket : M (option string) := gets currentTicket.

End Daemon.

End System.

(** *** JiraClient: comments as Atlassian Document Format (jira.ts) *)

(** A node [{ type: 'text', text }], with the mark
    [{ type: 'link', attrs: { href } }] when [href] is given. *)
Record AdfText := {
  adf_text : string;
  adf_href : option string }.

(** [{ type: 'paragraph', content }] *)
Record AdfParagraph := { par_content : list AdfText }.

(** [{ type: 'doc', version, content }] *)
Record AdfDoc := {
  doc_version : Z;
  doc_content : list AdfParagraph }.

(** The longest prefix of characters that are not white space, and what
    follows it: [[^\s]*]. *)
Fixpoint span_nonspace (s : string) : string * string :=
  match s with
  | EmptyString => (EmptyString, EmptyString)
  | String c s' =>
      if Js.is_space c then (EmptyString, s)
      else let '(a, b) := span_nonspace s' in (String c a, b)
  end.

(** A match of [/https?:\/\/[^\s]+/] at the start of [s]: the text matched
    and what follows it. *)
Definition match_url (s : string) : option (string * string) :=
  let scheme :=
    if String.prefix "https://" s then Some "https://"
    else if String.prefix "http://" s then Some "http://"
    else None in
  match scheme with
  | None => None
  | Some sch =>
      match span_nonspace (Js.drop (String.length sch) s) with
      | (EmptyString, _) => None
      | (body, rest) => Some (sch +:+ body, rest)
      end
  end.

(** [line.split(/(https?:\/\/[^\s]+)/g)]: the texts between the matches
    with the matches in between.  [skip] counts the characters of a match
    still to be passed and [acc] is the text since the last match. *)
Fixpoint split_urls (skip : nat) (acc s : string) : list string :=
  match s with
  | EmptyString => [acc]
  | String c s' =>
      match skip with
      | S k => split_urls k acc s'
      | O =>
          match match_url s with
          | Some (u, _) =>
              acc :: u :: split_urls (String.length u - 1) EmptyString s'
          | None => split_urls 0 (acc +:+ String c EmptyString) s'
          end
      end
  end.

Definition blank_text : AdfText := {| adf_text := " "; adf_href := None |}.

(** The node [parseLineWithUrls] makes of one part of a line. *)
Definition text_node (part : string) : AdfText :=
  if (String.prefix "http://" part || String.prefix "https://" part)%bool
  then {| adf_text := part; adf_href := Some part |}
  else {| adf_text := part; adf_href := None |}.

Definition parseLineWithUrls (line : string) : list AdfText :=
  if negb (Js.has_nonspace line) then [blank_text]
  else
    flat_map (λ part, match part with
                      | EmptyString => []
                      | _ => [text_node part]
                      end)
             (split_urls 0 EmptyString line).

Definition textToAdf (text : string) : AdfDoc :=
  {| doc_version := 1;
     doc_content :=
       map (λ line,
              let lineContent := parseLineWithUrls line in
              {| par_content := match lineContent with
                                | [] => [blank_text]
                                | _ => lineContent
                                end |})
           (Js.split_lines text) |}.

(** ** A small host for running the model

    A repository with named local branches, a tracker holding a list of
    tickets and an agent with a scripted behaviour.  It interprets exactly
    the commands the sources issue and serves as the concrete instance at
    which the general statements below are exercised. *)

Module Mock.

Record Repo := {
  m_head : string;                  (* branch checked out *)
  m_locals : gmap string string;    (* local branches and their commits *)
  m_remotes : gset string;          (* branches on origin *)
  m_porcelain : string;             (* output of git status --porcelain *)
  m_ahead : string;                 (* output of git log base..HEAD *)
  m_tickets : list JiraTicket;      (* what the tracker holds *)
  m_tracker_up : bool;              (* whether the tracker answers *)
  m_agent : list ChildEvent;        (* what the spawned agent does *)
  m_agent_porcelain : string;       (* status left behind by the agent *)
  m_agent_ahead : string }.         (* commits left behind by the agent *)

Definition with_git (h : string) (l : gmap string string) (r : gset string)
    (w : Repo) : Repo :=
  {| m_head := h; m_locals := l; m_remotes := r;
     m_porcelain := m_porcelain w; m_ahead := m_ahead w;
     m_tickets := m_tickets w; m_tracker_up := m_tracker_up w;
     m_agent := m_agent w; m_agent_porcelain := m_agent_porcelain w;
     m_agent_ahead := m_agent_ahead w |}.

Definition with_tree (p a : string) (w : Repo) : Repo :=
  {| m_head := m_head w; m_locals := m_locals w; m_remotes := m_remotes w;
     m_porcelain := p; m_ahead := a;
     m_tickets := m_tickets w; m_tracker_up := m_tracker_up w;
     m_agent := m_agent w; m_agent_porcelain := m_agent_porcelain w;
     m_agent_ahead := m_agent_ahead w |}.

(** The rest of [s] after the prefix [p]. *)
Definition after (p s : string) : option string :=
  if String.prefix p s then Some (Js.drop (String.length p) s) else None.

Definition failed {A} (command : string) (w : Repo) : Res A * Repo :=
  (Throw (JsError ("Command failed: " +:+ command)), w).

(** The commands the mock understands. *)
Inductive Command : Type :=
  | CheckoutNew (b : string)
  | Checkout (b : string)
  | Pull
  | RevParse (b : string)
  | BranchDelete (b : string)
  | PushDelete (b : string)
  | Push (b : string)
  | Status
  | Log
  | Add
  | Commit
  | PrCreate
  | PrView
  | Api
  | Unknown.

Definition parse (command : string) : Command :=
  match after "git checkout -b " command with
  | Some b => CheckoutNew b
  | None =>
  match after "git checkout " command with
  | Some b => Checkout b
  | None =>
  match after "git pull origin " command with
  | Some _ => Pull
  | None =>
  match after "git rev-parse --verify " command with
  | Some b => RevParse b
  | None =>
  match after "git branch -D " command with
  | Some b => BranchDelete b
  | None =>
  match after "git push origin --delete " command with
  | Some b => PushDelete b
  | None =>
  match after "git push -u origin " command with
  | Some b => Push b
  | None =>
  if String.prefix "git status --porcelain" command then Status
  else if String.prefix "git log " command then Log
  else if String.prefix "git add " command then Add
  else if String.prefix "git commit -m " command then Commit
  else if String.prefix "gh pr create " command then PrCreate
  else if String.prefix "gh pr view " command then PrView
  else if String.prefix "gh api " command then Api
  else Unknown
  end end end end end end end.

Definition run (c : Command) (command : string) (w : Repo)
  : Res string * Repo :=
  match c with
  | CheckoutNew b =>
      match m_locals w !! b with
      | Some _ => failed command w
      | None =>
          let commit := default "0000000" (m_locals w !! m_head w) in
          (Ret "", with_git b (<[b := commit]> (m_locals w)) (m_remotes w) w)
      end
  | Checkout b =>
      match m_locals w !! b with
      | Some _ => (Ret "", with_git b (m_locals w) (m_remotes w) w)
      | None => failed command w
      end
  | Pull => (Ret "Already up to date.", w)
  | RevParse b =>
      match m_locals w !! b with
      | Some commit => (Ret commit, w)
      | None => failed command w
      end
  | BranchDelete b =>
      match m_locals w !! b with
      | Some _ =>
          if String.eqb b (m_head w) then failed command w
          else (Ret "", with_git (m_head w) (delete b (m_locals w))
                          (m_remotes w) w)
      | None => failed command w
      end
  | PushDelete b =>
      if bool_decide (b ∈ m_remotes w)
      then (Ret "", with_git (m_head w) (m_locals w) (m_remotes w ∖ {[b]}) w)
      else failed command w
  | Push b =>
      (Ret "", with_git (m_head w) (m_locals w) ({[b]} ∪ m_remotes w) w)
  | Status => (Ret (m_porcelain w), w)
  | Log => (Ret (m_ahead w), w)
  | Add => (Ret "", w)
  | Commit => (Ret "", with_tree "" (m_ahead w +:+ "1a2b3c4 commit" +:+ nl) w)
  | PrCreate => (Ret "https://github.com/acme/shop/pull/7", w)
  | PrView => (Ret "PR", w)
  | Api => (Ret "null", w)
  | Unknown => failed command w
  end.

Definition exec (command : string) (w : Repo) : Res string * Repo :=
  run (parse command) command w.

Definition samplePr : PullRequest :=
  {| number := 7; url := "https://github.com/acme/shop/pull/7";
     title := "PROJ-42: Fix Login Bug!!"; state := "OPEN";
     headSha := "1a2b3c4" |}.

#[global] Instance host : Host Repo := {|
  execSync := exec;
  mkdirSync := λ _ w, (Ret tt, w);
  spawn := λ _ _ _ w,
    (Ret (m_agent w), with_tree (m_agent_porcelain w) (m_agent_ahead w) w);
  jiraGetTicket := λ k w,
    match List.find (λ t, String.eqb (key t) k) (m_tickets w) with
    | Some t =>
        if m_tracker_up w then (Ret t, w)
        else (Throw (JsError "Network Error"), w)
    | None => (Throw (JsError "Request failed with status code 404"), w)
    end;
  jiraSearchTickets := λ _ n w,
    if m_tracker_up w then (Ret (firstn (Z.to_nat n) (m_tickets w)), w)
    else (Throw (JsError "Network Error"), w);
  jiraAddComment := λ _ _ w, (Ret tt, w);
  jiraGetTransitions := λ _ w,
    (Ret [{| tr_id := "31"; tr_name := "PR to develop open" |}], w);
  jiraPostTransition := λ _ _ w, (Ret tt, w);
  jiraDownloadAttachment := λ a dir w,
    (Ret (dir +:+ "/" +:+ att_filename a), w);
  gitCommitSummary := λ _ w, (Ret (m_ahead w), w);
  jsonPullRequest := λ text,
    if String.eqb text "PR" then inr samplePr
    else inl (JsError "Unexpected token h in JSON at position 0");
  matchPullRequestUrl := λ text,
    if String.prefix "https://github.com/" text then Some (text, 7)
    else None;
  buildPrompt := λ t _, inr ("Work on JIRA ticket " +:+ key t)
|}.

(** The two observations of a repository the statements below use. *)
Definition currentBranch (w : Repo) : string := m_head w.
Definition localTip (b : string) (w : Repo) : option string := m_locals w !! b.

Definition ticket42 : JiraTicket :=
  {| key := "PROJ-42"; summary := "Fix Login Bug!!"; description := JNull;
     status := "To Do"; type := "Bug"; priority := "High";
     assignee := None; reporter := "Sam"; attachments := [];
     comments := []; labels := []; customFields := [] |}.

Definition projectConfig : ProjectConfig :=
  {| project_jiraKey := "PROJ"; project_repo := "acme/shop";
     tickets_statuses := None; tickets_jql := None;
     workflow_branchPattern := "feature/{ticket_key}";
     workflow_pr_baseBranch := "develop";
     workflow_pr_titlePattern := "{ticket_key}: {summary}";
     workflow_pr_bodyTemplate := "{ticket_url} {changes_summary}";
     workflow_transitions_onPrCreated := Some "PR to develop open";
     deployment_waitForPreview := false;
     deployment_previewTimeout := 300;
     claude_model := Some "sonnet"; claude_maxTurns := 50;
     claude_timeout := None |}.

Definition globalConfig : GlobalConfig :=
  {| bot_pollInterval := 300; jira_host := "https://acme.atlassian.net" |}.

Definition logger : Logger := {| level := info; prefix := "" |}.

(** A clean clone on [develop]; the agent exits at once with code 0 and
    changes nothing. *)
Definition idle : Repo :=
  {| m_head := "develop"; m_locals := {[ "develop" := "c0ffee0" ]};
     m_remotes := {[ "develop" ]}; m_porcelain := ""; m_ahead := "";
     m_tickets := [ticket42]; m_tracker_up := true;
     m_agent := [CloseEvent (Some 0)];
     m_agent_porcelain := ""; m_agent_ahead := "" |}.

(** The same clone when the agent leaves one commit behind. *)
Definition busy : Repo :=
  {| m_head := "develop"; m_locals := {[ "develop" := "c0ffee0" ]};
     m_remotes := {[ "develop" ]}; m_porcelain := ""; m_ahead := "";
     m_tickets := [ticket42]; m_tracker_up := true;
     m_agent := [StdoutData "done"; CloseEvent (Some 0)];
     m_agent_porcelain := "";
     m_agent_ahead := "1a2b3c4 PROJ-42: fix login" +:+ nl |}.

(** A clone on [main] that has no branch [develop] at all. *)
Definition no_base : Repo :=
  {| m_head := "main"; m_locals := {[ "main" := "c0ffee0" ]};
     m_remotes := {[ "main" ]}; m_porcelain := ""; m_ahead := "";
     m_tickets := [ticket42]; m_tracker_up := true;
     m_agent := [CloseEvent (Some 0)];
     m_agent_porcelain := ""; m_agent_ahead := "" |}.

Definition start (w : Repo) : Proc :=
  {| world := w; processedTickets := ∅; running := true;
     currentTicket := None |}.

End Mock.


(** A clone whose tracker is unreachable. *)
Definition offline : Mock.Repo :=
  {| Mock.m_head := "develop";
     Mock.m_locals := {[ "develop" := "c0ffee0" ]};
     Mock.m_remotes := {[ "develop" ]};
     Mock.m_porcelain := ""; Mock.m_ahead := "";
     Mock.m_tickets := [Mock.ticket42]; Mock.m_tracker_up := false;
     Mock.m_agent := []; Mock.m_agent_porcelain := "";
     Mock.m_agent_ahead := "" |}.

(** The clean clone with an agent that fails. *)
Definition failing : Mock.Repo :=
  {| Mock.m_head := "develop";
     Mock.m_locals := {[ "develop" := "c0ffee0" ]};
     Mock.m_remotes := {[ "develop" ]};
     Mock.m_porcelain := ""; Mock.m_ahead := "";
     Mock.m_tickets := [Mock.ticket42]; Mock.m_tracker_up := true;
     Mock.m_agent := [StderrData "boom"; CloseEvent (Some 1)];
     Mock.m_agent_porcelain := ""; Mock.m_agent_ahead := "" |}.

(** The clean clone with an agent that runs into the timeout, receives
    SIGTERM and dies of it without a word: the exit code is [null]. *)
Definition overdue : Mock.Repo :=
  {| Mock.m_head := "develop";
     Mock.m_locals := {[ "develop" := "c0ffee0" ]};
     Mock.m_remotes := {[ "develop" ]};
     Mock.m_porcelain := ""; Mock.m_ahead := "";
     Mock.m_tickets := [Mock.ticket42]; Mock.m_tracker_up := true;
     Mock.m_agent := [StdoutData "thinking"; TimeoutElapsed true;
                      CloseEvent None];
     Mock.m_agent_porcelain := ""; Mock.m_agent_ahead := "" |}.

(** The same with an agent that prints a last line on its standard error
    before it dies of SIGTERM. *)
Definition overdue_loud : Mock.Repo :=
  {| Mock.m_head := "develop";
     Mock.m_locals := {[ "develop" := "c0ffee0" ]};
     Mock.m_remotes := {[ "develop" ]};
     Mock.m_porcelain := ""; Mock.m_ahead := "";
     Mock.m_tickets := [Mock.ticket42]; Mock.m_tracker_up := true;
     Mock.m_agent := [StdoutData "thinking"] ++ TimeoutElapsed true
                     :: [StderrData "Terminated"] ++ CloseEvent None
                     :: [GraceElapsed false];
     Mock.m_agent_porcelain := ""; Mock.m_agent_ahead := "" |}.

(** The clean clone with an agent that runs into the timeout while the
    SIGTERM cannot be delivered, and is gone only after the SIGKILL. *)
Definition unreachable : Mock.Repo :=
  {| Mock.m_head := "develop";
     Mock.m_locals := {[ "develop" := "c0ffee0" ]};
     Mock.m_remotes := {[ "develop" ]};
     Mock.m_porcelain := ""; Mock.m_ahead := "";
     Mock.m_tickets := [Mock.ticket42]; Mock.m_tracker_up := true;
     Mock.m_agent := [TimeoutElapsed false; GraceElapsed true;
                      CloseEvent None];
     Mock.m_agent_porcelain := ""; Mock.m_agent_ahead := "" |}.

(** A tracker that is up and holds exactly the ticket PROJ-42. *)
Definition serves42 (w : Mock.Repo) : Prop :=
  Mock.m_tickets w = [Mock.ticket42] ∧ Mock.m_tracker_up w = true.

(** * The vocabulary of the statements *)

Section Vocabulary.
Context {W : Type} {host : Host W}.

(** ** Runs and what they do *)

(** The lines a logger method writes. *)
Definition logged (lg : Logger) (m : LogMethod) (message : string)
  : list Event :=
  if shouldLog lg (method_level m)
  then [ELog m (formatMessage lg message)] else [].

(** [respects R P m]: whatever [m] does, the state it leaves is related to
    the state it started from by [R], and every action it performs
    satisfies [P]. *)
Definition respects {A} (R : @Proc W → @Proc W → Prop) (P : Event → Prop)
    (m : M A) : Prop :=
  ∀ s r s' evs, m s = (r, s', evs) → R s s' ∧ Forall P evs.

(** Every command among the actions [evs] satisfies [Q]. *)
Definition commands_in (Q : string → Prop) (evs : list Event) : Prop :=
  Forall (λ e, ∀ c, e = EExec c → Q c) evs.

(** The two commands that publish work: those of [pushBranch] and of
    [createPullRequest]. *)
Definition publishes (e : Event) : bool :=
  match e with
  | EExec c => (String.prefix "git push -u origin " c
                || String.prefix "gh pr create " c)%bool
  | _ => false
  end.

Definition is_checkout (e : Event) : bool :=
  match e with
  | EExec c => String.prefix "git checkout " c
  | _ => false
  end.

(** ** git *)

(** The commands [createBranch] may run, in the order of the source. *)
Definition createBranch_commands (branchName baseBranch : string)
  : list string :=
  [ "git checkout " +:+ baseBranch;
    "git pull origin " +:+ baseBranch;
    "git rev-parse --verify " +:+ branchName;
    "git branch -D " +:+ branchName;
    "git push origin --delete " +:+ branchName;
    "git checkout -b " +:+ branchName ].

(** Two facts about git a statement may assume of the host, for [cur] the
    branch HEAD is on: the command leaves HEAD on branch [b] when it
    succeeds; the command never moves HEAD. *)
Definition sets_head (cur : W → string) (command b : string) : Prop :=
  ∀ w out w', execSync command w = (Ret out, w') → cur w' = b.

Definition keeps_head (cur : W → string) (command : string) : Prop :=
  ∀ w r w', execSync command w = (r, w') → cur w' = cur w.

(** What the statements about [createBranch] assume of git.  [cur w] is the
    branch HEAD is on and [tip b w] the commit local branch [b] points to
    ([None]: no such branch).  The laws describe the six commands of
    [createBranch] for a branch [name] and a base branch [base]. *)
Record GitLaws (cur : W → string) (tip : string → W → option string)
    (name base : string) : Prop := {
  law_checkout : ∀ w out w',
    execSync ("git checkout " +:+ base) w = (Ret out, w') →
    cur w' = base ∧ is_Some (tip base w')
    ∧ ∀ b, b ≠ base → tip b w' = tip b w;
  law_pull : ∀ w out w',
    execSync ("git pull origin " +:+ base) w = (Ret out, w') →
    cur w' = cur w
    ∧ (is_Some (tip (cur w) w) → is_Some (tip (cur w) w'))
    ∧ ∀ b, b ≠ cur w → tip b w' = tip b w;
  law_rev_parse : ∀ w r w',
    execSync ("git rev-parse --verify " +:+ name) w = (r, w') →
    cur w' = cur w ∧ (∀ b, tip b w' = tip b w)
    ∧ ∀ e, r = Throw e → tip name w = None;
  law_branch_D : ∀ w out w',
    execSync ("git branch -D " +:+ name) w = (Ret out, w') →
    cur w' = cur w ∧ cur w ≠ name ∧ tip name w' = None
    ∧ ∀ b, b ≠ name → tip b w' = tip b w;
  law_push_delete : ∀ w r w',
    execSync ("git push origin --delete " +:+ name) w = (r, w') →
    cur w' = cur w ∧ ∀ b, tip b w' = tip b w;
  law_checkout_b : ∀ w out w',
    execSync ("git checkout -b " +:+ name) w = (Ret out, w') →
    cur w' = name
    ∧ (is_Some (tip (cur w) w) → tip name w' = tip (cur w) w)
    ∧ ∀ b, b ≠ name → tip b w' = tip b w }.

(** The state [createBranch] is to establish: [name] is checked out, exists
    and points to the commit of [base]. *)
Definition branch_ready (cur : W → string)
    (tip : string → W → option string) (name base : string) (w : W) : Prop :=
  cur w = name ∧ is_Some (tip name w) ∧ tip name w = tip base w.

(** The exception [e] is one [command] can throw. *)
Definition thrown_by (command : string) (e : Exn) : Prop :=
  ∃ w w', execSync command w = (Throw e, w').

(** Where an exception of [createBranch] can come from: the checkout of
    the base, the pull, the forced deletion, or the final [git checkout -b]
    run while no local branch [name] exists. *)
Definition createBranch_failure (tip : string → W → option string)
    (name base : string) (e : Exn) : Prop :=
  thrown_by ("git checkout " +:+ base) e
  ∨ thrown_by ("git pull origin " +:+ base) e
  ∨ thrown_by ("git branch -D " +:+ name) e
  ∨ ∃ w w', tip name w = None
            ∧ execSync ("git checkout -b " +:+ name) w = (Throw e, w').

(** ** The Poller *)

(** The first ticket of a batch whose key is not in the processed set. *)
Definition first_available (processed : gset string)
    (tickets : list JiraTicket) : option JiraTicket :=
  match List.filter (λ t, negb (bool_decide (key t ∈ processed))) tickets
  with
  | [] => None
  | first :: _ => Some first
  end.

(** What [getNextTicket] makes of each answer of the tracker. *)
Definition poll_answer (processed : gset string)
    (response : Res (list JiraTicket)) : Res (option JiraTicket) :=
  match response with
  | Ret tickets => Ret (first_available processed tickets)
  | Throw _ => Ret None
  | Pending => Pending
  end.

(** What [getNextTicket] does on the way. *)
Definition poll_events (projectConfig : ProjectConfig) (logger : Logger)
    (response : Res (list JiraTicket)) : list Event :=
  logged logger m_debug ("Polling with JQL: " +:+ poll_jql projectConfig)
  ++ [EJira (SearchTickets (poll_jql projectConfig) 10)]
  ++ match response with
     | Throw e => logged logger m_error
                    ("Failed to poll JIRA: " +:+ errorMessage e)
     | _ => []
     end.

(** The tracker answers every search of the Poller with [response], in
    every host state that satisfies [I]. *)
Definition always_answers (projectConfig : ProjectConfig)
    (response : Res (list JiraTicket)) (I : W → Prop) : Prop :=
  ∀ w, I w →
    ∃ w', jiraSearchTickets (poll_jql projectConfig) 10 w = (response, w')
          ∧ I w'.

(** The call sequence of the deduplication scenario. *)
Definition dedup_session (projectConfig : ProjectConfig) (logger : Logger)
    (ticketKey : string)
  : M (option JiraTicket * option JiraTicket * option JiraTicket) :=
  first ← getNextTicket projectConfig logger;
  markProcessed ticketKey;;
  second ← getNextTicket projectConfig logger;
  clearProcessed;;
  third ← getNextTicket projectConfig logger;
  mret (first, second, third).

(** [n] calls of [getNextTicket] in a row. *)
Fixpoint poll_times (projectConfig : ProjectConfig) (logger : Logger)
    (n : nat) : M (list (option JiraTicket)) :=
  match n with
  | O => mret []
  | S k =>
      r ← getNextTicket projectConfig logger;
      rest ← poll_times projectConfig logger k;
      mret (r :: rest)
  end.

(** ** The Worker *)

(** The branch [processTicket] creates for a ticket. *)
Definition branchName (projectConfig : ProjectConfig) (ticket : JiraTicket)
  : string :=
  formatPattern (workflow_branchPattern projectConfig) ticket.

(** Step 2 of [processTicket]. *)
Definition attachmentsStep (workingDir : string) (logger : Logger)
    (ticket : JiraTicket) : M unit :=
  match attachments ticket with
  | [] => skip
  | _ :: _ => downloadAttachments workingDir logger ticket
  end.

(** The commands of the change check. *)
Definition change_check_commands (projectConfig : ProjectConfig)
  : list string :=
  [ "git status --porcelain";
    "git log " +:+ baseBranch projectConfig +:+ "..HEAD --oneline" ].

(** The run of [processTicket] up to the change check of step 5, when the
    agent succeeded ([s3]: after the branch was created, [s4]: after the
    agent returned) and neither uncommitted changes nor new commits are
    found ([s6]). *)
Inductive no_change_run (globalConfig : GlobalConfig)
    (projectConfig : ProjectConfig) (workingDir : string) (logger : Logger)
    (tkey : string) (s0 : @Proc W) (ticket : JiraTicket)
    (s3 s4 s6 : @Proc W) : Prop :=
  | NoChangeRun s1 e1 s2 e2 e3 claudeResult e4 st s5 e5 e6 :
      getTicket tkey s0 = (Ret ticket, s1, e1) →
      attachmentsStep workingDir logger ticket s1 = (Ret tt, s2, e2) →
      createBranch (branchName projectConfig ticket)
        (baseBranch projectConfig) s2 = (Ret tt, s3, e3) →
      workTicket projectConfig ticket (getTicketUrl globalConfig tkey)
        workingDir s3 = (Ret claudeResult, s4, e4) →
      cr_success claudeResult = true →
      getStatus s4 = (Ret st, s5, e5) →
      staged st = [] → unstaged st = [] → untracked st = [] →
      hasNewCommits (baseBranch projectConfig) s5 = (Ret false, s6, e6) →
      no_change_run globalConfig projectConfig workingDir logger
        tkey s0 ticket s3 s4 s6.

(** What the [catch] clause of [processTicket] makes of the checkout it
    attempts: it returns its result unless the checkout never returns. *)
Definition recovered {A} (attempt : Res A) (result : WorkResult)
  : Res WorkResult :=
  match attempt with
  | Pending => Pending
  | _ => Ret result
  end.

(** ** The agent *)

(** The event settles the promise of [runClaude]. *)
Definition settles (ev : ChildEvent) : bool :=
  match ev with
  | CloseEvent _ | ErrorEvent _ => true
  | _ => false
  end.

Definition is_timeout (ev : ChildEvent) : bool :=
  match ev with
  | TimeoutElapsed _ => true
  | _ => false
  end.

(** The child is running and its time is not up. *)
Definition running_event (ev : ChildEvent) : bool :=
  (negb (settles ev) && negb (is_timeout ev))%bool.

(** What the child wrote to its standard output, and to its standard
    error. *)
Fixpoint stdout_of (evs : list ChildEvent) : string :=
  match evs with
  | [] => ""
  | StdoutData text :: rest => text +:+ stdout_of rest
  | _ :: rest => stdout_of rest
  end.

Fixpoint stderr_of (evs : list ChildEvent) : string :=
  match evs with
  | [] => ""
  | StderrData text :: rest => text +:+ stderr_of rest
  | _ :: rest => stderr_of rest
  end.

(** The notice printed when the timer fires. *)
Definition timeout_notice (display : string) : string :=
  nl +:+ nl +:+ "Claude Code timed out after " +:+ display
  +:+ ". Killing process...".

(** A text mentions the timeout. *)
Definition mentions_timeout (text : string) : bool :=
  let t := Js.toLowerCase text in
  (Js.includes "timed out" t || Js.includes "timeout" t
   || Js.includes "time out" t)%bool.

End Vocabulary.

(** * Further vocabulary *)

(** ** Texts *)

(** Every character of [s] satisfies [p]. *)
Fixpoint all_chars (p : ascii → bool) (s : string) : bool :=
  match s with
  | EmptyString => true
  | String c s' => (p c && all_chars p s')%bool
  end.

(** The characters [sanitizeForBranch] lets through. *)
Definition is_branch_char (c : ascii) : bool :=
  (Js.is_lower_alnum c || Ascii.eqb c "-")%bool.

(** A character that is special neither in a replacement text ([$]) nor
    in a pattern ([{]). *)
Definition is_plain_char (c : ascii) : bool :=
  (negb (Ascii.eqb c "$") && negb (Ascii.eqb c "{"))%bool.

(** Every double quote of [s] comes right after a backslash; [escaped]
    tells whether the character before [s] is a backslash. *)
Fixpoint quotes_escaped (escaped : bool) (s : string) : bool :=
  match s with
  | EmptyString => true
  | String c s' =>
      ((if Ascii.eqb c "034" then escaped else true)
       && quotes_escaped (Ascii.eqb c "092") s')%bool
  end.

(** How often the character [a] occurs in [s]. *)
Fixpoint count_char (a : ascii) (s : string) : nat :=
  match s with
  | EmptyString => O
  | String c s' => (if Ascii.eqb c a then 1 else 0) + count_char a s'
  end.

(** ** The output of [git status --porcelain] *)

(** One line of [git status --porcelain]: the status of the index, the
    status of the working tree, and the path. *)
Record StatusEntry := {
  in_index : ascii;
  in_tree : ascii;
  path : string }.

Definition porcelain_line (e : StatusEntry) : string :=
  String (in_index e) (String (in_tree e) (String " " (path e))).

(** The output of git for the entries [es]: one line each, ended by a
    line feed. *)
Fixpoint porcelain (es : list StatusEntry) : string :=
  match es with
  | [] => EmptyString
  | e :: rest => porcelain_line e +:+ nl +:+ porcelain rest
  end.

Definition is_lf (c : ascii) : bool := Ascii.eqb c "010".

(** A line git can print: no line feed inside, and a path that is not
    blank. *)
Definition printable (e : StatusEntry) : bool :=
  (all_chars (λ c, negb (is_lf c)) (porcelain_line e)
   && Js.has_nonspace (path e))%bool.

(** ** Waiting for a preview *)



(** ** The events of the agent *)

(** What the callback of a settling event resolves the promise with, from
    the output captured so far. *)
Definition settlement (out err : string) (ev : ChildEvent)
  : option ClaudeResult :=
  match ev with
  | CloseEvent exitCode => Some (close_result out err exitCode)
  | ErrorEvent message =>
      Some {| cr_success := false; cr_output := out;
              cr_error := Some message |}
  | _ => None
  end.

(** The child closes, or fails to start, before its time is up. *)
Fixpoint ends_in_time (evs : list ChildEvent) : bool :=
  match evs with
  | [] => true
  | ev :: rest =>
      if settles ev then true
      else if is_timeout ev then false
      else ends_in_time rest
  end.

Definition is_kill (e : Event) : bool :=
  match e with
  | EKill _ => true
  | _ => false
  end.

(** The timer fired and SIGTERM could not be delivered. *)
Definition sigterm_undelivered (ev : ChildEvent) : bool :=
  match ev with
  | TimeoutElapsed false => true
  | _ => false
  end.

(** ** The footprint of the Worker *)

(** An action that is neither a command nor a call to the tracker. *)
Definition quiet (e : Event) : bool :=
  match e with
  | EExec _ | EJira _ => false
  | _ => true
  end.

(** The first words of the commands the Worker runs. *)
Definition worker_command_heads : list string :=
  [ "git checkout "; "git checkout -b "; "git pull origin ";
    "git rev-parse --verify ";
    "git branch -D "; "git push origin --delete "; "git status --porcelain";
    "git log "; "git add "; "git commit -m "; "git push -u origin ";
    "gh pr create --base "; "gh pr view "; "gh api repos/" ].

Definition worker_command (c : string) : bool :=
  existsb (λ h, String.prefix h c) worker_command_heads.

(** A call to the tracker that follows the fetch of ticket [tkey]: a
    download of an attachment, or a comment on, or a transition of, that
    very ticket. *)
Definition follow_up (tkey : string) (call : JiraCall) : bool :=
  match call with
  | AddComment k _ | GetTransitions k | PostTransition k _ => String.eqb k tkey
  | DownloadAttachment _ _ => true
  | GetTicket _ | SearchTickets _ _ => false
  end.

(** A call to the tracker about ticket [tkey]. *)
Definition about_ticket (tkey : string) (call : JiraCall) : bool :=
  match call with
  | GetTicket k => String.eqb k tkey
  | _ => follow_up tkey call
  end.

(** ** Results *)

Section MoreVocabulary.
Context {W : Type} {host : Host W}.

(** [yields Q m]: whenever [m] returns, the value it returns satisfies
    [Q]. *)
Definition yields {A} (Q : A → Prop) (m : @M W A) : Prop :=
  ∀ s a s' evs, m s = (Ret a, s', evs) → Q a.

(** A preview URL as [processTicket] keeps it: absent, or a text that is
    not empty. *)
Definition preview_kept (p : option string) : Prop :=
  p = None ∨ truthy p = true.

(** The two shapes of a [WorkResult]: a success carries the pull request
    and the summary of the changes and no error; a failure carries an
    error and nothing else. *)
Definition result_shape (tkey : string) (r : WorkResult) : Prop :=
  ticketKey r = tkey
  ∧ if success r
    then is_Some (pr r) ∧ error r = None ∧ is_Some (changesSummary r)
         ∧ preview_kept (previewUrl r)
    else pr r = None ∧ previewUrl r = None ∧ is_Some (error r)
         ∧ changesSummary r = None.

End MoreVocabulary.

(** ** The loop of the Daemon *)

(** The ticket an action fetches from the tracker for the Worker. *)
Definition fetched (e : Event) : option string :=
  match e with
  | EJira (GetTicket k) => Some k
  | _ => None
  end.

(** The tickets the Worker was started on, in order. *)
Definition dispatched (evs : list Event) : list string := omap fetched evs.

Section DaemonVocabulary.
Context {W : Type} {host : Host W}.

(** [n] iterations of the loop of [Daemon.start], without the pauses
    between them. *)
Fixpoint poll_rounds (globalConfig : GlobalConfig)
    (projectConfig : ProjectConfig) (workingDir : string) (logger : Logger)
    (n : nat) : @M W unit :=
  match n with
  | O => skip
  | S k =>
      poll globalConfig projectConfig workingDir logger;;
      poll_rounds globalConfig projectConfig workingDir logger k
  end.

End DaemonVocabulary.

(** ** Comments *)


(** A node as a comment may hold it: its text is not empty, and a link
    points to the very text it shows, which starts like a URL. *)
Definition node_ok (n : AdfText) : Prop :=
  adf_text n ≠ ""
  ∧ ∀ h, adf_href n = Some h →
         h = adf_text n
         ∧ (String.prefix "http://" h || String.prefix "https://" h)%bool
           = true.

(** ** The milestones of a run *)

(** The actions of a run that move HEAD, publish work or write to the
    tracker. *)
Definition milestone (e : Event) : bool :=
  match e with
  | EExec _ => (is_checkout e || publishes e)%bool
  | EJira (AddComment _ _) | EJira (PostTransition _ _) => true
  | _ => false
  end.

(** The command of [createPullRequest]. *)
Definition pr_create_command (title body baseBranch : string) : string :=
  "gh pr create --base " +:+ baseBranch
  +:+ " --title " +:+ dquote +:+ escape_quotes title +:+ dquote
  +:+ " --body " +:+ dquote +:+ escape_quotes body +:+ dquote
  +:+ " --json number,url,title,state,headRefOid".

(** * Properties *)

(** ** Running computations *)

(** Closes the side conditions of the footprint lemmas. *)
Ltac side :=
  first [ solve [intros; exact I]
        | solve [intros e He c ->; now destruct (He c)]
        | idtac ].

(** Unfolds the plumbing of the monad and leaves the calls of methods and
    host primitives in place. *)
Ltac run_cbv :=
  cbv [mbind M_bind mret M_ret gets modify emit emits skip throw pending
       tryCatch lift_pure].

(** Reads the command of a goal about the mock host. *)
Ltac mock_parse :=
  cbn [execSync Mock.host]; unfold Mock.exec;
  match goal with
  | |- context [Mock.parse ?command] =>
      let c := eval vm_compute in (Mock.parse command) in
      change (Mock.parse command) with c
  end;
  cbn [Mock.run].

Section Running.
Context {W : Type} {host : Host W}.
Implicit Types (s : @Proc W) (evs : list Event).

Lemma run_ret {A} (a : A) s : (mret a : M A) s = (Ret a, s, []).
Proof. reflexivity. Qed.

Lemma run_bind_Ret {A B} (m : M A) (f : A → M B) s a s1 e1 :
  m s = (Ret a, s1, e1) →
  (m ≫= f) s = (let '(r, s2, e2) := f a s1 in (r, s2, e1 ++ e2)).
Proof. intros H. unfold mbind, M_bind. now rewrite H. Qed.

Lemma run_bind_Throw {A B} (m : M A) (f : A → M B) s e s1 e1 :
  m s = (Throw e, s1, e1) → (m ≫= f) s = (Throw e, s1, e1).
Proof. intros H. unfold mbind, M_bind. now rewrite H. Qed.

Lemma run_bind_Pending {A B} (m : M A) (f : A → M B) s s1 e1 :
  m s = (Pending, s1, e1) → (m ≫= f) s = (Pending, s1, e1).
Proof. intros H. unfold mbind, M_bind. now rewrite H. Qed.

Lemma run_tryCatch_Ret {A} (m : M A) h s a s1 e1 :
  m s = (Ret a, s1, e1) → tryCatch m h s = (Ret a, s1, e1).
Proof. intros H. unfold tryCatch. now rewrite H. Qed.

Lemma run_tryCatch_Throw {A} (m : M A) h s e s1 e1 :
  m s = (Throw e, s1, e1) →
  tryCatch m h s = (let '(r, s2, e2) := h e s1 in (r, s2, e1 ++ e2)).
Proof. intros H. unfold tryCatch. now rewrite H. Qed.

Lemma run_tryCatch_Pending {A} (m : M A) h s s1 e1 :
  m s = (Pending, s1, e1) → tryCatch m h s = (Pending, s1, e1).
Proof. intros H. unfold tryCatch. now rewrite H. Qed.

Lemma run_log lg m message s :
  log lg m message s = (Ret tt, s, logged lg m message).
Proof. unfold log, logged. now destruct (shouldLog _ _). Qed.

Lemma run_host_call {A} e (f : W → Res A * W) s r w :
  f (world s) = (r, w) → host_call e f s = (r, set_world w s, [e]).
Proof. intros H. unfold host_call. now rewrite H. Qed.

(** What a bind, or a [try], can have done to produce an outcome. *)
Lemma bind_inv {A B} (m : M A) (f : A → M B) s r s' evs :
  (m ≫= f) s = (r, s', evs) →
  (∃ a s1 e1 e2, m s = (Ret a, s1, e1) ∧ f a s1 = (r, s', e2)
                 ∧ evs = e1 ++ e2)
  ∨ (∃ e, m s = (Throw e, s', evs) ∧ r = Throw e)
  ∨ (m s = (Pending, s', evs) ∧ r = Pending).
Proof.
  unfold mbind, M_bind. destruct (m s) as [[[a|e|] s1] e1].
  - destruct (f a s1) as [[r2 s2] e2] eqn:E. intros [= <- <- <-].
    left. now exists a, s1, e1, e2.
  - intros [= <- <- <-]. right; left. now exists e.
  - intros [= <- <- <-]. now right; right.
Qed.

Lemma tryCatch_inv {A} (m : M A) (h : Exn → M A) s r s' evs :
  tryCatch m h s = (r, s', evs) →
  (∃ e s1 e1 e2, m s = (Throw e, s1, e1) ∧ h e s1 = (r, s', e2)
                 ∧ evs = e1 ++ e2)
  ∨ (m s = (r, s', evs) ∧ ∀ e, r ≠ Throw e).
Proof.
  unfold tryCatch. destruct (m s) as [[[a|e|] s1] e1].
  - intros [= <- <- <-]. now right.
  - destruct (h e s1) as [[r2 s2] e2] eqn:E. intros [= <- <- <-].
    left. now exists e, s1, e1, e2.
  - intros [= <- <- <-]. now right.
Qed.

Lemma bind_Ret_inv {A B} (m : M A) (f : A → M B) s (b : B) s' evs :
  (m ≫= f) s = (Ret b, s', evs) →
  ∃ a s1 e1 e2, m s = (Ret a, s1, e1) ∧ f a s1 = (Ret b, s', e2)
                ∧ evs = e1 ++ e2.
Proof.
  intros H. destruct (bind_inv _ _ _ _ _ _ H)
    as [? | [(e & _ & [=]) | (_ & [=])]]; assumption.
Qed.

Lemma exec_inv c s r s' evs :
  exec c s = (r, s', evs) →
  execSync c (world s) = (r, world s') ∧ s' = set_world (world s') s
  ∧ evs = [EExec c].
Proof.
  unfold exec, host_call. destruct (execSync c (world s)) as [r0 w].
  now intros [= <- <- <-].
Qed.

(** ** Invariants of a computation *)

Section Respects.
Variable R : @Proc W → @Proc W → Prop.
Variable P : Event → Prop.
Hypothesis R_refl : ∀ s, R s s.
Hypothesis R_trans : ∀ s1 s2 s3, R s1 s2 → R s2 s3 → R s1 s3.

Lemma respects_ret {A} (a : A) : respects R P (mret a).
Proof. intros s r s' evs [= <- <- <-]. auto. Qed.

Lemma respects_skip : respects R P skip.
Proof. apply respects_ret. Qed.

Lemma respects_throw {A} e : respects R P (@throw _ A e).
Proof. intros s r s' evs [= <- <- <-]. auto. Qed.

Lemma respects_pending {A} : respects R P (@pending _ A).
Proof. intros s r s' evs [= <- <- <-]. auto. Qed.

Lemma respects_gets {A} (f : @Proc W → A) : respects R P (gets f).
Proof. intros s r s' evs [= <- <- <-]. auto. Qed.

Lemma respects_emit e : P e → respects R P (emit e).
Proof. intros He s r s' evs [= <- <- <-]. auto. Qed.

Lemma respects_emits es : Forall P es → respects R P (emits es).
Proof. intros He s r s' evs [= <- <- <-]. auto. Qed.

Lemma respects_bind {A B} (m : M A) (f : A → M B) :
  respects R P m → (∀ a, respects R P (f a)) → respects R P (m ≫= f).
Proof.
  intros Hm Hf s r s' evs H.
  destruct (bind_inv _ _ _ _ _ _ H)
    as [(a & s1 & e1 & e2 & H1 & H2 & ->) | [(e & H1 & _) | (H1 & _)]].
  - destruct (Hm _ _ _ _ H1), (Hf _ _ _ _ _ H2).
    split; [eauto | now apply Forall_app].
  - exact (Hm _ _ _ _ H1).
  - exact (Hm _ _ _ _ H1).
Qed.

Lemma respects_tryCatch {A} (m : M A) (h : Exn → M A) :
  respects R P m → (∀ e, respects R P (h e)) → respects R P (tryCatch m h).
Proof.
  intros Hm Hh s r s' evs H.
  destruct (tryCatch_inv _ _ _ _ _ _ H)
    as [(e & s1 & e1 & e2 & H1 & H2 & ->) | (H1 & _)].
  - destruct (Hm _ _ _ _ H1), (Hh _ _ _ _ _ H2).
    split; [eauto | now apply Forall_app].
  - exact (Hm _ _ _ _ H1).
Qed.

Lemma respects_if {A} (b : bool) (m1 m2 : M A) :
  respects R P m1 → respects R P m2 → respects R P (if b then m1 else m2).
Proof. now destruct b. Qed.

Lemma respects_lift_pure {A} (x : Exn + A) : respects R P (lift_pure x).
Proof. destruct x; [apply respects_throw | apply respects_ret]. Qed.

(** From here on [P] restricts the commands run through [execSync] only:
    every other action is allowed. *)
Hypothesis P_other : ∀ e, (∀ c, e ≠ EExec c) → P e.

Lemma respects_log lg m message : respects R P (log lg m message).
Proof.
  unfold log. apply respects_if; [| apply respects_skip].
  apply respects_emit, P_other. discriminate.
Qed.

Lemma respects_sleep ms : respects R P (sleep ms).
Proof. apply respects_emit, P_other. discriminate. Qed.

(** A host primitive only replaces the [world]. *)
Hypothesis R_world : ∀ s w, R s (set_world w s).

Lemma respects_host_call {A} e (f : W → Res A * W) :
  P e → respects R P (host_call e f).
Proof.
  intros He s r s' evs. unfold host_call.
  destruct (f (world s)) as [r0 w]. intros [= <- <- <-]. auto.
Qed.

Lemma respects_exec c : P (EExec c) → respects R P (exec c).
Proof. apply respects_host_call. Qed.

Lemma respects_then {A B} (m : M A) (k : M B) :
  respects R P m → respects R P k → respects R P (m ≫= λ _, k).
Proof. intros Hm Hk. apply respects_bind; auto. Qed.

Lemma respects_exec_skip c : P (EExec c) → respects R P (exec c;; skip).
Proof.
  intros Hc. apply respects_then; [now apply respects_exec |].
  apply respects_skip.
Qed.

(** *** The methods of GitHubClient *)

Lemma respects_getBranchExists b :
  P (EExec ("git rev-parse --verify " +:+ b)) → respects R P (getBranchExists b).
Proof.
  intros Hc. apply respects_tryCatch; [| intros; apply respects_ret].
  apply respects_then; [now apply respects_exec | apply respects_ret].
Qed.

Lemma respects_createBranch name base :
  Forall (λ c, P (EExec c)) (createBranch_commands name base) →
  respects R P (createBranch name base).
Proof.
  unfold createBranch_commands. rewrite !Forall_cons.
  intros (H1 & H2 & H3 & H4 & H5 & H6 & _). unfold createBranch.
  apply respects_then; [now apply respects_exec |].
  apply respects_then; [now apply respects_exec |].
  apply respects_bind; [now apply respects_getBranchExists |].
  intros exists_. apply respects_then.
  { apply respects_if; [now apply respects_exec_skip | apply respects_skip]. }
  apply respects_then.
  { apply respects_tryCatch; [now apply respects_exec_skip |].
    intros; apply respects_skip. }
  now apply respects_exec_skip.
Qed.

Lemma respects_getStatus :
  P (EExec "git status --porcelain") → respects R P getStatus.
Proof.
  intros Hc. apply respects_bind; [now apply respects_exec |].
  intros; apply respects_ret.
Qed.

Lemma respects_hasNewCommits base :
  P (EExec ("git log " +:+ base +:+ "..HEAD --oneline")) →
  respects R P (hasNewCommits base).
Proof.
  intros Hc. apply respects_tryCatch; [| intros; apply respects_ret].
  apply respects_bind; [now apply respects_exec |].
  intros; apply respects_ret.
Qed.

Lemma respects_checkoutBranch b :
  P (EExec ("git checkout " +:+ b)) → respects R P (checkoutBranch b).
Proof. apply respects_exec_skip. Qed.

(** *** The agent *)

Lemma on_event_actions display r ev :
  Forall P (actions r) → Forall P (actions (on_event display r ev)).
Proof.
  intros Hr.
  destruct ev; cbn; repeat case_match; cbn; try assumption;
    apply Forall_app; split; try assumption;
    repeat constructor; apply P_other; discriminate.
Qed.

Lemma run_child_actions display (evs : list ChildEvent) :
  Forall P (actions (run_child display evs)).
Proof.
  unfold run_child.
  assert (H : Forall P (actions run_start)) by constructor.
  revert H. generalize run_start.
  induction evs as [|ev evs IH]; intros r Hr; cbn; [assumption |].
  apply IH. now apply on_event_actions.
Qed.

Lemma respects_runClaude pc prompt dir : respects R P (runClaude pc prompt dir).
Proof.
  unfold runClaude. apply respects_bind.
  { apply respects_host_call, P_other. discriminate. }
  intros evs. apply respects_then.
  { apply respects_emits, run_child_actions. }
  destruct (resolved _); [apply respects_ret | apply respects_pending].
Qed.

Lemma respects_workTicket pc ticket ticketUrl dir :
  respects R P (workTicket pc ticket ticketUrl dir).
Proof.
  unfold workTicket. apply respects_bind; [apply respects_lift_pure |].
  intros; apply respects_runClaude.
Qed.

(** *** The tracker *)

Lemma respects_getTicket k : respects R P (getTicket k).
Proof. apply respects_host_call, P_other. discriminate. Qed.

Lemma respects_download_each lg dir atts :
  respects R P (download_each lg dir atts).
Proof.
  induction atts as [|a atts IH]; cbn; [apply respects_skip |].
  apply respects_then; [apply respects_log |].
  apply respects_then; [| exact IH].
  apply respects_host_call, P_other. discriminate.
Qed.

Lemma respects_downloadAttachments dir lg ticket :
  respects R P (downloadAttachments dir lg ticket).
Proof.
  unfold downloadAttachments. apply respects_then.
  { apply respects_host_call, P_other. discriminate. }
  apply respects_download_each.
Qed.

End Respects.

End Running.

(** ** Pattern substitution (Worker.formatPattern, Worker.sanitizeForBranch) *)

(** C8.  For the branch pattern ["feature/{ticket_key}"] and a ticket whose
    key is ["PROJ-42"], [formatPattern] yields exactly ["feature/PROJ-42"],
    whatever the other fields of the ticket are; and the summary
    ["Fix Login Bug!!"] is sanitized to exactly ["fix-login-bug"], a text of
    lower-case letters, digits and single hyphens that neither starts nor ends
    with a hyphen. *)
Theorem pattern_substitution :
  (∀ ticket : JiraTicket,
     key ticket = "PROJ-42" →
     formatPattern "feature/{ticket_key}" ticket = "feature/PROJ-42")
  ∧ sanitizeForBranch "Fix Login Bug!!" = "fix-login-bug"
  ∧ Js.hyphenate_runs false (sanitizeForBranch "Fix Login Bug!!")
    = sanitizeForBranch "Fix Login Bug!!"
  ∧ Js.strip_edge_hyphens (sanitizeForBranch "Fix Login Bug!!")
    = sanitizeForBranch "Fix Login Bug!!".
Proof.
  split; [| repeat split; reflexivity].
  intros ticket Hkey. unfold formatPattern. rewrite Hkey. reflexivity.
Qed.

Lemma pattern_substitution_witness :
  key Mock.ticket42 = "PROJ-42"
  ∧ formatPattern "feature/{ticket_key}" Mock.ticket42 = "feature/PROJ-42".
Proof.
  split; [reflexivity |].
  apply (proj1 pattern_substitution Mock.ticket42). reflexivity.
Defined.

(** *** Sanitized text in general

    The sanitized text never starts with a hyphen.  The last replacement
    comes before the truncation to 50 characters, though, so a long text can
    be cut right after a hyphen. *)
Lemma hyphenate_runs_true_head s c t :
  Js.hyphenate_runs true s = String c t → c ≠ "-"%char.
Proof.
  induction s as [|a s IH]; simpl; [discriminate |].
  destruct (Js.is_lower_alnum a) eqn:E; [| exact IH].
  intros [= <- _] ->. discriminate E.
Qed.

Lemma hyphenate_runs_false_head s t :
  Js.hyphenate_runs false s = String "-" t → ∀ t', t ≠ String "-" t'.
Proof.
  destruct s as [|a s]; simpl; [discriminate |].
  destruct (Js.is_lower_alnum a) eqn:E.
  - intros [= -> _]. discriminate E.
  - intros [= <-] t' H. now apply hyphenate_runs_true_head in H.
Qed.

Lemma drop_last_head s c t :
  Js.drop_last s = String c t → ∃ t', s = String c t'.
Proof.
  destruct s as [|a [|b s]]; simpl; [discriminate.. |].
  intros [= -> _]. eauto.
Qed.

Lemma take_head n s c t :
  Js.take n s = String c t → ∃ t', s = String c t'.
Proof.
  unfold Js.take. destruct n, s; simpl; try discriminate.
  intros [= -> _]; eauto.
Qed.

Lemma strip_edge_hyphens_head s t :
  Js.strip_edge_hyphens s = String "-" t →
  ∃ u, s = String "-" (String "-" u).
Proof.
  unfold Js.strip_edge_hyphens. intros H.
  assert (H1 : ∃ t', match s with
                     | String "-" s' => s'
                     | _ => s
                     end = String "-" t').
  { destruct (Js.last_char _) as [a |]; [| eauto].
    destruct a as [[] [] [] [] [] [] [] []];
      first [apply drop_last_head in H; exact H | eauto]. }
  clear H. destruct H1 as [t' H].
  destruct s as [| a s]; [discriminate |].
  destruct a as [[] [] [] [] [] [] [] []];
    first [discriminate H | subst s; eauto].
Qed.

Lemma sanitizeForBranch_no_leading_hyphen text t :
  sanitizeForBranch text ≠ String "-" t.
Proof.
  unfold sanitizeForBranch. intros H.
  apply take_head in H as [t1 H].
  apply strip_edge_hyphens_head in H as [u H].
  exact (hyphenate_runs_false_head _ _ H u eq_refl).
Qed.

Example sanitizeForBranch_truncated :
  sanitizeForBranch
    "Upgrade the authentication middleware for the new session handling"
  = "upgrade-the-authentication-middleware-for-the-new-".
Proof. reflexivity. Qed.


(** ** Branch creation *)

Section BranchProperties.
Context {W : Type} {host : Host W}.
Implicit Types (s : @Proc W) (w : W).

Lemma getBranchExists_inv b s r s' evs :
  getBranchExists b s = (r, s', evs) →
  ∃ r0, execSync ("git rev-parse --verify " +:+ b) (world s) = (r0, world s')
        ∧ evs = [EExec ("git rev-parse --verify " +:+ b)]
        ∧ r = match r0 with
              | Ret _ => Ret true
              | Throw _ => Ret false
              | Pending => Pending
              end.
Proof.
  unfold getBranchExists. intros H.
  destruct (tryCatch_inv _ _ _ _ _ _ H)
    as [(e & s1 & e1 & e2 & H1 & [= <- <- <-] & ->) | (H1 & Hne)].
  - destruct (bind_inv _ _ _ _ _ _ H1)
      as [(a & s2 & e3 & e4 & H2 & [=] & _) | [(e' & H2 & [= <-]) | (H2 & [=])]].
    apply exec_inv in H2 as (H2 & _ & ->). exists (Throw e).
    now rewrite app_nil_r.
  - destruct (bind_inv _ _ _ _ _ _ H1)
      as [(a & s2 & e3 & e4 & H2 & [= <- <- <-] & ->)
         | [(e' & H2 & ->) | (H2 & ->)]].
    + apply exec_inv in H2 as (H2 & _ & ->). exists (Ret a).
      now rewrite app_nil_r.
    + now destruct (Hne e').
    + apply exec_inv in H2 as (H2 & _ & ->). now exists Pending.
Qed.

Section Laws.
Variables (cur : W → string) (tip : string → W → option string).
Variables (name base : string).
Hypothesis laws : GitLaws cur tip name base.

(** What one call of [createBranch] does, under the laws of git: when it
    returns, the branch is ready, a local branch that existed before was
    force-deleted and the deletion of the remote branch was attempted; when
    it throws, the exception has one of the four origins of
    [createBranch_failure]. *)
Lemma createBranch_spec s r s' evs :
  createBranch name base s = (r, s', evs) →
  (r = Ret tt →
     branch_ready cur tip name base (world s')
     ∧ (is_Some (tip name (world s)) →
        evs = EExec <$> createBranch_commands name base))
  ∧ (∀ e, r = Throw e → createBranch_failure tip name base e).
Proof.
  unfold createBranch. intros H.
  (* git checkout base *)
  destruct (bind_inv _ _ _ _ _ _ H)
    as [(o1 & s1 & e1 & ? & H1 & H' & ->) | [(e & H1 & ->) | (H1 & ->)]];
    clear H; apply exec_inv in H1 as (H1 & _ & ->);
    [| split; [discriminate | intros ? [= <-]; left; unfold thrown_by; eauto]
     | split; discriminate].
  destruct (law_checkout _ _ _ _ laws _ _ _ H1) as (C1 & T1 & F1).
  (* git pull origin base *)
  destruct (bind_inv _ _ _ _ _ _ H')
    as [(o2 & s2 & e2 & ? & H2 & H & ->) | [(e & H2 & ->) | (H2 & ->)]];
    clear H'; apply exec_inv in H2 as (H2 & _ & ->);
    [| split; [discriminate | intros ? [= <-]; right; left; unfold thrown_by; eauto]
     | split; discriminate].
  destruct (law_pull _ _ _ _ laws _ _ _ H2) as (C2 & T2 & F2).
  rewrite C1 in C2, T2, F2. specialize (T2 T1).
  (* git rev-parse --verify name *)
  destruct (bind_inv _ _ _ _ _ _ H)
    as [(found & s3 & e3 & ? & H3 & H' & ->) | [(e & H3 & ->) | (H3 & ->)]];
    clear H; apply getBranchExists_inv in H3 as (r3 & H3 & -> & Hr3);
    [| destruct r3; discriminate | split; discriminate].
  destruct (law_rev_parse _ _ _ _ laws _ _ _ H3) as (C3 & F3 & N3).
  (* git branch -D name, when the branch exists *)
  assert (Hdel :
    (r ≠ Ret tt ∧ ∀ e, r = Throw e → thrown_by ("git branch -D " +:+ name) e)
    ∨ ∃ s4 e4 rest,
        (tryCatch (exec ("git push origin --delete " +:+ name);; skip)
                  (λ _, skip);;
         exec ("git checkout -b " +:+ name);; skip) s4 = (r, s', rest)
        ∧ x = e4 ++ rest
        ∧ cur (world s4) = base ∧ tip name (world s4) = None ∧ name ≠ base
        ∧ tip base (world s4) = tip base (world s2)
        ∧ (is_Some (tip name (world s)) →
           e4 = [EExec ("git branch -D " +:+ name)])).
  { destruct (bind_inv _ _ _ _ _ _ H')
      as [([] & s4 & e4 & rest & H4 & H & ->) | [(e & H4 & ->) | (H4 & ->)]];
      clear H'.
    - right. exists s4, e4, rest. split; [exact H | split; [reflexivity |]].
      destruct found.
      + apply bind_Ret_inv in H4 as (o4 & s4' & e4' & ? & H4 & [= <- <-] & ->).
        apply exec_inv in H4 as (H4 & _ & ->).
        destruct (law_branch_D _ _ _ _ laws _ _ _ H4) as (C4 & N4 & T4 & F4).
        rewrite C3, C2 in C4, N4.
        assert (Hnb : name ≠ base) by congruence.
        repeat split; auto.
        rewrite F4 by congruence. apply F3.
      + injection H4 as <- <-.
        destruct r3 as [| e3 |]; try discriminate.
        assert (Hnone : tip name (world s2) = None) by eauto.
        assert (Hnb : name ≠ base).
        { intros ->. rewrite Hnone in T2. now destruct T2. }
        repeat split; auto.
        * now rewrite C3.
        * now rewrite F3.
        * intros Hsome.
          rewrite <- (F1 name Hnb), <- (F2 name Hnb), Hnone in Hsome.
          now destruct Hsome.
    - left. split; [discriminate |]. intros ? [= <-].
      destruct found; [| discriminate].
      destruct (bind_inv _ _ _ _ _ _ H4)
        as [(? & ? & ? & ? & _ & [=] & _) | [(e' & H5 & [= <-]) | (_ & [=])]].
      apply exec_inv in H5 as (H5 & _). unfold thrown_by; eauto.
    - left. split; discriminate. }
  destruct Hdel as [(Hne & Hthrow)
                   | (s4 & e4 & rest & H & -> & C4 & N4 & Hnb & T4 & Hdeleted)].
  { split; [intros ->; now destruct Hne |].
    intros e He. right; right; left. auto. }
  clear H'.
  (* git push origin --delete name, failure ignored *)
  destruct (bind_inv _ _ _ _ _ _ H)
    as [([] & s5 & e5 & ? & H5 & H' & ->) | [(e & H5 & ->) | (H5 & ->)]];
    clear H.
  2:{ destruct (tryCatch_inv _ _ _ _ _ _ H5)
        as [(? & ? & ? & ? & _ & [=] & _) | (_ & Hne)]. now destruct (Hne e). }
  2:{ split; discriminate. }
  assert (Hpush : ∃ r5, execSync ("git push origin --delete " +:+ name)
                          (world s4) = (r5, world s5)
                        ∧ e5 = [EExec ("git push origin --delete " +:+ name)]).
  { destruct (tryCatch_inv _ _ _ _ _ _ H5)
      as [(e & s5' & e5' & ? & H6 & [= <- <-] & ->) | (H6 & _)].
    - destruct (bind_inv _ _ _ _ _ _ H6)
        as [(? & ? & ? & ? & _ & [=] & _) | [(? & H7 & _) | (_ & [=])]].
      apply exec_inv in H7 as (H7 & _ & ->). eexists; split; [exact H7 |].
      apply app_nil_r.
    - apply bind_Ret_inv in H6 as (? & ? & ? & ? & H7 & [= <- <-] & ->).
      apply exec_inv in H7 as (H7 & _ & ->). eexists; split; [exact H7 |].
      apply app_nil_r. }
  destruct Hpush as (r5 & H5' & ->).
  destruct (law_push_delete _ _ _ _ laws _ _ _ H5') as (C5 & F5).
  (* git checkout -b name *)
  destruct (bind_inv _ _ _ _ _ _ H')
    as [(o6 & s6 & e6 & ? & H6 & [= <- <-] & ->) | [(e & H6 & ->) | (H6 & ->)]];
    clear H'; apply exec_inv in H6 as (H6 & _ & ->).
  - split; [intros _ | discriminate].
    destruct (law_checkout_b _ _ _ _ laws _ _ _ H6) as (C6 & T6 & F6).
    rewrite C5, C4 in T6. rewrite F5, T4 in T6. specialize (T6 T2).
    assert (Hbase : tip base (world s6) = tip base (world s2))
      by (rewrite F6 by congruence; rewrite F5; exact T4).
    split.
    + split; [exact C6 | split]; rewrite T6; [exact T2 | now rewrite Hbase].
    + intros Hsome. rewrite (Hdeleted Hsome).
      match goal with Hnil : [] = _ |- _ => rewrite <- Hnil end. reflexivity.
  - split; [discriminate |]. intros ? [= <-]. right; right; right.
    exists (world s5), (world s'). split; [| exact H6].
    now rewrite F5.
  - split; discriminate.
Qed.

(** C7.  Two calls of [createBranch] in a row with the same branch name and
    base branch: after the first the branch is ready (checked out, existing,
    at the commit of the updated base).  The second call, when it returns,
    has run exactly the six commands of [createBranch_commands], in that
    order: it force-deletes the local branch the first one left
    ([git branch -D]) and attempts the deletion of the remote one, whose
    failure is ignored, before it re-creates the branch; the branch is then
    ready again, in the same state as after the first call; and when it throws, the exception
    comes from the checkout of the base, the pull, the deletion, or a
    [git checkout -b] run while no local branch of that name exists: never
    from the branch existing already. *)
Theorem createBranch_idempotent :
  ∀ s0 s1 e1,
    createBranch name base s0 = (Ret tt, s1, e1) →
    branch_ready cur tip name base (world s1)
    ∧ ∀ r s2 e2,
        createBranch name base s1 = (r, s2, e2) →
        (r = Ret tt →
           branch_ready cur tip name base (world s2)
           ∧ e2 = EExec <$> createBranch_commands name base)
        ∧ (∀ e, r = Throw e → createBranch_failure tip name base e).
Proof.
  intros s0 s1 e1 H1.
  destruct (createBranch_spec _ _ _ _ H1) as [Hfirst _].
  destruct (Hfirst eq_refl) as (Hready & _). split; [exact Hready |].
  intros r s2 e2 H2.
  destruct (createBranch_spec _ _ _ _ H2) as [Hsecond Hthrow].
  split; [| exact Hthrow].
  intros Hr. destruct (Hsecond Hr) as (Hready2 & Hcommands).
  split; [exact Hready2 |].
  apply Hcommands. now destruct Hready as (_ & Hsome & _).
Qed.

End Laws.
End BranchProperties.

Lemma mock_git_laws :
  GitLaws Mock.currentBranch Mock.localTip "feature/PROJ-42" "develop".
Proof.
  unfold Mock.currentBranch, Mock.localTip.
  split; intros w r w'; mock_parse.
  - destruct (_ !! _) eqn:E; intros [= <- <-]. cbn. rewrite E. eauto.
  - intros [= <- <-]. auto.
  - destruct (_ !! _) eqn:E; intros [= <- <-];
      repeat split; auto. discriminate.
  - destruct (_ !! _) eqn:E; [| discriminate].
    destruct (String.eqb _ _) eqn:Eh; intros [= <- <-]. cbn.
    apply String.eqb_neq in Eh. repeat split; auto.
    + apply lookup_delete_eq.
    + intros b Hb. now apply lookup_delete_ne.
  - case_bool_decide; intros [= <- <-]; auto.
  - destruct (_ !! _) eqn:E; [discriminate |].
    intros [= <- <-]. cbn. repeat split.
    + intros [c Hc]. rewrite Hc. cbn. apply lookup_insert_eq.
    + intros b Hb. now apply lookup_insert_ne.
Qed.

Lemma createBranch_idempotent_witness :
  ∃ s1 e1 s2 e2,
    createBranch "feature/PROJ-42" "develop" (Mock.start Mock.idle)
    = (Ret tt, s1, e1)
    ∧ createBranch "feature/PROJ-42" "develop" s1 = (Ret tt, s2, e2)
    ∧ branch_ready Mock.currentBranch Mock.localTip "feature/PROJ-42"
        "develop" (world s2)
    ∧ e2 = EExec <$> createBranch_commands "feature/PROJ-42" "develop".
Proof.
  pose (o1 := createBranch "feature/PROJ-42" "develop" (Mock.start Mock.idle)).
  pose (o2 := createBranch "feature/PROJ-42" "develop" o1.1.2).
  assert (H1 : o1 = (Ret tt, o1.1.2, o1.2)) by (vm_compute; reflexivity).
  assert (H2 : o2 = (Ret tt, o2.1.2, o2.2)) by (vm_compute; reflexivity).
  destruct (createBranch_idempotent _ _ _ _ mock_git_laws _ _ _ H1)
    as (_ & Hsecond).
  destruct (Hsecond _ _ _ H2) as (Hret & _).
  destruct (Hret eq_refl) as (Hready & Hcommands).
  exists o1.1.2, o1.2, o2.1.2, o2.2. auto.
Defined.

(** ** The Poller *)

Section PollerProperties.
Context {W : Type} {host : Host W}.
Variables (projectConfig : ProjectConfig) (logger : Logger).
Implicit Types (s : @Proc W).

Local Abbreviation jql := (poll_jql projectConfig).
Local Abbreviation getNext := (getNextTicket projectConfig logger).

Lemma getNextTicket_run s response w :
  jiraSearchTickets jql 10 (world s) = (response, w) →
  getNext s = (poll_answer (processedTickets s) response, set_world w s,
               poll_events projectConfig logger response).
Proof.
  intros H. unfold getNextTicket, poll_events, searchTickets.
  run_cbv. rewrite run_log, (run_host_call _ _ _ _ _ H).
  destruct response as [tickets | e |]; cbn [poll_answer]; try reflexivity.
  - unfold first_available. cbn [processedTickets set_world].
    destruct (List.filter _ tickets); rewrite ?app_nil_r; reflexivity.
  - rewrite run_log, ?app_nil_r. reflexivity.
Qed.

Lemma first_available_fresh processed t :
  key t ∉ processed → first_available processed [t] = Some t.
Proof.
  intros H. unfold first_available. cbn.
  now rewrite bool_decide_eq_false_2.
Qed.

Lemma first_available_processed processed t :
  key t ∈ processed → first_available processed [t] = None.
Proof.
  intros H. unfold first_available. cbn.
  now rewrite bool_decide_eq_true_2.
Qed.

(** [Daemon.poll] when the Poller has nothing to hand out. *)
Lemma poll_no_ticket globalConfig workingDir s s1 e1 :
  getNext s = (Ret None, s1, e1) →
  poll globalConfig projectConfig workingDir logger s
  = (Ret tt, s1,
     logged logger m_info "Checking for tickets..." ++ e1
     ++ logged logger m_info "No tickets to process").
Proof.
  intros H. unfold poll. run_cbv. rewrite run_log, H, run_log.
  reflexivity.
Qed.

(** C6.  When the search of the tracker throws, [getNextTicket] does not
    propagate the exception: it returns "no ticket" ([null]), and
    [Daemon.poll] then returns normally with the fields of the Poller and of
    the Daemon untouched.  An empty batch gives the same: the same value
    from [getNextTicket] and the same outcome of [Daemon.poll], so the
    Daemon cannot tell a failed poll from an empty one. *)
Theorem poll_error_is_no_ticket :
  ∀ s e w,
    jiraSearchTickets jql 10 (world s) = (Throw e, w) →
    (∃ evs, getNext s = (Ret None, set_world w s, evs))
    ∧ (∀ globalConfig workingDir,
         (poll globalConfig projectConfig workingDir logger s).1
         = (Ret tt, set_world w s))
    ∧ (∀ s0 w0, jiraSearchTickets jql 10 (world s0) = (Ret [], w0) →
         (getNext s0).1.1 = (getNext s).1.1
         ∧ ∀ globalConfig workingDir,
             (poll globalConfig projectConfig workingDir logger s0).1
             = (Ret tt, set_world w0 s0)).
Proof.
  intros s e w H.
  pose proof (getNextTicket_run s _ _ H) as Hrun. cbn [poll_answer] in Hrun.
  split; [eauto | split].
  - intros globalConfig workingDir.
    now rewrite (poll_no_ticket _ _ _ _ _ Hrun).
  - intros s0 w0 H0.
    pose proof (getNextTicket_run s0 _ _ H0) as Hrun0.
    cbn [poll_answer] in Hrun0.
    change (first_available _ []) with (@None JiraTicket) in Hrun0.
    split; [now rewrite Hrun, Hrun0 |].
    intros globalConfig workingDir.
    now rewrite (poll_no_ticket _ _ _ _ _ Hrun0).
Qed.

(** C5.  With a tracker whose search always returns the same single ticket
    [t], and [t] not yet processed in this session, the calls
    [getNextTicket(); markProcessed(t.key); getNextTicket();
    clearProcessed(); getNextTicket()] yield [t], then no ticket, then [t]
    again. *)
Theorem poll_deduplication :
  ∀ (I : W → Prop) (t : JiraTicket) s,
    always_answers projectConfig (Ret [t]) I →
    I (world s) →
    key t ∉ processedTickets s →
    ∃ s' evs,
      dedup_session projectConfig logger (key t) s = (Ret (Some t, None, Some t), s', evs).
Proof.
  intros I t s Htracker Hs Hfresh.
  destruct (Htracker _ Hs) as (w1 & H1 & I1).
  destruct (Htracker _ I1) as (w2 & H2 & I2).
  destruct (Htracker _ I2) as (w3 & H3 & _).
  unfold dedup_session, markProcessed, clearProcessed. run_cbv.
  rewrite (getNextTicket_run s _ _ H1). cbn [poll_answer].
  rewrite (first_available_fresh _ _ Hfresh).
  cbn [world processedTickets set_world set_processedTickets].
  erewrite getNextTicket_run by exact H2. cbn [poll_answer].
  rewrite first_available_processed by set_solver.
  cbn [world processedTickets set_world set_processedTickets].
  erewrite getNextTicket_run by exact H3. cbn [poll_answer].
  rewrite first_available_fresh by set_solver.
  eauto.
Qed.

Lemma getNextTicket_frame s r s' evs :
  getNext s = (r, s', evs) →
  processedTickets s' = processedTickets s
  ∧ running s' = running s ∧ currentTicket s' = currentTicket s.
Proof.
  destruct (jiraSearchTickets jql 10 (world s)) as [response w] eqn:H.
  rewrite (getNextTicket_run s _ _ H). now intros [= <- <- <-].
Qed.

(** C10.  [getNextTicket] never changes the processed set; among the
    methods of the Poller only [markProcessed] adds a key and only
    [clearProcessed] removes keys.  Hence, while the tracker keeps giving
    the same answer, any number of [getNextTicket] calls in a row return
    the same ticket each time. *)
Theorem getNextTicket_keeps_processed :
  (∀ s r s' evs, getNext s = (r, s', evs) →
     processedTickets s' = processedTickets s)
  ∧ (∀ k s, processedTickets (markProcessed k s).1.2
            = {[k]} ∪ processedTickets s)
  ∧ (∀ s, processedTickets (clearProcessed s).1.2 = ∅)
  ∧ (∀ s, processedTickets (getProcessedCount s).1.2 = processedTickets s)
  ∧ (∀ (I : W → Prop) response answer s,
       always_answers projectConfig response I →
       I (world s) →
       poll_answer (processedTickets s) response = Ret answer →
       ∀ n, ∃ s' evs,
         poll_times projectConfig logger n s = (Ret (replicate n answer), s', evs)
         ∧ processedTickets s' = processedTickets s).
Proof.
  split; [| split; [| split; [| split]]]; try reflexivity.
  - intros s r s' evs H. now apply getNextTicket_frame in H.
  - intros I response answer s Htracker Hs Hanswer n. revert s Hs Hanswer.
    induction n as [|n IH]; intros s Hs Hanswer.
    + now exists s, [].
    + destruct (Htracker _ Hs) as (w1 & H1 & I1).
      pose proof (getNextTicket_run s _ _ H1) as Hrun.
      rewrite Hanswer in Hrun.
      destruct (IH (set_world w1 s) I1 Hanswer) as (s' & evs & Hrest & Hp).
      cbn [poll_times]. run_cbv. rewrite Hrun.
      unfold mbind, M_bind, mret, M_ret in Hrest. rewrite Hrest. eauto.
Qed.

End PollerProperties.

Lemma serves42_always :
  always_answers Mock.projectConfig (Ret [Mock.ticket42]) serves42.
Proof.
  intros w [Ht Hup]. exists w. split; [| now split].
  cbn. now rewrite Hup, Ht.
Qed.

Lemma poll_error_is_no_ticket_witness :
  ∃ evs, getNextTicket Mock.projectConfig Mock.logger (Mock.start offline)
         = (Ret None, Mock.start offline, evs).
Proof.
  exact (proj1 (poll_error_is_no_ticket Mock.projectConfig Mock.logger
                  (Mock.start offline) (JsError "Network Error") offline
                  eq_refl)).
Defined.

Lemma poll_deduplication_witness :
  ∃ s' evs,
    dedup_session Mock.projectConfig Mock.logger "PROJ-42"
      (Mock.start Mock.idle)
    = (Ret (Some Mock.ticket42, None, Some Mock.ticket42), s', evs).
Proof.
  apply (poll_deduplication Mock.projectConfig Mock.logger serves42
           Mock.ticket42 (Mock.start Mock.idle) serves42_always).
  - now split.
  - cbn. set_solver.
Defined.

Lemma getNextTicket_keeps_processed_witness :
  ∃ s' evs,
    poll_times Mock.projectConfig Mock.logger 3 (Mock.start Mock.idle)
    = (Ret [Some Mock.ticket42; Some Mock.ticket42; Some Mock.ticket42],
       s', evs)
    ∧ processedTickets s' = ∅.
Proof.
  apply (proj2 (proj2 (proj2 (proj2
           (getNextTicket_keeps_processed Mock.projectConfig Mock.logger))))
           serves42 (Ret [Mock.ticket42]) (Some Mock.ticket42)
           (Mock.start Mock.idle) serves42_always).
  - now split.
  - reflexivity.
Defined.

(** ** The Daemon *)

Section DaemonProperties.
Context {W : Type} {host : Host W}.
Variables (globalConfig : GlobalConfig) (projectConfig : ProjectConfig).
Variables (workingDir : string) (logger : Logger).
Implicit Types (s : @Proc W).

(** C4.  In an iteration of the Daemon loop that dispatches a ticket
    ([getNextTicket] handed one out), the Worker runs with [currentTicket]
    set to the ticket key; once its [processTicket] call returns, whatever
    the result (success or failure), [poll] returns with the ticket key in
    the processed set of the Poller and with [currentTicket] reset to
    empty. *)
Theorem poll_marks_processed :
  ∀ s ticket s1 e1 result s2 e2,
    getNextTicket projectConfig logger s = (Ret (Some ticket), s1, e1) →
    processTicket globalConfig projectConfig workingDir
      (child logger (key ticket)) (key ticket)
      (set_currentTicket (Some (key ticket)) s1)
    = (Ret result, s2, e2) →
    ∃ s3 evs,
      poll globalConfig projectConfig workingDir logger s = (Ret tt, s3, evs)
      ∧ key ticket ∈ processedTickets s3
      ∧ processedTickets s3 = {[key ticket]} ∪ processedTickets s2
      ∧ currentTicket s3 = None
      ∧ world s3 = world s2.
Proof.
  intros s ticket s1 e1 result s2 e2 Hnext Hwork.
  unfold poll, markProcessed. run_cbv.
  rewrite run_log, Hnext, run_log, Hwork.
  destruct (success result).
  - rewrite run_log.
    destruct (pr result); rewrite ?run_log;
      destruct (truthy (previewUrl result)); rewrite ?run_log;
      (do 2 eexists; split; [reflexivity |]; cbn; repeat split; set_solver).
  - rewrite !run_log.
    do 2 eexists; split; [reflexivity |]; cbn; repeat split; set_solver.
Qed.

End DaemonProperties.

Lemma poll_marks_processed_witness :
  ∃ s3 evs,
    poll Mock.globalConfig Mock.projectConfig "/repo" Mock.logger
      (Mock.start Mock.idle) = (Ret tt, s3, evs)
    ∧ "PROJ-42" ∈ processedTickets s3
    ∧ currentTicket s3 = None.
Proof.
  pose (polled := getNextTicket Mock.projectConfig Mock.logger
                    (Mock.start Mock.idle)).
  pose (worked := processTicket Mock.globalConfig Mock.projectConfig "/repo"
                    (child Mock.logger "PROJ-42") "PROJ-42"
                    (set_currentTicket (Some "PROJ-42") polled.1.2)).
  assert (H1 : polled = (Ret (Some Mock.ticket42), polled.1.2, polled.2))
    by (vm_compute; reflexivity).
  assert (H2 : worked = (Ret (noChanges "PROJ-42"), worked.1.2, worked.2))
    by (vm_compute; reflexivity).
  destruct (poll_marks_processed Mock.globalConfig Mock.projectConfig "/repo"
              Mock.logger (Mock.start Mock.idle) Mock.ticket42
              _ _ _ _ _ H1 H2)
    as (s3 & evs & Hpoll & Hin & _ & Hcur & _).
  exists s3, evs. auto.
Defined.

(** ** The Worker *)

Section WorkerProperties.
Context {W : Type} {host : Host W}.
Variables (globalConfig : GlobalConfig) (projectConfig : ProjectConfig).
Variables (workingDir : string) (logger : Logger).
Implicit Types (s : @Proc W).

Local Abbreviation base := (baseBranch projectConfig).
Local Abbreviation run_ticket :=
  (processTicket globalConfig projectConfig workingDir logger).
Local Abbreviation try_block :=
  (processTicket_try globalConfig projectConfig workingDir logger).

Lemma commands_in_app Q e1 e2 :
  commands_in Q e1 → commands_in Q e2 → commands_in Q (e1 ++ e2).
Proof. intros H1 H2. now apply Forall_app. Qed.

Lemma commands_in_logged Q lg m message :
  commands_in Q (logged lg m message).
Proof.
  unfold logged. destruct (shouldLog _ _); repeat constructor. discriminate.
Qed.

Lemma commands_in_nil Q : commands_in Q [].
Proof. constructor. Qed.

(** [respects] for a restriction on commands only. *)
Lemma respects_commands {A} (Q : string → Prop) (m : M A) s r s' evs :
  respects (λ _ _, True) (λ e, ∀ c, e = EExec c → Q c) m →
  m s = (r, s', evs) → commands_in Q evs.
Proof. intros Hm H. exact (proj2 (Hm _ _ _ _ H)). Qed.

Lemma commands_other (Q : string → Prop) e :
  (∀ c, e ≠ EExec c) → ∀ c, e = EExec c → Q c.
Proof. intros He c ->. now destruct (He c). Qed.

Lemma no_change_run_trace tkey s0 ticket s3 s4 s6 :
  no_change_run globalConfig projectConfig workingDir logger tkey s0 ticket s3 s4 s6 →
  ∃ before e3 s2 after,
    run_ticket tkey s0
    = (Ret (noChanges tkey), s6, before ++ e3 ++ after)
    ∧ createBranch (branchName projectConfig ticket) base s2 = (Ret tt, s3, e3)
    ∧ commands_in (λ _, False) before
    ∧ commands_in (λ c, c ∈ change_check_commands projectConfig) after.
Proof.
  intros [s1 e1 s2 e2 e3 cr e4 st s5 e5 e6 H1 H2 H3 H4 Hok H5 Hs Hu Ht H6].
  pose proof H2 as H2'. pose proof H3 as H3'.
  unfold attachmentsStep, branchName in H2, H3.
  unfold processTicket, processTicket_try. run_cbv.
  cbv [mbind M_bind mret M_ret gets modify emit emits skip throw pending
       tryCatch lift_pure] in H2.
  rewrite !run_log, H1; cbv beta iota zeta.
  rewrite H2; cbv beta iota zeta.
  rewrite !run_log, H3; cbv beta iota zeta.
  rewrite !run_log, H4; cbv beta iota zeta.
  rewrite !run_log, Hok.
  assert (Hlog : ∀ s, (if truthy (cr_error cr)
                       then log logger m_error
                              ("Claude error: " +:+ string_of_opt (cr_error cr))
                       else λ s, (Ret tt, s, [])) s
                      = (Ret tt, s, if truthy (cr_error cr)
                                    then logged logger m_error
                                           ("Claude error: "
                                            +:+ string_of_opt (cr_error cr))
                                    else [])).
  { intros s. destruct (truthy _); [apply run_log | reflexivity]. }
  rewrite Hlog; cbv beta iota zeta. cbn [negb].
  rewrite !run_log, H5; cbv beta iota zeta.
  rewrite H6, Hs, Hu, Ht; cbv beta iota zeta.
  rewrite !run_log; cbv beta iota zeta.
  rewrite (bool_decide_eq_true_2 _ eq_refl). cbn [negb orb andb].
  rewrite !run_log; cbv beta iota zeta.
  match goal with
  | |- ∃ _ _ _ _, (_, _, ?a ++ ?b ++ ?c ++ ?d ++ ?e ++ ?f ++ ?g) = _ ∧ _ =>
      exists (a ++ b ++ c ++ d ++ e), f, s2, g
  end.
  split; [| split; [exact H3' | split]].
  - now rewrite <- !app_assoc.
  - repeat apply commands_in_app; try apply commands_in_logged.
    + eapply respects_commands, H1.
      apply respects_getTicket; side.
    + eapply respects_commands, H2'. unfold attachmentsStep.
      destruct (attachments ticket).
      * apply respects_skip; side.
      * apply respects_downloadAttachments; side.
  - repeat apply commands_in_app;
      try apply commands_in_logged; try apply commands_in_nil.
    + eapply respects_commands, H4.
      apply respects_workTicket; side.
    + destruct (truthy _);
        [apply commands_in_logged | apply commands_in_nil].
    + eapply respects_commands, H5.
      apply respects_getStatus; side.
      intros c [= <-]. unfold change_check_commands. set_solver.
    + eapply respects_commands, H6.
      apply respects_hasNewCommits; side.
      intros c [= <-]. unfold change_check_commands. set_solver.
Qed.

(** A successful [createBranch] ends with a successful
    [git checkout -b]. *)
Lemma createBranch_Ret_inv name b s s' evs :
  createBranch name b s = (Ret tt, s', evs) →
  ∃ w out before,
    execSync ("git checkout -b " +:+ name) w = (Ret out, world s')
    ∧ evs = before ++ [EExec ("git checkout -b " +:+ name)].
Proof.
  unfold createBranch. intros H.
  apply bind_Ret_inv in H as (? & s1 & e1 & ? & _ & H & ->).
  apply bind_Ret_inv in H as (? & s2 & e2 & ? & _ & H & ->).
  apply bind_Ret_inv in H as (? & s3 & e3 & ? & _ & H & ->).
  apply bind_Ret_inv in H as (? & s4 & e4 & ? & _ & H & ->).
  apply bind_Ret_inv in H as (? & s5 & e5 & ? & _ & H & ->).
  apply bind_Ret_inv in H as (out & s6 & e6 & ? & H & Hskip & ->).
  injection Hskip as <- <-.
  apply exec_inv in H as (H & _ & ->).
  exists (world s5), out, (e1 ++ e2 ++ e3 ++ e4 ++ e5).
  split; [exact H |]. now rewrite <- !app_assoc.
Qed.

Lemma getStatus_inv s r s' evs :
  getStatus s = (r, s', evs) →
  ∃ r0, execSync "git status --porcelain" (world s) = (r0, world s').
Proof.
  unfold getStatus. intros H.
  destruct (bind_inv _ _ _ _ _ _ H)
    as [(a & s1 & e1 & e2 & H1 & [= <- <- <-] & ->) | [(e & H1 & _) | (H1 & _)]];
    apply exec_inv in H1 as (H1 & _); eauto.
Qed.

Lemma hasNewCommits_inv b s r s' evs :
  hasNewCommits b s = (r, s', evs) →
  ∃ r0, execSync ("git log " +:+ b +:+ "..HEAD --oneline") (world s)
        = (r0, world s').
Proof.
  unfold hasNewCommits. intros H.
  destruct (tryCatch_inv _ _ _ _ _ _ H)
    as [(e & s1 & e1 & e2 & H1 & [= <- <- <-] & ->) | (H1 & _)].
  - destruct (bind_inv _ _ _ _ _ _ H1)
      as [(a & s2 & e3 & e4 & H2 & [=] & _) | [(e' & H2 & _) | (H2 & [=])]].
    apply exec_inv in H2 as (H2 & _); eauto.
  - destruct (bind_inv _ _ _ _ _ _ H1)
      as [(a & s2 & e3 & e4 & H2 & [= <- <- <-] & ->)
         | [(e' & H2 & _) | (H2 & _)]];
      apply exec_inv in H2 as (H2 & _); eauto.
Qed.

Lemma commands_in_Forall (Q : string → Prop) (f : Event → bool) evs :
  commands_in Q evs →
  (∀ e, (∀ c, e ≠ EExec c) → f e = false) →
  (∀ c, Q c → f (EExec c) = false) →
  Forall (λ e, f e = false) evs.
Proof.
  intros H Hother Hcmd. eapply Forall_impl; [exact H |].
  intros e He. cbn in He. destruct e; try (apply Hother; discriminate).
  apply Hcmd, He. reflexivity.
Qed.

Lemma change_check_not_publish c :
  c ∈ change_check_commands projectConfig → publishes (EExec c) = false.
Proof.
  unfold change_check_commands.
  rewrite !elem_of_cons, elem_of_nil. intros [-> | [-> | []]]; reflexivity.
Qed.

Lemma change_check_not_checkout c :
  c ∈ change_check_commands projectConfig → is_checkout (EExec c) = false.
Proof.
  unfold change_check_commands.
  rewrite !elem_of_cons, elem_of_nil. intros [-> | [-> | []]]; reflexivity.
Qed.

Lemma createBranch_not_publish name b s r s' evs :
  createBranch name b s = (r, s', evs) →
  Forall (λ e, publishes e = false) evs.
Proof.
  intros H.
  assert (Hr : respects (λ _ _, True) (λ e, publishes e = false)
                 (createBranch name b)).
  { apply respects_createBranch; side.
    unfold createBranch_commands. repeat constructor. }
  exact (proj2 (Hr _ _ _ _ H)).
Qed.

(** C2.  When the agent run has succeeded and the change check finds no
    staged, unstaged or untracked file and no commit beyond the base branch,
    [processTicket] returns [success = false] with the error
    ["No changes were made"] and no pull request, and none of the commands
    it ran pushes the branch or creates a pull request: it runs no command
    before the branch creation, then the commands of [createBranch] (whose
    [git push origin --delete] removes a stale remote branch and publishes
    nothing), then only [git status --porcelain] and the [git log] of the
    change check. *)
Theorem no_changes_no_publish :
  ∀ tkey s0 ticket s3 s4 s6,
    no_change_run globalConfig projectConfig workingDir logger tkey s0 ticket s3 s4 s6 →
    ∃ result before created after,
      run_ticket tkey s0 = (Ret result, s6, before ++ created ++ after)
      ∧ success result = false
      ∧ ticketKey result = tkey
      ∧ error result = Some "No changes were made"
      ∧ pr result = None
      ∧ Forall (λ e, publishes e = false) (before ++ created ++ after)
      ∧ commands_in (λ _, False) before
      ∧ commands_in
          (λ c, c ∈ createBranch_commands (branchName projectConfig ticket)
                      base) created
      ∧ commands_in (λ c, c ∈ change_check_commands projectConfig) after.
Proof.
  intros tkey s0 ticket s3 s4 s6 Hrun.
  destruct (no_change_run_trace _ _ _ _ _ _ Hrun)
    as (before & e3 & s2 & after & Heq & Hbranch & Hbefore & Hafter).
  exists (noChanges tkey), before, e3, after.
  split; [exact Heq |]. do 4 (split; [reflexivity |]).
  split; [| split; [exact Hbefore | split; [| exact Hafter]]].
  - apply Forall_app; split; [| apply Forall_app; split].
    + eapply commands_in_Forall; [exact Hbefore | | contradiction].
      intros e He. destruct e; try reflexivity. now destruct (He command).
    + exact (createBranch_not_publish _ _ _ _ _ _ Hbranch).
    + eapply commands_in_Forall;
        [exact Hafter | | exact change_check_not_publish].
      intros e He. destruct e; try reflexivity. now destruct (He command).
  - eapply respects_commands, Hbranch.
    apply respects_createBranch; side.
    apply Forall_forall. intros c Hc c' [= <-]. exact Hc.
Qed.

(** C9.  On the "No changes were made" return, the last checkout
    [processTicket] ran is the [git checkout -b] that created the feature
    branch: nothing it does afterwards is a checkout, in particular none of
    the base branch.  For a git whose [checkout -b] puts HEAD on the new
    branch and whose [status] and [log] leave HEAD alone, HEAD was on the
    feature branch when the agent started, the Worker does not move it
    after the agent returned, and so the tree is left on the feature branch
    the agent was given. *)
Theorem no_changes_stays_on_branch :
  ∀ tkey s0 ticket s3 s4 s6,
    no_change_run globalConfig projectConfig workingDir logger tkey s0 ticket s3 s4 s6 →
    ∃ before after,
      run_ticket tkey s0
      = (Ret (noChanges tkey), s6,
         before ++ [EExec ("git checkout -b " +:+ branchName projectConfig ticket)]
         ++ after)
      ∧ Forall (λ e, is_checkout e = false) after
      ∧ ∀ cur : W → string,
          sets_head cur ("git checkout -b " +:+ branchName projectConfig ticket)
            (branchName projectConfig ticket) →
          keeps_head cur "git status --porcelain" →
          keeps_head cur ("git log " +:+ base +:+ "..HEAD --oneline") →
          cur (world s3) = branchName projectConfig ticket
          ∧ cur (world s6) = cur (world s4)
          ∧ (cur (world s4) = cur (world s3) →
             cur (world s6) = branchName projectConfig ticket).
Proof.
  intros tkey s0 ticket s3 s4 s6 Hrun.
  destruct (no_change_run_trace _ _ _ _ _ _ Hrun)
    as (before & e3 & s2 & after & Heq & Hbranch & Hbefore & Hafter).
  destruct (createBranch_Ret_inv _ _ _ _ _ Hbranch)
    as (w & out & e3' & Hlast & ->).
  exists (before ++ e3'), after. split; [| split].
  - rewrite Heq. now rewrite <- !app_assoc.
  - eapply commands_in_Forall;
      [exact Hafter | | exact change_check_not_checkout].
    intros e He. destruct e; try reflexivity. now destruct (He command).
  - intros cur Hb Hstatus Hlog.
    destruct Hrun as [s1 e1 s2' e2 e3 cr e4 st s5 e5 e6 _ _ _ _ _ H5 _ _ _ H6].
    destruct (getStatus_inv _ _ _ _ H5) as [r5 E5].
    destruct (hasNewCommits_inv _ _ _ _ _ H6) as [r6 E6].
    assert (H3 : cur (world s3) = branchName projectConfig ticket) by exact (Hb _ _ _ Hlast).
    assert (H64 : cur (world s6) = cur (world s4))
      by (rewrite (Hlog _ _ _ E6); exact (Hstatus _ _ _ E5)).
    split; [exact H3 | split; [exact H64 |]]. intros H43. congruence.
Qed.

Lemma processTicket_catch_run tkey err s :
  ∀ attempt w,
    execSync ("git checkout " +:+ base) (world s) = (attempt, w) →
    processTicket_catch projectConfig logger tkey err s
    = (recovered attempt (failure tkey (errorMessage err)),
       set_world w s,
       logged logger m_error ("Failed to process " +:+ tkey +:+ ": "
                              +:+ errorMessage err)
       ++ [EExec ("git checkout " +:+ base)]).
Proof.
  intros attempt w H. unfold processTicket_catch, checkoutBranch, exec.
  run_cbv. rewrite run_log, (run_host_call _ _ _ _ _ H).
  destruct attempt; reflexivity.
Qed.

(** C1, as amended.  No exception escapes [processTicket].  When a step of
    its [try] block throws, the exception is caught; the handler then
    attempts [git checkout <base branch>] as its last action and ignores a
    failure of that attempt; and [processTicket] returns a result with
    [success = false], the ticket key and the message of the exception.
    The tree is on the base branch when that checkout succeeded (for a git
    whose successful checkout puts HEAD on the branch); when it failed the
    tree stays where the failure left it. *)
Theorem failure_is_reported :
  (∀ tkey s r s' evs,
     run_ticket tkey s = (r, s', evs) → ∀ e, r ≠ Throw e)
  ∧ (∀ tkey s err s1 e1,
       try_block tkey s = (Throw err, s1, e1) →
       ∃ attempt w evs result,
         execSync ("git checkout " +:+ base) (world s1) = (attempt, w)
         ∧ run_ticket tkey s
           = (recovered attempt result, set_world w s1,
              evs ++ [EExec ("git checkout " +:+ base)])
         ∧ success result = false
         ∧ ticketKey result = tkey
         ∧ error result = Some (errorMessage err)
         ∧ ∀ cur : W → string,
             sets_head cur ("git checkout " +:+ base) base →
             (∃ out, attempt = Ret out) →
             cur w = base).
Proof.
  split.
  - intros tkey s r s' evs H e ->. unfold processTicket in H.
    destruct (bind_inv _ _ _ _ _ _ H)
      as [(a & s1 & e1 & e2 & _ & H2 & _) | [(e' & H1 & _) | (H1 & [=])]].
    + destruct (tryCatch_inv _ _ _ _ _ _ H2)
        as [(e' & s2 & e3 & e4 & _ & H3 & _) | (_ & Hne)].
      * destruct (execSync ("git checkout " +:+ base) (world s2))
          as [attempt w] eqn:E.
        rewrite (processTicket_catch_run _ _ _ _ _ E) in H3.
        now destruct attempt.
      * now apply (Hne e).
    + now rewrite run_log in H1.
  - intros tkey s err s1 e1 H.
    destruct (execSync ("git checkout " +:+ base) (world s1))
      as [attempt w] eqn:E.
    exists attempt, w. unfold processTicket. run_cbv.
    rewrite run_log, H, (processTicket_catch_run _ _ _ _ _ E).
    match goal with
    | |- ∃ _ _, _ ∧ (_, _, ?a ++ ?b ++ ?c ++ ?d) = _ ∧ _ =>
        exists (a ++ b ++ c), (failure tkey (errorMessage err))
    end.
    split; [reflexivity | split].
    + now rewrite <- !app_assoc.
    + do 3 (split; [reflexivity |]).
      intros cur Hlaw [out ->]. exact (Hlaw _ _ _ E).
Qed.
End WorkerProperties.

(** The run of PROJ-42 on the clean clone whose agent changes nothing. *)
Lemma idle_run :
  ∃ s3 s4 s6,
    no_change_run Mock.globalConfig Mock.projectConfig "/repo" Mock.logger
      "PROJ-42" (Mock.start Mock.idle) Mock.ticket42 s3 s4 s6
    ∧ Mock.currentBranch (world s4) = Mock.currentBranch (world s3).
Proof.
  pose (o1 := getTicket "PROJ-42" (Mock.start Mock.idle)).
  pose (o2 := attachmentsStep "/repo" Mock.logger Mock.ticket42 o1.1.2).
  pose (o3 := createBranch "feature/PROJ-42" "develop" o2.1.2).
  pose (o4 := workTicket Mock.projectConfig Mock.ticket42
                (getTicketUrl Mock.globalConfig "PROJ-42") "/repo" o3.1.2).
  pose (o5 := getStatus o4.1.2).
  pose (o6 := hasNewCommits "develop" o5.1.2).
  exists o3.1.2, o4.1.2, o6.1.2. split; [| vm_compute; reflexivity].
  apply (NoChangeRun _ _ _ _ _ _ _ _ _ _
           o1.1.2 o1.2 o2.1.2 o2.2 o3.2
           {| cr_success := true; cr_output := ""; cr_error := None |} o4.2
           {| staged := []; unstaged := []; untracked := [] |}
           o5.1.2 o5.2 o6.2);
    vm_compute; reflexivity.
Qed.

(** The mock repository obeys the three facts about HEAD. *)
Lemma mock_checkout_sets_head :
  sets_head Mock.currentBranch "git checkout develop" "develop".
Proof.
  intros w out w'. mock_parse.
  destruct (Mock.m_locals w !! "develop"); now intros [= <- <-].
Qed.

Lemma mock_checkout_b_sets_head :
  sets_head Mock.currentBranch "git checkout -b feature/PROJ-42"
    "feature/PROJ-42".
Proof.
  intros w out w'. mock_parse.
  destruct (Mock.m_locals w !! "feature/PROJ-42"); now intros [= <- <-].
Qed.

Lemma mock_status_keeps_head :
  keeps_head Mock.currentBranch "git status --porcelain".
Proof. intros w r w'. mock_parse. now intros [= <- <-]. Qed.

Lemma mock_log_keeps_head :
  keeps_head Mock.currentBranch "git log develop..HEAD --oneline".
Proof. intros w r w'. mock_parse. now intros [= <- <-]. Qed.

Lemma no_changes_no_publish_witness :
  ∃ s6 result evs,
    processTicket Mock.globalConfig Mock.projectConfig "/repo" Mock.logger
      "PROJ-42" (Mock.start Mock.idle) = (Ret result, s6, evs)
    ∧ success result = false
    ∧ error result = Some "No changes were made"
    ∧ Forall (λ e, publishes e = false) evs.
Proof.
  destruct idle_run as (s3 & s4 & s6 & Hrun & _).
  destruct (no_changes_no_publish _ _ _ _ _ _ _ _ _ _ Hrun)
    as (result & before & created & after & H1 & H2 & _ & H3 & _ & H4 & _).
  exists s6, result, (before ++ created ++ after). auto.
Defined.

Lemma no_changes_stays_on_branch_witness :
  ∃ s6 evs,
    processTicket Mock.globalConfig Mock.projectConfig "/repo" Mock.logger
      "PROJ-42" (Mock.start Mock.idle) = (Ret (noChanges "PROJ-42"), s6, evs)
    ∧ Mock.currentBranch (world s6) = "feature/PROJ-42".
Proof.
  destruct idle_run as (s3 & s4 & s6 & Hrun & Hagent).
  destruct (no_changes_stays_on_branch _ _ _ _ _ _ _ _ _ _ Hrun)
    as (before & after & Heq & _ & Hhead).
  destruct (Hhead Mock.currentBranch mock_checkout_b_sets_head
              mock_status_keeps_head mock_log_keeps_head) as (_ & _ & H6).
  eexists s6, _. split; [exact Heq | exact (H6 Hagent)].
Defined.

Lemma failure_is_reported_witness :
  ∃ result s' evs,
    processTicket Mock.globalConfig Mock.projectConfig "/repo" Mock.logger
      "PROJ-42" (Mock.start failing) = (Ret result, s', evs)
    ∧ success result = false
    ∧ ticketKey result = "PROJ-42"
    ∧ error result = Some "Claude Code failed: boom"
    ∧ Mock.currentBranch (world s') = "develop".
Proof.
  pose (o := processTicket_try Mock.globalConfig Mock.projectConfig "/repo"
               Mock.logger "PROJ-42" (Mock.start failing)).
  assert (H : o = (Throw (JsError "Claude Code failed: boom"), o.1.2, o.2))
    by (vm_compute; reflexivity).
  destruct (proj2 (failure_is_reported Mock.globalConfig Mock.projectConfig
                     "/repo" Mock.logger) _ _ _ _ _ H)
    as (attempt & w & evs & result & E & Hrun & Hs & Hk & He & Hcur).
  assert (Hok : ∃ out, attempt = Ret out).
  { vm_compute in E. injection E as <- _. now exists "". }
  destruct Hok as [out ->].
  eexists result, (set_world w o.1.2), _.
  split; [exact Hrun |]. do 3 (split; [assumption |]).
  apply (Hcur Mock.currentBranch mock_checkout_sets_head). now exists out.
Defined.

(** The claim read as "the tree ends on the base branch" fails where the
    recovery checkout fails as well: in a clone without the configured base
    branch, [createBranch] throws at its first command, the handler's
    checkout of [develop] throws again and is ignored, and the failure is
    returned with the tree still on [main]. *)
Lemma failure_may_leave_other_branch :
  ∃ err s1 e1 s' evs,
    processTicket_try Mock.globalConfig Mock.projectConfig "/repo"
      Mock.logger "PROJ-42" (Mock.start Mock.no_base) = (Throw err, s1, e1)
    ∧ last e1 = Some (EExec "git checkout develop")
    ∧ processTicket Mock.globalConfig Mock.projectConfig "/repo"
        Mock.logger "PROJ-42" (Mock.start Mock.no_base)
      = (Ret (failure "PROJ-42" (errorMessage err)), s', evs)
    ∧ Mock.currentBranch (world s') = "main"
    ∧ Mock.currentBranch (world s') ≠ workflow_pr_baseBranch Mock.projectConfig.
Proof.
  pose (o := processTicket_try Mock.globalConfig Mock.projectConfig "/repo"
               Mock.logger "PROJ-42" (Mock.start Mock.no_base)).
  pose (p := processTicket Mock.globalConfig Mock.projectConfig "/repo"
               Mock.logger "PROJ-42" (Mock.start Mock.no_base)).
  exists (JsError "Command failed: git checkout develop"), o.1.2, o.2,
         p.1.2, p.2.
  repeat split; try (vm_compute; reflexivity).
  vm_compute. discriminate.
Qed.

(** ** The agent *)

Section AgentProperties.

Lemma string_app_cons x (a b : string) :
  String x a +:+ b = String x (a +:+ b).
Proof. reflexivity. Qed.

Lemma string_app_assoc (a b c : string) : (a +:+ b) +:+ c = a +:+ b +:+ c.
Proof.
  induction a as [|x a IH]; [reflexivity |].
  now rewrite !string_app_cons, IH.
Qed.

Lemma string_app_nil_r (a : string) : a +:+ "" = a.
Proof.
  induction a as [|x a IH]; [reflexivity |].
  now rewrite string_app_cons, IH.
Qed.

Lemma stdout_of_app a b : stdout_of (a ++ b) = stdout_of a +:+ stdout_of b.
Proof.
  induction a as [|ev a IH]; cbn; [reflexivity |].
  destruct ev; cbn; try exact IH. now rewrite IH, string_app_assoc.
Qed.

Lemma stderr_of_app a b : stderr_of (a ++ b) = stderr_of a +:+ stderr_of b.
Proof.
  induction a as [|ev a IH]; cbn; [reflexivity |].
  destruct ev; cbn; try exact IH. now rewrite IH, string_app_assoc.
Qed.

(** While nothing settles the promise the callbacks only capture output
    and add actions. *)
Lemma on_event_unsettled display (r : Run) ev :
  settles ev = false →
  resolved (on_event display r ev) = resolved r
  ∧ stdout (on_event display r ev) = stdout r +:+ stdout_of [ev]
  ∧ stderr (on_event display r ev) = stderr r +:+ stderr_of [ev]
  ∧ (∃ more, actions (on_event display r ev) = actions r ++ more)
  ∧ (is_timeout ev = false →
     timeoutSet (on_event display r ev) = timeoutSet r).
Proof.
  destruct ev; try discriminate; intros _; cbn;
    repeat case_match; cbn; rewrite ?string_app_nil_r;
    repeat split; eauto; try discriminate;
    exists []; now rewrite app_nil_r.
Qed.

Lemma fold_unsettled display evs (r : Run) :
  forallb (λ ev, negb (settles ev)) evs = true →
  let r' := fold_left (on_event display) evs r in
  resolved r' = resolved r
  ∧ stdout r' = stdout r +:+ stdout_of evs
  ∧ stderr r' = stderr r +:+ stderr_of evs
  ∧ (∃ more, actions r' = actions r ++ more)
  ∧ (forallb (λ ev, negb (is_timeout ev)) evs = true →
     timeoutSet r' = timeoutSet r).
Proof.
  revert r. induction evs as [|ev evs IH]; intros r Hq; cbn [fold_left].
  - cbn. rewrite !string_app_nil_r. repeat split; auto.
    exists []. now rewrite app_nil_r.
  - cbn in Hq. apply andb_prop in Hq as [Hev Hq].
    apply negb_true_iff in Hev. cbv zeta.
    destruct (on_event_unsettled display r ev Hev)
      as (Hr1 & Ho1 & He1 & [m1 Ha1] & Ht1).
    destruct (IH (on_event display r ev) Hq)
      as (Hr & Ho & He & [m2 Ha2] & Ht).
    cbn in Hr, Ho, He, Ha2, Ht.
    change (ev :: evs) with ([ev] ++ evs).
    rewrite stdout_of_app, stderr_of_app, <- !string_app_assoc.
    rewrite Hr, Ho, He, Ha2, Hr1, Ho1, He1, Ha1.
    repeat split; auto.
    + exists (m1 ++ m2). now rewrite app_assoc.
    + intros Hnt. cbn in Hnt. apply andb_prop in Hnt as [Hn1 Hnt].
      apply negb_true_iff in Hn1. now rewrite (Ht Hnt), (Ht1 Hn1).
Qed.

Lemma on_event_resolved display (r : Run) ev x :
  resolved r = Some x →
  resolved (on_event display r ev) = Some x
  ∧ ∃ more, actions (on_event display r ev) = actions r ++ more.
Proof.
  intros Hx.
  destruct ev; cbn; repeat case_match; cbn; rewrite ?Hx; cbn;
    (split; [reflexivity || assumption |]); eauto;
    exists []; now rewrite app_nil_r.
Qed.

Lemma fold_resolved display evs (r : Run) x :
  resolved r = Some x →
  let r' := fold_left (on_event display) evs r in
  resolved r' = Some x ∧ ∃ more, actions r' = actions r ++ more.
Proof.
  revert r. induction evs as [|ev evs IH]; intros r Hx; cbn.
  - split; [exact Hx |]. exists []. now rewrite app_nil_r.
  - destruct (on_event_resolved display r ev x Hx) as (Hx' & [m1 Ha1]).
    destruct (IH _ Hx') as (Hr & [m2 Ha2]). cbn in Hr, Ha2.
    split; [exact Hr |]. exists (m1 ++ m2). now rewrite Ha2, Ha1, app_assoc.
Qed.

(** The callbacks over a child that runs into the timeout and closes
    later: the promise resolves with the ordinary result of the ['close']
    callback, and the notice and SIGTERM are among the actions. *)
Lemma run_child_timeout :
  ∀ display pre delivered mid exitCode rest,
    forallb running_event pre = true →
    forallb (λ ev, negb (settles ev)) mid = true →
    let r := run_child display
               (pre ++ TimeoutElapsed delivered
                    :: mid ++ CloseEvent exitCode :: rest) in
    resolved r
    = Some (close_result (stdout_of (pre ++ mid)) (stderr_of (pre ++ mid))
              exitCode)
    ∧ ∃ before after,
        actions r = before ++ EConsoleError (timeout_notice display)
                           :: EKill SIGTERM :: after.
Proof.
  intros display pre delivered mid exitCode rest Hpre Hmid r.
  assert (Hpre1 : forallb (λ ev, negb (settles ev)) pre = true).
  { rewrite forallb_forall in *. intros ev Hev.
    specialize (Hpre ev Hev). unfold running_event in Hpre.
    now apply andb_prop in Hpre as [? _]. }
  assert (Hpre2 : forallb (λ ev, negb (is_timeout ev)) pre = true).
  { rewrite forallb_forall in *. intros ev Hev.
    specialize (Hpre ev Hev). unfold running_event in Hpre.
    now apply andb_prop in Hpre as [_ ?]. }
  subst r. unfold run_child. rewrite fold_left_app. cbn [fold_left].
  destruct (fold_unsettled display pre run_start Hpre1)
    as (R1 & O1 & E1 & [m1 A1] & T1).
  cbn in R1, O1, E1, A1, T1. specialize (T1 Hpre2).
  set (r1 := fold_left (on_event display) pre run_start) in *.
  assert (Hfire : on_event display r1 (TimeoutElapsed delivered)
                  = {| stdout := stdout r1; stderr := stderr r1;
                       timeoutSet := false; graceSet := true;
                       killed := (killed r1 || delivered)%bool;
                       resolved := resolved r1;
                       actions := actions r1 ++
                         [EConsoleError (timeout_notice display);
                          EKill SIGTERM] |}).
  { cbn. now rewrite T1. }
  rewrite Hfire. set (r2 := {| stdout := stdout r1 |}).
  rewrite fold_left_app. cbn [fold_left].
  destruct (fold_unsettled display mid r2 Hmid)
    as (R2 & O2 & E2 & [m2 A2] & _).
  cbn in R2, O2, E2, A2.
  set (r3 := fold_left (on_event display) mid r2) in *.
  assert (Hclose : resolved (on_event display r3 (CloseEvent exitCode))
                   = Some (close_result (stdout_of (pre ++ mid))
                             (stderr_of (pre ++ mid)) exitCode)
                   ∧ actions (on_event display r3 (CloseEvent exitCode))
                     = actions r3).
  { cbn. rewrite R2, R1, O2, O1, E2, E1, stdout_of_app, stderr_of_app.
    unfold resolve. split; reflexivity. }
  destruct Hclose as (Hres & Hact).
  destruct (fold_resolved display rest _ _ Hres) as (Hfinal & [m3 A3]).
  cbv zeta in Hfinal, A3. split; [exact Hfinal |].
  rewrite A3, Hact, A2, A1. cbn.
  exists m1, (m2 ++ m3). now rewrite <- !app_assoc.
Qed.

End AgentProperties.

Section AgentRun.
Context {W : Type} {host : Host W}.
Implicit Types (s : @Proc W).

(** [runClaude] in terms of what the child does. *)
Lemma runClaude_run pc prompt dir s evs w :
  spawn "claude" (claude_args pc prompt) dir (world s) = (Ret evs, w) →
  let r := run_child (timeoutDisplay (timeoutMs pc)) evs in
  runClaude pc prompt dir s
  = (match resolved r with
     | Some result => Ret result
     | None => Pending
     end,
     set_world w s,
     ESpawn "claude" (claude_args pc prompt) dir :: actions r).
Proof.
  intros H r. unfold runClaude. run_cbv.
  rewrite (run_host_call _ _ _ _ _ H). fold r.
  destruct (resolved r); cbn; now rewrite app_nil_r.
Qed.

(** C3, as amended.  When the agent subprocess exceeds the configured
    timeout, a notice that it timed out is written to the console and the
    subprocess is sent SIGTERM.  [runClaude] returns when the subprocess
    then closes, with the ordinary result of a close: unless the exit code
    is 0, [success = false] with the captured standard error as error, or
    ["Claude exited with code <code>"] when nothing was captured.  The
    timeout itself is not recorded in the result. *)
Theorem timeout_outcome :
  ∀ pc prompt dir s w pre delivered mid exitCode rest,
    spawn "claude" (claude_args pc prompt) dir (world s)
    = (Ret (pre ++ TimeoutElapsed delivered
                :: mid ++ CloseEvent exitCode :: rest), w) →
    forallb running_event pre = true →
    forallb (λ ev, negb (settles ev)) mid = true →
    ∃ result evs,
      runClaude pc prompt dir s = (Ret result, set_world w s, evs)
      ∧ result = close_result (stdout_of (pre ++ mid))
                   (stderr_of (pre ++ mid)) exitCode
      ∧ (exitCode ≠ Some 0 →
         cr_success result = false
         ∧ cr_error result
           = Some (match stderr_of (pre ++ mid) with
                   | EmptyString => exit_text exitCode
                   | e => e
                   end))
      ∧ ∃ before after,
          evs = before
                ++ EConsoleError (timeout_notice (timeoutDisplay (timeoutMs pc)))
                :: EKill SIGTERM :: after.
Proof.
  intros pc prompt dir s w pre delivered mid exitCode rest Hspawn Hpre Hmid.
  pose proof (runClaude_run _ _ _ _ _ _ Hspawn) as Hrun. cbv zeta in Hrun.
  destruct (run_child_timeout (timeoutDisplay (timeoutMs pc)) pre delivered
              mid exitCode rest Hpre Hmid) as (Hres & before & after & Hact).
  rewrite Hres, Hact in Hrun.
  eexists _, _. split; [exact Hrun |]. split; [reflexivity | split].
  - intros Hcode. unfold close_result.
    rewrite bool_decide_eq_false_2 by exact Hcode.
    split; [reflexivity |]. cbn. now destruct (stderr_of (pre ++ mid)).
  - exists (ESpawn "claude" (claude_args pc prompt) dir :: before), after.
    reflexivity.
Qed.

End AgentRun.

Lemma timeout_outcome_witness :
  ∃ result evs,
    runClaude Mock.projectConfig "Work on JIRA ticket PROJ-42" "/repo"
      (Mock.start overdue_loud)
    = (Ret result, set_world (Mock.with_tree "" "" overdue_loud)
                     (Mock.start overdue_loud), evs)
    ∧ result = {| cr_success := false; cr_output := "thinking";
                  cr_error := Some "Terminated" |}
    ∧ EKill SIGTERM ∈ evs.
Proof.
  assert (Hspawn :
    spawn "claude"
      (claude_args Mock.projectConfig "Work on JIRA ticket PROJ-42") "/repo"
      (world (Mock.start overdue_loud))
    = (Ret ([StdoutData "thinking"] ++ TimeoutElapsed true
            :: [StderrData "Terminated"] ++ CloseEvent None
            :: [GraceElapsed false]),
       Mock.with_tree "" "" overdue_loud)) by (vm_compute; reflexivity).
  destruct (timeout_outcome Mock.projectConfig "Work on JIRA ticket PROJ-42"
              "/repo" (Mock.start overdue_loud)
              (Mock.with_tree "" "" overdue_loud)
              [StdoutData "thinking"] true [StderrData "Terminated"] None
              [GraceElapsed false]
              Hspawn eq_refl eq_refl)
    as (result & evs & Hrun & Hres & _ & before & after & Hevs).
  exists result, evs. split; [exact Hrun |]. split; [exact Hres |].
  rewrite Hevs, elem_of_app, !elem_of_cons. auto.
Defined.

(** The claim fails where the agent dies of the SIGTERM without writing to
    its standard error: the timeout fired and SIGTERM was sent, yet the
    error of the result, ["Claude exited with code null"], does not mention
    the timeout; nor does the error [processTicket] makes of it. *)
Lemma timeout_not_in_result :
  ∃ result s' evs,
    runClaude Mock.projectConfig "Work on JIRA ticket PROJ-42" "/repo"
      (Mock.start overdue) = (Ret result, s', evs)
    ∧ skipn 1 evs = [EStdout "thinking";
                     EConsoleError (timeout_notice "30 minutes");
                     EKill SIGTERM]
    ∧ cr_success result = false
    ∧ cr_error result = Some "Claude exited with code null"
    ∧ mentions_timeout (string_of_opt (cr_error result)) = false
    ∧ ∃ outcome s'' evs',
        processTicket Mock.globalConfig Mock.projectConfig "/repo"
          Mock.logger "PROJ-42" (Mock.start overdue)
        = (Ret outcome, s'', evs')
        ∧ error outcome
          = Some "Claude Code failed: Claude exited with code null"
        ∧ mentions_timeout (string_of_opt (error outcome)) = false.
Proof.
  pose (o := runClaude Mock.projectConfig "Work on JIRA ticket PROJ-42"
               "/repo" (Mock.start overdue)).
  pose (p := processTicket Mock.globalConfig Mock.projectConfig "/repo"
               Mock.logger "PROJ-42" (Mock.start overdue)).
  exists {| cr_success := false; cr_output := "thinking";
            cr_error := Some "Claude exited with code null" |}, o.1.2, o.2.
  do 5 (split; [vm_compute; reflexivity |]).
  exists (failure "PROJ-42"
            "Claude Code failed: Claude exited with code null"), p.1.2, p.2.
  split; [| split]; vm_compute; reflexivity.
Qed.

(** The force kill after the grace period is guarded by
    [!childProcess.killed], and [killed] records that a signal was
    delivered, not that the child is gone: once SIGTERM was delivered no
    SIGKILL follows, and a child that ignores SIGTERM leaves the promise
    pending; SIGKILL is sent only when the delivery of SIGTERM failed. *)
Lemma grace_kill_skipped :
  let r := run_child "30 minutes" [TimeoutElapsed true; GraceElapsed true] in
  actions r = [EConsoleError (timeout_notice "30 minutes"); EKill SIGTERM]
  ∧ resolved r = None.
Proof. split; reflexivity. Qed.

Lemma grace_kill_sent :
  actions (run_child "30 minutes" [TimeoutElapsed false; GraceElapsed true])
  = [EConsoleError (timeout_notice "30 minutes"); EKill SIGTERM;
     EKill SIGKILL].
Proof. reflexivity. Qed.

(** * Further properties of the code *)

(** ** Branch names and patterns *)

Lemma js_take_length n s : (String.length (Js.take n s) <= n)%nat.
Proof.
  unfold Js.take. revert s. induction n as [|n IH]; intros [|c s]; simpl; try lia.
  specialize (IH s). lia.
Qed.

Lemma all_chars_take p n s : all_chars p s = true → all_chars p (Js.take n s) = true.
Proof.
  unfold Js.take. revert s. induction n as [|n IH]; intros [|c s]; simpl; auto.
  intros H. apply andb_prop in H as [-> H]. simpl. auto.
Qed.

Lemma all_chars_drop_last p s : all_chars p s = true → all_chars p (Js.drop_last s) = true.
Proof.
  induction s as [|c s IH]; [auto |]. intros H. simpl in H.
  apply andb_prop in H as [Hc H]. destruct s as [|d s]; [reflexivity |].
  change (Js.drop_last (String c (String d s))) with (String c (Js.drop_last (String d s))).
  simpl. rewrite Hc. simpl. auto.
Qed.

Lemma all_chars_strip p s :
  all_chars p s = true → all_chars p (Js.strip_edge_hyphens s) = true.
Proof.
  intros H. unfold Js.strip_edge_hyphens.
  assert (H1 : all_chars p (match s with String "-" s' => s' | _ => s end) = true).
  { destruct s as [|a s]; [exact H |]. simpl in H. apply andb_prop in H as [Ha Hs].
    destruct a as [[] [] [] [] [] [] [] []]; simpl; rewrite ?Ha; auto. }
  revert H1. generalize (match s with String "-" s' => s' | _ => s end). intros s1 H1.
  destruct (Js.last_char s1) as [a|]; [| exact H1].
  destruct a as [[] [] [] [] [] [] [] []]; auto using all_chars_drop_last.
Qed.

Lemma all_chars_hyphenate b s :
  all_chars is_branch_char (Js.hyphenate_runs b s) = true.
Proof.
  revert b. induction s as [|c s IH]; intros b; simpl; [reflexivity |].
  destruct (Js.is_lower_alnum c) eqn:E.
  - simpl. unfold is_branch_char at 1. rewrite E. simpl. apply IH.
  - destruct b; [apply IH |]. simpl. apply IH.
Qed.

Lemma includes_cons needle c s :
  Js.includes needle (String c s)
  = (String.prefix needle (String c s) || Js.includes needle s)%bool.
Proof. reflexivity. Qed.

Lemma includes_nil needle : Js.includes needle "" = String.prefix needle "".
Proof. simpl. now rewrite orb_false_r. Qed.

Lemma string_prefix_nil s : String.prefix "" s = true.
Proof. now destruct s. Qed.

Lemma string_prefix_cons a p c t :
  String.prefix (String a p) (String c t)
  = if ascii_dec a c then String.prefix p t else false.
Proof. reflexivity. Qed.

Lemma string_prefix_take p n s :
  String.prefix p (Js.take n s) = true → String.prefix p s = true.
Proof.
  unfold Js.take. revert n s.
  induction p as [|a p IH]; intros n s; [intros _; apply string_prefix_nil |].
  destruct n as [|n], s as [|c s]; simpl; try discriminate.
  destruct (ascii_dec a c); [apply IH | discriminate].
Qed.

Lemma includes_take p n s :
  Js.includes p s = false → Js.includes p (Js.take n s) = false.
Proof.
  revert n. induction s as [|c s IH]; intros n H.
  - destruct n; exact H.
  - rewrite includes_cons in H. apply orb_false_elim in H as [Hp Hs].
    destruct n as [|n].
    + destruct p; [discriminate Hp | reflexivity].
    + change (Js.take (S n) (String c s)) with (String c (Js.take n s)).
      rewrite includes_cons, (IH n Hs), orb_false_r.
      destruct (String.prefix p (String c (Js.take n s))) eqn:E; [| reflexivity].
      apply (string_prefix_take p (S n) (String c s)) in E. congruence.
Qed.

Lemma string_prefix_drop_last p s :
  String.prefix p (Js.drop_last s) = true → String.prefix p s = true.
Proof.
  revert s. induction p as [|a p IH]; intros s; [intros _; apply string_prefix_nil |].
  destruct s as [|c [|d s]]; try discriminate.
  change (Js.drop_last (String c (String d s)))
    with (String c (Js.drop_last (String d s))).
  rewrite !string_prefix_cons. destruct (ascii_dec a c); [apply IH | discriminate].
Qed.

Lemma includes_drop_last p s :
  Js.includes p s = false → Js.includes p (Js.drop_last s) = false.
Proof.
  induction s as [|c s IH]; intros H; [exact H |].
  rewrite includes_cons in H. apply orb_false_elim in H as [Hp Hs].
  destruct s as [|d s].
  - destruct p; [discriminate Hp | reflexivity].
  - change (Js.drop_last (String c (String d s)))
      with (String c (Js.drop_last (String d s))).
    rewrite includes_cons, (IH Hs), orb_false_r.
    destruct (String.prefix p (String c (Js.drop_last (String d s)))) eqn:E;
      [| reflexivity].
    apply (string_prefix_drop_last p (String c (String d s))) in E. congruence.
Qed.

Lemma includes_tail p c s :
  Js.includes p (String c s) = false → Js.includes p s = false.
Proof. rewrite includes_cons. intros H. now apply orb_false_elim in H. Qed.

Lemma includes_strip p s :
  Js.includes p s = false → Js.includes p (Js.strip_edge_hyphens s) = false.
Proof.
  intros H. unfold Js.strip_edge_hyphens.
  assert (H1 : Js.includes p (match s with String "-" s' => s' | _ => s end)
               = false).
  { destruct s as [|a s]; [exact H |].
    destruct a as [[] [] [] [] [] [] [] []];
      first [exact H | exact (includes_tail _ _ _ H)]. }
  revert H1. generalize (match s with String "-" s' => s' | _ => s end).
  intros s1 H1.
  destruct (Js.last_char s1) as [a|]; [| exact H1].
  destruct a as [[] [] [] [] [] [] [] []]; auto using includes_drop_last.
Qed.

Lemma hyphenate_no_double b s :
  Js.includes "--" (Js.hyphenate_runs b s) = false.
Proof.
  revert b. induction s as [|c s IH]; intros b; [reflexivity |].
  cbn [Js.hyphenate_runs]. destruct (Js.is_lower_alnum c) eqn:E.
  - rewrite includes_cons, IH, orb_false_r, string_prefix_cons.
    destruct (ascii_dec "-" c) as [<- |]; [discriminate E | reflexivity].
  - destruct b; [apply IH |].
    rewrite includes_cons, IH, orb_false_r, string_prefix_cons.
    destruct (ascii_dec "-" "-"); [| reflexivity].
    destruct (Js.hyphenate_runs true s) as [|d t] eqn:Ed; [reflexivity |].
    rewrite string_prefix_cons.
    destruct (ascii_dec "-" d) as [<- |]; [| reflexivity].
    now destruct (hyphenate_runs_true_head _ _ _ Ed).
Qed.

Lemma sanitizeForBranch_chars text :
  all_chars is_branch_char (sanitizeForBranch text) = true.
Proof.
  unfold sanitizeForBranch.
  apply all_chars_take, all_chars_strip, all_chars_hyphenate.
Qed.

(** X1.  Whatever the text, [sanitizeForBranch] returns at most 50
    characters, all of them lower-case letters, digits or hyphens, with no
    two hyphens in a row and no hyphen in front.  (A hyphen at the end is
    possible: the cut to 50 characters comes after the edge hyphens are
    stripped, see [sanitizeForBranch_truncated].) *)
Theorem sanitizeForBranch_shape :
  ∀ text,
    (String.length (sanitizeForBranch text) ≤ 50)%nat
    ∧ all_chars is_branch_char (sanitizeForBranch text) = true
    ∧ Js.includes "--" (sanitizeForBranch text) = false
    ∧ ∀ t, sanitizeForBranch text ≠ String "-" t.
Proof.
  intros text. unfold sanitizeForBranch. split; [apply js_take_length |].
  split; [| split].
  - apply sanitizeForBranch_chars.
  - apply includes_take, includes_strip, hyphenate_no_double.
  - intros t. apply sanitizeForBranch_no_leading_hyphen.
Qed.

Lemma all_chars_impl (p q : ascii → bool) s :
  (∀ c, p c = true → q c = true) →
  all_chars p s = true → all_chars q s = true.
Proof.
  intros Hpq. induction s as [|c s IH]; [auto |]. simpl. intros H.
  apply andb_prop in H as [Hc Hs]. now rewrite (Hpq _ Hc), IH.
Qed.

Lemma all_chars_app p a b :
  all_chars p (a +:+ b) = (all_chars p a && all_chars p b)%bool.
Proof.
  induction a as [|c a IH]; [reflexivity |].
  rewrite string_app_cons. simpl. now rewrite IH, andb_assoc.
Qed.

Lemma expand_replacement_plain repl before matched after :
  all_chars (λ c, negb (Ascii.eqb c "$")) repl = true →
  Js.expand_replacement repl before matched after = repl.
Proof.
  induction repl as [|c r IH]; [reflexivity |]. simpl. intros H.
  apply andb_prop in H as [Hc Hr]. specialize (IH Hr).
  destruct c as [[] [] [] [] [] [] [] []]; try discriminate Hc;
    now rewrite IH.
Qed.

(** A text in which the first character of the pattern does not occur is
    scanned through unchanged. *)
Lemma replace_scan_through a pat repl before s rest :
  all_chars (λ c, negb (Ascii.eqb c a)) s = true →
  Js.replace_scan (String a pat) repl 0 before (s +:+ rest)
  = s +:+ Js.replace_scan (String a pat) repl 0 (before +:+ s) rest.
Proof.
  revert before. induction s as [|c s IH]; intros before H.
  - now rewrite string_app_nil_r.
  - simpl in H. apply andb_prop in H as [Hc Hs].
    rewrite !string_app_cons. cbn [Js.replace_scan]. rewrite string_prefix_cons.
    destruct (ascii_dec a c) as [-> |].
    { now rewrite Ascii.eqb_refl in Hc. }
    rewrite (IH _ Hs), string_app_assoc. reflexivity.
Qed.

Lemma replaceAll_absent a pat repl s :
  all_chars (λ c, negb (Ascii.eqb c a)) s = true →
  Js.replaceAll (String a pat) repl s = s.
Proof.
  intros H. unfold Js.replaceAll.
  rewrite <- (string_app_nil_r s) at 1.
  rewrite (replace_scan_through _ _ _ _ _ _ H). cbn [Js.replace_scan].
  apply string_app_nil_r.
Qed.

Lemma is_branch_char_plain c : is_branch_char c = true → is_plain_char c = true.
Proof.
  unfold is_branch_char, is_plain_char.
  destruct c as [[] [] [] [] [] [] [] []]; now vm_compute.
Qed.

Lemma plain_no_dollar s :
  all_chars is_plain_char s = true →
  all_chars (λ c, negb (Ascii.eqb c "$")) s = true.
Proof.
  apply all_chars_impl. intros c H. unfold is_plain_char in H.
  now apply andb_prop in H as [-> _].
Qed.

Lemma plain_no_brace s :
  all_chars is_plain_char s = true →
  all_chars (λ c, negb (Ascii.eqb c "{")) s = true.
Proof.
  apply all_chars_impl. intros c H. unfold is_plain_char in H.
  now apply andb_prop in H as [_ ->].
Qed.

(** X2.  The patterns of the default configuration.  For a ticket whose
    key contains neither [$] nor [{], the branch pattern
    [feature/{ticket_key}] gives ["feature/" + key] and the commit and
    title pattern [{ticket_key}: {summary}] gives the key, [": "] and the
    sanitised summary: the summary put in by the second replacement is
    never read as a pattern again. *)
Theorem formatPattern_defaults :
  ∀ ticket,
    all_chars is_plain_char (key ticket) = true →
    formatPattern "feature/{ticket_key}" ticket = "feature/" +:+ key ticket
    ∧ formatPattern "{ticket_key}: {summary}" ticket
      = key ticket +:+ ": " +:+ sanitizeForBranch (summary ticket).
Proof.
  intros ticket Hkey.
  pose proof (plain_no_dollar _ Hkey) as Hk1.
  pose proof (plain_no_brace _ Hkey) as Hk2.
  assert (Hsan : all_chars is_plain_char (sanitizeForBranch (summary ticket))
                 = true).
  { eapply all_chars_impl; [exact is_branch_char_plain |].
    apply sanitizeForBranch_chars. }
  unfold formatPattern. split.
  - assert (H1 : Js.replaceAll "{ticket_key}" (key ticket) "feature/{ticket_key}"
                 = "feature/" +:+ key ticket).
    { cbn. rewrite (expand_replacement_plain _ _ _ _ Hk1).
      now rewrite string_app_nil_r. }
    rewrite H1.
    assert (H2 : all_chars (λ c, negb (Ascii.eqb c "{"))
                   ("feature/" +:+ key ticket) = true).
    { rewrite all_chars_app, Hk2. reflexivity. }
    now rewrite !(replaceAll_absent _ _ _ _ H2).
  - assert (H1 : Js.replaceAll "{ticket_key}" (key ticket)
                   "{ticket_key}: {summary}"
                 = key ticket +:+ ": {summary}").
    { cbn. now rewrite (expand_replacement_plain _ _ _ _ Hk1). }
    rewrite H1.
    assert (H2 : Js.replaceAll "{summary}" (sanitizeForBranch (summary ticket))
                   (key ticket +:+ ": {summary}")
                 = key ticket +:+ ": "
                   +:+ sanitizeForBranch (summary ticket)).
    { unfold Js.replaceAll. rewrite (replace_scan_through _ _ _ _ _ _ Hk2).
      cbn. rewrite (expand_replacement_plain _ _ _ _ (plain_no_dollar _ Hsan)).
      now rewrite string_app_nil_r. }
    rewrite H2. apply replaceAll_absent.
    rewrite !all_chars_app, Hk2, (plain_no_brace _ Hsan). reflexivity.
Qed.

(** ** Quoting *)

Lemma escape_scan_cons before c s :
  Js.replace_scan dquote (backslash +:+ dquote) 0 before (String c s)
  = (if Ascii.eqb c "034" then backslash +:+ dquote else String c "")
    +:+ Js.replace_scan dquote (backslash +:+ dquote) 0
          (before +:+ String c "") s.
Proof.
  cbn [Js.replace_scan]. unfold dquote at 1. rewrite string_prefix_cons.
  destruct (ascii_dec "034" c) as [<- | Hne].
  - rewrite string_prefix_nil. reflexivity.
  - destruct (Ascii.eqb_spec c "034") as [-> |]; [now destruct Hne |].
    reflexivity.
Qed.

Lemma escape_scan_spec before s :
  let out := Js.replace_scan dquote (backslash +:+ dquote) 0 before s in
  (∀ b, quotes_escaped b out = true)
  ∧ String.length out = (String.length s + count_char "034" s)%nat
  ∧ (count_char "034" s = O → out = s).
Proof.
  revert before. induction s as [|c s IH]; intros before; [repeat split |].
  cbv zeta. rewrite escape_scan_cons.
  destruct (IH (before +:+ String c "")) as (IH1 & IH2 & IH3).
  cbv zeta in IH1, IH2, IH3.
  set (out := Js.replace_scan _ _ _ _ s) in *.
  cbn [count_char String.length].
  destruct (Ascii.eqb_spec c "034") as [-> | Hc].
  - split; [| split].
    + intros b.
      change ((backslash +:+ dquote) +:+ out)
        with (String "092" (String "034" out)).
      cbn. now rewrite IH1.
    + change ((backslash +:+ dquote) +:+ out)
        with (String "092" (String "034" out)).
      cbn. rewrite IH2. lia.
    + discriminate.
  - split; [| split].
    + intros b. change (String c "" +:+ out) with (String c out).
      cbn [quotes_escaped].
      apply Ascii.eqb_neq in Hc. rewrite Hc. apply IH1.
    + change (String c "" +:+ out) with (String c out).
      cbn [String.length]. rewrite IH2. lia.
    + intros H. change (String c "" +:+ out) with (String c out).
      f_equal. now apply IH3.
Qed.

(** X3.  The quoting of commit messages, PR titles and PR bodies: in
    [escape_quotes s] every double quote comes right after a backslash, the
    text grows by one character for each double quote of [s], and a text
    without double quotes is left as it is. *)
Theorem escape_quotes_spec :
  ∀ s,
    quotes_escaped false (escape_quotes s) = true
    ∧ String.length (escape_quotes s)
      = (String.length s + count_char "034" s)%nat
    ∧ (count_char "034" s = O → escape_quotes s = s).
Proof.
  intros s. destruct (escape_scan_spec EmptyString s) as (H1 & H2 & H3).
  split; [apply H1 | split; [exact H2 | exact H3]].
Qed.

(** ** Reading the status *)

Lemma split_lines_line l rest :
  all_chars (λ c, negb (is_lf c)) l = true →
  Js.split_lines (l +:+ nl +:+ rest) = l :: Js.split_lines rest.
Proof.
  induction l as [|c l IH]; intros H.
  - reflexivity.
  - simpl in H. apply andb_prop in H as [Hc Hl].
    rewrite string_app_cons. cbn [Js.split_lines].
    unfold is_lf in Hc. apply negb_true_iff in Hc. rewrite Hc.
    now rewrite (IH Hl).
Qed.

Lemma has_nonspace_app a b :
  Js.has_nonspace (a +:+ b) = (Js.has_nonspace a || Js.has_nonspace b)%bool.
Proof.
  induction a as [|c a IH]; [reflexivity |].
  rewrite string_app_cons. cbn. now rewrite IH, orb_assoc.
Qed.

Lemma porcelain_lines es :
  Forall (λ e, printable e = true) es →
  List.filter Js.has_nonspace (Js.split_lines (porcelain es))
  = map porcelain_line es.
Proof.
  induction 1 as [|e es He Hes IH]; [reflexivity |].
  unfold printable in He. apply andb_prop in He as [Hlf Hpath].
  cbn [porcelain map]. rewrite (split_lines_line _ _ Hlf).
  cbn [List.filter].
  assert (Hline : Js.has_nonspace (porcelain_line e) = true).
  { unfold porcelain_line. cbn. rewrite Hpath. now rewrite !orb_true_r. }
  now rewrite Hline, IH.
Qed.

Definition add_entry (acc : GitStatus) (e : StatusEntry) : GitStatus :=
  {| staged := staged acc
       ++ (if (negb (Ascii.eqb (in_index e) "?")
               && negb (Ascii.eqb (in_index e) " "))%bool
           then [path e] else []);
     unstaged := unstaged acc
       ++ (if (negb (Ascii.eqb (in_tree e) " ")
               && negb (Ascii.eqb (in_tree e) "?"))%bool
           then [path e] else []);
     untracked := untracked acc
       ++ (if Ascii.eqb (in_index e) "?" then [path e] else []) |}.

Lemma status_line_entry acc e :
  status_line acc (porcelain_line e) = add_entry acc e.
Proof.
  unfold status_line, add_entry, porcelain_line.
  destruct acc as [a b c], e as [x y p]. cbn [in_index in_tree path].
  change (Js.take 2 (String x (String y (String " " p))))
    with (String x (String y "")).
  change (Js.drop 3 (String x (String y (String " " p)))) with p.
  unfold Js.startsWith. rewrite string_prefix_cons.
  cbn [Js.charAt String.get staged unstaged untracked].
  destruct (Ascii.eqb_spec x "?") as [Ex | Hx];
    destruct (Ascii.eqb_spec x " ") as [Ex' | Hx'];
    destruct (Ascii.eqb_spec y " ") as [Ey | Hy];
    destruct (Ascii.eqb_spec y "?") as [Ey' | Hy'];
    destruct (ascii_dec "?" x);
    try congruence; cbn;
    repeat case_bool_decide; try congruence;
    cbn; rewrite ?app_nil_r; reflexivity.
Qed.

Lemma fold_entries es acc :
  fold_left status_line (map porcelain_line es) acc
  = fold_left add_entry es acc.
Proof.
  revert acc. induction es as [|e es IH]; intros acc; [reflexivity |].
  cbn [map fold_left]. now rewrite status_line_entry, IH.
Qed.

Lemma fold_add_entry es acc :
  fold_left add_entry es acc
  = {| staged := staged acc
         ++ map path (List.filter
              (λ e, negb (Ascii.eqb (in_index e) "?")
                    && negb (Ascii.eqb (in_index e) " "))%bool es);
       unstaged := unstaged acc
         ++ map path (List.filter
              (λ e, negb (Ascii.eqb (in_tree e) " ")
                    && negb (Ascii.eqb (in_tree e) "?"))%bool es);
       untracked := untracked acc
         ++ map path (List.filter
              (λ e, Ascii.eqb (in_index e) "?") es) |}.
Proof.
  revert acc. induction es as [|e es IH]; intros acc.
  - cbn. rewrite !app_nil_r. now destruct acc.
  - cbn [fold_left List.filter]. rewrite IH. unfold add_entry.
    cbn [staged unstaged untracked].
    repeat match goal with |- context [if ?b then _ else _] =>
      destruct b end; cbn [map]; rewrite <- ?app_assoc; reflexivity.
Qed.

(** X4.  [getStatus] reads the output of [git status --porcelain] as git
    writes it.  For entries without a line feed and with a path that is
    not blank, each printed as index status, tree status, a space and the
    path, the parser returns, in the order of the output: as staged the
    paths whose index status is neither [?] nor a space, as unstaged those
    whose tree status is neither a space nor [?], and as untracked those
    whose index status is [?]. *)
Theorem getStatus_reads_porcelain :
  ∀ es,
    Forall (λ e, printable e = true) es →
    parse_status (porcelain es)
    = {| staged := map path (List.filter
           (λ e, negb (Ascii.eqb (in_index e) "?")
                 && negb (Ascii.eqb (in_index e) " "))%bool es);
         unstaged := map path (List.filter
           (λ e, negb (Ascii.eqb (in_tree e) " ")
                 && negb (Ascii.eqb (in_tree e) "?"))%bool es);
         untracked := map path (List.filter
           (λ e, Ascii.eqb (in_index e) "?") es) |}.
Proof.
  intros es Hes. unfold parse_status.
  rewrite (porcelain_lines _ Hes), fold_entries, fold_add_entry.
  reflexivity.
Qed.

(** ** The Logger *)

Section LoggerProperties.
Context {W : Type} {host : Host W}.
Implicit Types (s : @Proc W).

(** X5.  The level filter of the Logger.  [error] always writes its line,
    whatever the configured level; [debug] writes nothing unless the level
    is [debug]; [success] is filtered exactly as [info] is; and a message
    that a logger suppresses is suppressed by every logger whose level is
    at least as high. *)
Theorem error_is_never_filtered :
  (∀ lg message s,
     log lg m_error message s
     = (Ret tt, s, [ELog m_error (formatMessage lg message)]))
  ∧ (∀ lg message s,
       level lg ≠ debug → log lg m_debug message s = (Ret tt, s, []))
  ∧ (∀ lg message s,
       (log lg m_success message s).2 = []
       ↔ (log lg m_info message s).2 = [])
  ∧ (∀ lg lg' m message s,
       LOG_LEVELS (level lg') ≤ LOG_LEVELS (level lg) →
       (log lg' m message s).2 = [] → (log lg m message s).2 = []).
Proof.
  split; [| split; [| split]].
  - intros lg message s. unfold log, shouldLog.
    now destruct (level lg).
  - intros lg message s H. unfold log, shouldLog.
    destruct (level lg); [now destruct H | reflexivity..].
  - intros lg message s. unfold log. cbn [method_level].
    now destruct (shouldLog lg info).
  - intros lg lg' m message s Hle. unfold log, shouldLog.
    destruct (LOG_LEVELS (level lg') <=? LOG_LEVELS (method_level m)) eqn:E';
      [discriminate |].
    intros _. apply Z.leb_gt in E'.
    destruct (LOG_LEVELS (level lg) <=? LOG_LEVELS (method_level m)) eqn:E;
      [| reflexivity].
    apply Z.leb_le in E. lia.
Qed.

End LoggerProperties.

(** X6.  Child loggers.  [child] keeps the level, and so the filter, of
    its parent; prefixes nest with a colon, so that the child [q] of the
    child [p] is the child [p:q]; and a child of a logger without prefix
    writes its own prefix in brackets before the message. *)
Theorem child_prefixes_nest :
  ∀ lg p q,
    level (child lg p) = level lg
    ∧ (∀ l, shouldLog (child lg p) l = shouldLog lg l)
    ∧ (prefix lg ≠ "" ∨ p ≠ "" →
       child (child lg p) q = child lg (p +:+ ":" +:+ q))
    ∧ (prefix lg = "" → p ≠ "" →
       ∀ message,
         formatMessage (child lg p) message = "[" +:+ p +:+ "] " +:+ message).
Proof.
  intros [l pre] p q. unfold child, formatMessage, shouldLog. cbn.
  split; [reflexivity | split; [reflexivity | split]].
  - intros H. f_equal.
    destruct pre as [|a pre].
    + destruct p as [|b p]; [now destruct H |]. reflexivity.
    + rewrite !string_app_cons. cbv iota.
      now rewrite ?string_app_cons, ?string_app_assoc.
  - intros -> Hp message. destruct p; [now destruct Hp |].
    now rewrite !string_app_assoc.
Qed.

(** ** Probes and transitions *)



Section Probes.
Context {W : Type} {host : Host W}.
Implicit Types (s : @Proc W).

(** X7.  The two probes of GitHubClient never throw.  Each runs one
    command; [hasNewCommits] answers whether the output of
    [git log base..HEAD --oneline] has a character that is not white space,
    [getBranchExists] answers [true] when [git rev-parse --verify]
    succeeds, and both answer [false] when the command fails. *)
Theorem git_probes_swallow_errors :
  ∀ b s,
    (∀ r w,
       execSync ("git log " +:+ b +:+ "..HEAD --oneline") (world s) = (r, w) →
       hasNewCommits b s
       = (match r with
          | Ret out => Ret (Js.has_nonspace out)
          | Throw _ => Ret false
          | Pending => Pending
          end,
          set_world w s,
          [EExec ("git log " +:+ b +:+ "..HEAD --oneline")]))
    ∧ (∀ r w,
         execSync ("git rev-parse --verify " +:+ b) (world s) = (r, w) →
         getBranchExists b s
         = (match r with
            | Ret _ => Ret true
            | Throw _ => Ret false
            | Pending => Pending
            end,
            set_world w s,
            [EExec ("git rev-parse --verify " +:+ b)])).
Proof.
  intros b s. split; intros r w H.
  - unfold hasNewCommits, exec. run_cbv.
    rewrite (run_host_call _ _ _ _ _ H). now destruct r.
  - unfold getBranchExists, exec. run_cbv.
    rewrite (run_host_call _ _ _ _ _ H). now destruct r.
Qed.


End Probes.

(** ** The next ticket *)

Lemma first_available_spec processed tickets :
  match first_available processed tickets with
  | Some t =>
      ∃ before rest,
        tickets = before ++ t :: rest
        ∧ (key t ∉ processed)
        ∧ ∀ u, u ∈ before → key u ∈ processed
  | None => ∀ u, u ∈ tickets → key u ∈ processed
  end.
Proof.
  unfold first_available.
  induction tickets as [|a l IH]; cbn; [intros u Hu; inversion Hu |].
  case_bool_decide as Ha; cbn.
  - destruct (List.filter _ l) as [|t l'].
    + intros u Hu. apply elem_of_cons in Hu as [-> | Hu]; auto.
    + destruct IH as (before & rest & -> & Ht & Hb).
      exists (a :: before), rest. split; [reflexivity | split; [exact Ht |]].
      intros u Hu. apply elem_of_cons in Hu as [-> | Hu]; auto.
  - exists [], l. split; [reflexivity | split; [exact Ha |]].
    intros u Hu. inversion Hu.
Qed.

Section PollerMore.
Context {W : Type} {host : Host W}.
Variables (projectConfig : ProjectConfig) (logger : Logger).
Implicit Types (s : @Proc W).

(** X9.  When the search succeeds, [getNextTicket] asks for at most 10
    tickets and returns the first ticket of the answer, in the order of
    the tracker, whose key is not in the processed set: every ticket before
    it has been processed, and it returns [null] only when every ticket of
    the answer has been.  The state is changed by the search alone. *)
Theorem getNextTicket_first_unprocessed :
  ∀ s tickets w,
    jiraSearchTickets (poll_jql projectConfig) 10 (world s)
    = (Ret tickets, w) →
    ∃ answer evs,
      getNextTicket projectConfig logger s = (Ret answer, set_world w s, evs)
      ∧ EJira (SearchTickets (poll_jql projectConfig) 10) ∈ evs
      ∧ (∀ t, answer = Some t →
           ∃ before rest,
             tickets = before ++ t :: rest
             ∧ (key t ∉ processedTickets s)
             ∧ ∀ u, u ∈ before → key u ∈ processedTickets s)
      ∧ (answer = None →
         ∀ u, u ∈ tickets → key u ∈ processedTickets s).
Proof.
  intros s tickets w H.
  rewrite (getNextTicket_run projectConfig logger s _ _ H). cbn [poll_answer].
  eexists _, _. split; [reflexivity |].
  pose proof (first_available_spec (processedTickets s) tickets) as Hspec.
  split; [| split].
  - unfold poll_events. set_solver.
  - intros t Ht. now rewrite Ht in Hspec.
  - intros Hn. now rewrite Hn in Hspec.
Qed.

(** X10.  The processed set is a set: after [markProcessed k] the count
    is one more than before when [k] was new and the same when it was
    there already, marking [k] again changes nothing, [clearProcessed]
    brings the count back to 0, and [markProcessed] touches nothing but
    the set. *)
Theorem markProcessed_counts_once :
  ∀ k s,
    let s1 := (markProcessed k s).1.2 in
    (getProcessedCount s1).1.1
    = Ret (if bool_decide (k ∈ processedTickets s)
           then size (processedTickets s)
           else S (size (processedTickets s)))
    ∧ (markProcessed k s1).1.2 = s1
    ∧ (getProcessedCount (clearProcessed s1).1.2).1.1 = Ret O
    ∧ world s1 = world s ∧ running s1 = running s
    ∧ currentTicket s1 = currentTicket s.
Proof.
  intros k s. cbn. split; [| split; [| repeat split]].
  - f_equal. case_bool_decide as Hk.
    + f_equal. apply subseteq_union_1_L. now apply singleton_subseteq_l.
    + rewrite size_union by now apply disjoint_singleton_l.
      now rewrite size_singleton.
  - unfold set_processedTickets. cbn. f_equal.
    now rewrite (assoc_L (∪)), (idemp_L (∪)).
Qed.

End PollerMore.

(** ** The preview *)


Section Deployment.
Context {W : Type} {host : Host W}.
Implicit Types (s : @Proc W).







End Deployment.

(** ** The callbacks of the agent *)

Lemma run_child_settled display pre ev rest result :
  forallb (λ ev, negb (settles ev)) pre = true →
  settlement (stdout_of pre) (stderr_of pre) ev = Some result →
  resolved (run_child display (pre ++ ev :: rest)) = Some result.
Proof.
  intros Hpre Hev. unfold run_child. rewrite fold_left_app. cbn [fold_left].
  destruct (fold_unsettled display pre run_start Hpre)
    as (R1 & O1 & E1 & _). cbn in R1, O1, E1.
  set (r1 := fold_left (on_event display) pre run_start) in *.
  assert (Hres : resolved (on_event display r1 ev) = Some result).
  { destruct ev; try discriminate Hev; cbn in Hev |- *;
      rewrite R1, O1, ?E1; injection Hev as <-; reflexivity. }
  exact (proj1 (fold_resolved display rest _ _ Hres)).
Qed.

Lemma run_child_unsettled display evs :
  forallb (λ ev, negb (settles ev)) evs = true →
  resolved (run_child display evs) = None.
Proof.
  intros H. exact (proj1 (fold_unsettled display evs run_start H)).
Qed.

Lemma settlement_success out err ev result :
  settlement out err ev = Some result →
  cr_success result = true ↔ ev = CloseEvent (Some 0).
Proof.
  destruct ev; try discriminate; intros [= <-]; cbn.
  - unfold close_result. case_bool_decide as Hc; cbn.
    + split; [intros _; now f_equal | reflexivity].
    + split; [discriminate | intros [= ->]; now destruct Hc].
  - split; discriminate.
Qed.

(** Once both timers are off no signal is sent any more. *)
Lemma fold_timers_off display evs (r : Run) :
  timeoutSet r = false → graceSet r = false →
  Forall (λ e, is_kill e = false) (actions r) →
  Forall (λ e, is_kill e = false)
    (actions (fold_left (on_event display) evs r)).
Proof.
  revert r. induction evs as [|ev evs IH]; intros r Ht Hg Hk; [exact Hk |].
  cbn [fold_left]. apply IH;
    destruct ev; cbn; rewrite ?Ht, ?Hg; cbn; auto;
    apply Forall_app; split; auto.
Qed.

Lemma fold_in_time display evs (r : Run) :
  ends_in_time evs = true → graceSet r = false →
  Forall (λ e, is_kill e = false) (actions r) →
  Forall (λ e, is_kill e = false)
    (actions (fold_left (on_event display) evs r)).
Proof.
  revert r. induction evs as [|ev evs IH]; intros r He Hg Hk; [exact Hk |].
  cbn [fold_left]. cbn [ends_in_time] in He.
  destruct (settles ev) eqn:Hs.
  - apply fold_timers_off; destruct ev; try discriminate Hs; cbn; auto.
  - destruct (is_timeout ev) eqn:Ht; [discriminate He |].
    apply IH; [exact He | |];
      destruct ev; try discriminate; cbn; rewrite ?Hg; cbn; auto;
      apply Forall_app; split; auto.
Qed.

(** While every SIGTERM sent was delivered, the grace timer finds
    [killed] set and sends nothing. *)
Lemma on_event_sigterm_delivered display (r : Run) ev :
  sigterm_undelivered ev = false →
  (graceSet r = true → killed r = true) →
  EKill SIGKILL ∉ actions r →
  (graceSet (on_event display r ev) = true →
   killed (on_event display r ev) = true)
  ∧ EKill SIGKILL ∉ actions (on_event display r ev).
Proof.
  intros Hev Hg Hk.
  assert (Hplus : ∀ more, EKill SIGKILL ∉ more →
                          EKill SIGKILL ∉ actions r ++ more).
  { intros more Hm Hin. apply elem_of_app in Hin as [? | ?]; auto. }
  destruct ev as [text | text | [] | d | c | m]; try discriminate Hev; cbn.
  - split; [exact Hg | apply Hplus].
    rewrite list_elem_of_singleton. discriminate.
  - split; [exact Hg | apply Hplus].
    rewrite list_elem_of_singleton. discriminate.
  - destruct (timeoutSet r); cbn; [| auto].
    split; [intros _; apply orb_true_r | apply Hplus].
    rewrite !elem_of_cons, elem_of_nil. intros [? | [? | []]]; discriminate.
  - destruct (graceSet r) eqn:Eg; cbn; [| rewrite Eg; auto].
    rewrite (Hg eq_refl). cbn. split; [discriminate | exact Hk].
  - auto.
  - auto.
Qed.

Lemma fold_sigterm_delivered display evs (r : Run) :
  forallb (λ ev, negb (sigterm_undelivered ev)) evs = true →
  (graceSet r = true → killed r = true) →
  EKill SIGKILL ∉ actions r →
  EKill SIGKILL ∉ actions (fold_left (on_event display) evs r).
Proof.
  revert r. induction evs as [|ev evs IH]; intros r He Hg Hk; [exact Hk |].
  cbn [fold_left]. cbn [forallb] in He. apply andb_prop in He as [Hev He].
  apply negb_true_iff in Hev.
  destruct (on_event_sigterm_delivered display r ev Hev Hg Hk).
  now apply IH.
Qed.

Lemma forallb_false_split {A} (f : A → bool) (l : list A) :
  forallb f l = false →
  ∃ before x rest, l = before ++ x :: rest ∧ f x = false.
Proof.
  induction l as [|a l IH]; [discriminate |]. cbn.
  destruct (f a) eqn:Ha; cbn.
  - intros H. destruct (IH H) as (before & x & rest & -> & Hx).
    now exists (a :: before), x, rest.
  - intros _. now exists [], a, l.
Qed.

Section AgentMore.
Context {W : Type} {host : Host W}.
Implicit Types (s : @Proc W).

(** X13.  The promise of [runClaude] is settled by the first ['close'] or
    ['error'] event of the child, with the output captured up to then, and
    later events do not change it; without such an event it stays pending.
    The result is a success exactly when that first event is a ['close']
    with exit code 0. *)
Theorem runClaude_first_settlement :
  ∀ pc prompt dir s w evs,
    spawn "claude" (claude_args pc prompt) dir (world s) = (Ret evs, w) →
    (forallb (λ ev, negb (settles ev)) evs = true →
     ∃ trace, runClaude pc prompt dir s = (Pending, set_world w s, trace))
    ∧ (∀ pre ev rest result,
         evs = pre ++ ev :: rest →
         forallb (λ ev, negb (settles ev)) pre = true →
         settlement (stdout_of pre) (stderr_of pre) ev = Some result →
         (∃ trace,
            runClaude pc prompt dir s = (Ret result, set_world w s, trace))
         ∧ (cr_success result = true ↔ ev = CloseEvent (Some 0))).
Proof.
  intros pc prompt dir s w evs Hspawn.
  pose proof (runClaude_run _ _ _ _ _ _ Hspawn) as Hrun. cbv zeta in Hrun.
  split.
  - intros Hevs. rewrite (run_child_unsettled _ _ Hevs) in Hrun. eauto.
  - intros pre ev rest result -> Hpre Hev.
    rewrite (run_child_settled _ _ _ _ _ Hpre Hev) in Hrun.
    split; [eauto | exact (settlement_success _ _ _ _ Hev)].
Qed.

(** X14.  [runClaude] sends no signal to a child that closes, or fails to
    start, before the timer fires: both callbacks clear the timer. *)
Theorem no_kill_before_timeout :
  ∀ pc prompt dir s w evs r s' trace,
    spawn "claude" (claude_args pc prompt) dir (world s) = (Ret evs, w) →
    ends_in_time evs = true →
    runClaude pc prompt dir s = (r, s', trace) →
    Forall (λ e, is_kill e = false) trace.
Proof.
  intros pc prompt dir s w evs r s' trace Hspawn Hin.
  rewrite (runClaude_run _ _ _ _ _ _ Hspawn). intros [= _ _ <-].
  constructor; [reflexivity |].
  apply fold_in_time; [exact Hin | reflexivity | constructor].
Qed.

(** X15.  [runClaude] sends SIGKILL only after a timeout whose SIGTERM
    could not be delivered: the force kill is guarded by
    [!childProcess.killed], which is already [true] once a signal was
    delivered. *)
Theorem sigkill_needs_undelivered_sigterm :
  ∀ pc prompt dir s r s' trace,
    runClaude pc prompt dir s = (r, s', trace) →
    EKill SIGKILL ∈ trace →
    ∃ evs w before rest,
      spawn "claude" (claude_args pc prompt) dir (world s) = (Ret evs, w)
      ∧ evs = before ++ TimeoutElapsed false :: rest.
Proof.
  intros pc prompt dir s r s' trace Hrun Hkill.
  destruct (spawn "claude" (claude_args pc prompt) dir (world s))
    as [[evs | e |] w] eqn:Hspawn.
  - exists evs, w.
    rewrite (runClaude_run _ _ _ _ _ _ Hspawn) in Hrun.
    injection Hrun as _ _ <-.
    apply elem_of_cons in Hkill as [[=] | Hkill].
    destruct (forallb (λ ev, negb (sigterm_undelivered ev)) evs) eqn:Hall.
    + exfalso. revert Hkill.
      apply fold_sigterm_delivered; [exact Hall | discriminate |].
      intros Hin. inversion Hin.
    + apply forallb_false_split in Hall as (before & x & rest & -> & Hx).
      exists before, rest. split; [reflexivity |].
      apply negb_false_iff in Hx.
      destruct x as [| | [] | | |]; try discriminate Hx. reflexivity.
  - exfalso. unfold runClaude in Hrun.
    cbv [mbind M_bind mret M_ret emits pending] in Hrun.
    rewrite (run_host_call _ _ _ _ _ Hspawn) in Hrun.
    injection Hrun as _ _ <-.
    apply list_elem_of_singleton in Hkill. discriminate.
  - exfalso. unfold runClaude in Hrun.
    cbv [mbind M_bind mret M_ret emits pending] in Hrun.
    rewrite (run_host_call _ _ _ _ _ Hspawn) in Hrun.
    injection Hrun as _ _ <-.
    apply list_elem_of_singleton in Hkill. discriminate.
Qed.

End AgentMore.

(** ** The footprint of the Worker *)

Lemma string_prefix_app p s : String.prefix p (p +:+ s) = true.
Proof.
  induction p as [|a p IH]; [apply string_prefix_nil |].
  rewrite string_app_cons, string_prefix_cons.
  now destruct (ascii_dec a a).
Qed.

Lemma worker_command_head h rest :
  In h worker_command_heads → worker_command (h +:+ rest) = true.
Proof.
  intros Hh. unfold worker_command. apply existsb_exists.
  exists h. split; [exact Hh | apply string_prefix_app].
Qed.

Ltac worker_cmd :=
  first [ reflexivity | apply worker_command_head; cbn; tauto ].

Section Footprint.
Context {W : Type} {host : Host W}.
Variable R : @Proc W → @Proc W → Prop.
Variable P : Event → Prop.
Variable tkey : string.
Hypothesis R_refl : ∀ s, R s s.
Hypothesis R_trans : ∀ s1 s2 s3, R s1 s2 → R s2 s3 → R s1 s3.
Hypothesis R_world : ∀ s w, R s (set_world w s).
Hypothesis P_quiet : ∀ e, quiet e = true → P e.
Hypothesis P_command : ∀ c, worker_command c = true → P (EExec c).
Hypothesis P_follow_up : ∀ call, follow_up tkey call = true → P (EJira call).

Lemma foot_ret {A} (a : A) : respects R P (mret a).
Proof. now apply respects_ret. Qed.

Lemma foot_skip : respects R P skip.
Proof. now apply respects_skip. Qed.

Lemma foot_throw {A} e : respects R P (@throw _ A e).
Proof. now apply respects_throw. Qed.

Lemma foot_bind {A B} (m : M A) (f : A → M B) :
  respects R P m → (∀ a, respects R P (f a)) → respects R P (m ≫= f).
Proof. now apply respects_bind. Qed.

Lemma foot_tryCatch {A} (m : M A) (h : Exn → M A) :
  respects R P m → (∀ e, respects R P (h e)) → respects R P (tryCatch m h).
Proof. now apply respects_tryCatch. Qed.

Lemma foot_log lg m message : respects R P (log lg m message).
Proof.
  unfold log. apply respects_if; [| apply foot_skip].
  apply respects_emit; auto.
Qed.

Lemma foot_exec c : worker_command c = true → respects R P (exec c).
Proof. intros Hc. apply respects_exec; try assumption. now apply P_command. Qed.

Lemma foot_createBranch name base : respects R P (createBranch name base).
Proof.
  apply respects_createBranch; try assumption.
  unfold createBranch_commands.
  repeat (constructor; [apply P_command; worker_cmd |]).
  constructor.
Qed.

Lemma foot_getStatus : respects R P getStatus.
Proof.
  apply respects_getStatus; try assumption. apply P_command. worker_cmd.
Qed.

Lemma foot_hasNewCommits base : respects R P (hasNewCommits base).
Proof.
  apply respects_hasNewCommits; try assumption. apply P_command. worker_cmd.
Qed.

Lemma foot_checkoutBranch b : respects R P (checkoutBranch b).
Proof.
  apply respects_checkoutBranch; try assumption. apply P_command. worker_cmd.
Qed.

Lemma foot_commitChanges message files :
  respects R P (commitChanges message files).
Proof.
  unfold commitChanges. apply foot_bind.
  - destruct files as [[|f fs] |];
      apply respects_exec_skip; try assumption; apply P_command; worker_cmd.
  - intros _. apply respects_exec_skip; try assumption.
    apply P_command. worker_cmd.
Qed.

Lemma foot_pushBranch b : respects R P (pushBranch b).
Proof.
  apply respects_exec_skip; try assumption. apply P_command. worker_cmd.
Qed.

Lemma foot_createPullRequest title body base :
  respects R P (createPullRequest title body base).
Proof.
  unfold createPullRequest. apply foot_bind.
  - apply foot_exec; worker_cmd.
  - intros result. destruct (jsonPullRequest result); [| apply foot_ret].
    destruct (matchPullRequestUrl result) as [[u n] |];
      [apply foot_ret | apply foot_throw].
Qed.

Lemma foot_getPullRequest n : respects R P (getPullRequest n).
Proof.
  unfold getPullRequest. apply foot_bind.
  - apply foot_exec; worker_cmd.
  - intros result. now apply respects_lift_pure.
Qed.

Lemma foot_deployment_attempt repo sha :
  respects R P (deployment_attempt repo sha).
Proof.
  unfold deployment_attempt.
  apply foot_tryCatch; [| intros; apply foot_ret].
  apply foot_bind; [apply foot_exec; worker_cmd |].
  intros out. destruct (_ && _)%bool; [| apply foot_ret].
  apply foot_bind; [apply foot_exec; worker_cmd |].
  intros out'. destruct (_ && _)%bool; apply foot_ret.
Qed.

Lemma foot_sleep ms : respects R P (sleep ms).
Proof. apply respects_emit; auto. Qed.

Lemma foot_deployment_loop repo sha n :
  respects R P (deployment_loop repo sha n).
Proof.
  induction n as [|k IH]; cbn [deployment_loop]; [apply foot_ret |].
  apply foot_bind; [apply foot_deployment_attempt |].
  intros [u |]; [apply foot_ret |].
  apply foot_bind; [| intros _; exact IH].
  destruct k; [apply foot_skip | apply foot_sleep].
Qed.

Lemma foot_getDeploymentUrl repo n maxAttempts :
  respects R P (getDeploymentUrl repo n maxAttempts).
Proof.
  unfold getDeploymentUrl. apply foot_bind; [apply foot_getPullRequest |].
  intros p. apply foot_deployment_loop.
Qed.

Lemma foot_getCommitSummary base : respects R P (getCommitSummary base).
Proof. apply respects_host_call; auto. Qed.

Lemma foot_on_event display r ev :
  Forall P (actions r) → Forall P (actions (on_event display r ev)).
Proof.
  intros Hr.
  destruct ev; cbn; repeat case_match; cbn; try assumption;
    apply Forall_app; split; try assumption;
    repeat constructor; now apply P_quiet.
Qed.

Lemma foot_run_child display (evs : list ChildEvent) :
  Forall P (actions (run_child display evs)).
Proof.
  unfold run_child.
  assert (H : Forall P (actions run_start)) by constructor.
  revert H. generalize run_start.
  induction evs as [|ev evs IH]; intros r Hr; cbn; [assumption |].
  apply IH. now apply foot_on_event.
Qed.

Lemma foot_workTicket pc ticket ticketUrl dir :
  respects R P (workTicket pc ticket ticketUrl dir).
Proof.
  unfold workTicket. apply foot_bind; [now apply respects_lift_pure |].
  intros prompt. unfold runClaude. apply foot_bind.
  { apply respects_host_call; auto. }
  intros evs. apply foot_bind.
  { apply respects_emits; auto. apply foot_run_child. }
  intros _. destruct (resolved _); [apply foot_ret |].
  now apply respects_pending.
Qed.

Lemma foot_download_each lg dir atts :
  respects R P (download_each lg dir atts).
Proof.
  induction atts as [|a atts IH]; cbn; [apply foot_skip |].
  apply foot_bind; [apply foot_log | intros _].
  apply foot_bind; [| intros _; exact IH].
  apply respects_host_call; auto.
Qed.

Lemma foot_downloadAttachments dir lg ticket :
  respects R P (downloadAttachments dir lg ticket).
Proof.
  unfold downloadAttachments. apply foot_bind.
  { apply respects_host_call; auto. }
  intros _. apply foot_download_each.
Qed.

Lemma foot_addComment comment : respects R P (addComment tkey comment).
Proof.
  apply respects_host_call; auto. apply P_follow_up. cbn.
  apply String.eqb_refl.
Qed.

Lemma foot_transitionTicket statusName :
  respects R P (transitionTicket tkey statusName).
Proof.
  unfold transitionTicket. apply foot_bind.
  { apply respects_host_call; auto. apply P_follow_up. cbn.
    apply String.eqb_refl. }
  intros transitions. destruct (List.find _ _); [| apply foot_throw].
  apply respects_host_call; auto. apply P_follow_up. cbn.
  apply String.eqb_refl.
Qed.

Ltac foot :=
  repeat first
    [ apply foot_ret | apply foot_skip | apply foot_throw | apply foot_log
    | apply foot_createBranch | apply foot_workTicket | apply foot_getStatus
    | apply foot_hasNewCommits | apply foot_commitChanges
    | apply foot_pushBranch | apply foot_getCommitSummary
    | apply foot_createPullRequest | apply foot_getDeploymentUrl
    | apply foot_addComment | apply foot_transitionTicket
    | apply foot_checkoutBranch | apply foot_downloadAttachments
    | apply foot_bind; [| intros ?]
    | match goal with
      | |- respects _ _ (if ?b then _ else _) => destruct b
      | |- respects _ _ (match ?x with _ => _ end) => destruct x
      end ].

Variables (globalConfig : GlobalConfig) (projectConfig : ProjectConfig).
Variables (workingDir : string) (logger : Logger).

(** [processTicket] fetches the ticket; everything it does afterwards is
    within the footprint. *)
Lemma foot_after_fetch :
  ∃ rest : JiraTicket → M WorkResult,
    processTicket_try globalConfig projectConfig workingDir logger tkey
    = (log logger m_info "Fetching ticket details...";;
       ticket ← getTicket tkey; rest ticket)
    ∧ ∀ ticket, respects R P (rest ticket).
Proof.
  eexists. split; [unfold processTicket_try; reflexivity |].
  intros ticket. cbv zeta. foot.
Qed.

Lemma foot_processTicket_catch err :
  respects R P (processTicket_catch projectConfig logger tkey err).
Proof.
  unfold processTicket_catch. cbv zeta. foot.
  apply foot_tryCatch; [apply foot_checkoutBranch | intros; apply foot_skip].
Qed.

Lemma foot_processTicket :
  P (EJira (GetTicket tkey)) →
  respects R P
    (processTicket globalConfig projectConfig workingDir logger tkey).
Proof.
  intros Hget. unfold processTicket.
  apply foot_bind; [apply foot_log | intros _].
  apply foot_tryCatch; [| apply foot_processTicket_catch].
  destruct foot_after_fetch as (rest & -> & Hrest).
  apply foot_bind; [apply foot_log | intros _].
  apply foot_bind; [| exact Hrest].
  now apply respects_host_call.
Qed.

End Footprint.

Section WorkerFootprint.
Context {W : Type} {host : Host W}.
Variables (globalConfig : GlobalConfig) (projectConfig : ProjectConfig).
Variables (workingDir : string) (logger : Logger).
Implicit Types (s : @Proc W).

Local Abbreviation run_ticket :=
  (processTicket globalConfig projectConfig workingDir logger).

(** X16.  Whatever happens, every call [processTicket] makes to the
    tracker is the fetch of the ticket it was given, the download of an
    attachment, a comment on that ticket, the listing of its transitions
    or a transition of it.  It never searches, and it fetches, comments on
    and transitions no other ticket. *)
Theorem worker_tracker_footprint :
  ∀ tkey s r s' evs,
    run_ticket tkey s = (r, s', evs) →
    Forall (λ e, ∀ call, e = EJira call → about_ticket tkey call = true) evs.
Proof.
  intros tkey s r s' evs H.
  refine (proj2 (foot_processTicket (λ _ _, True) _ tkey _ _ _ _ _ _
                   globalConfig projectConfig workingDir logger _
                   _ _ _ _ H)); try solve [auto].
  - intros e He call ->. discriminate He.
  - intros c _ call [=].
  - intros call Hc call' [= <-]. now destruct call.
  - intros call [= <-]. cbn. apply String.eqb_refl.
Qed.

(** X17.  Whatever happens, every command [processTicket] runs begins
    with one of the fourteen command heads of GitHubClient
    ([worker_command_heads]): git checkout, pull, rev-parse, branch -D,
    push, status, log, add and commit, and gh pr create, gh pr view and
    gh api. *)
Theorem worker_command_footprint :
  ∀ tkey s r s' evs,
    run_ticket tkey s = (r, s', evs) →
    Forall (λ e, ∀ c, e = EExec c → worker_command c = true) evs.
Proof.
  intros tkey s r s' evs H.
  refine (proj2 (foot_processTicket (λ _ _, True) _ tkey _ _ _ _ _ _
                   globalConfig projectConfig workingDir logger _
                   _ _ _ _ H)); try solve [auto].
  - intros e He c ->. discriminate He.
  - now intros c Hc c' [= <-].
  - intros call _ c [=].
  - intros c [=].
Qed.

Lemma processTicket_frame tkey s r s' evs :
  run_ticket tkey s = (r, s', evs) →
  processedTickets s' = processedTickets s
  ∧ running s' = running s ∧ currentTicket s' = currentTicket s.
Proof.
  intros H.
  refine (proj1 (foot_processTicket
                   (λ s s', processedTickets s' = processedTickets s
                            ∧ running s' = running s
                            ∧ currentTicket s' = currentTicket s)
                   (λ _, True) tkey _ _ _ _ _ _
                   globalConfig projectConfig workingDir logger _
                   _ _ _ _ H)); try solve [auto].
  intros s1 s2 s3 (? & ? & ?) (? & ? & ?). repeat split; congruence.
Qed.

End WorkerFootprint.

(** ** The shape of a result *)

Section Yields.
Context {W : Type} {host : Host W}.

Lemma yields_ret {A} (Q : A → Prop) (a : A) :
  Q a → yields Q (mret a : @M W A).
Proof. intros Ha s a' s' evs [= <- _ _]. exact Ha. Qed.

Lemma yields_throw {A} (Q : A → Prop) e : yields Q (@throw W A e).
Proof. intros s a s' evs [=]. Qed.

Lemma yields_bind {A B} (Q' : A → Prop) (Q : B → Prop)
    (m : @M W A) (f : A → @M W B) :
  yields Q' m → (∀ a, Q' a → yields Q (f a)) → yields Q (m ≫= f).
Proof.
  intros Hm Hf s b s' evs H.
  apply bind_Ret_inv in H as (a & s1 & e1 & e2 & H1 & H2 & _).
  exact (Hf a (Hm _ _ _ _ H1) _ _ _ _ H2).
Qed.

Lemma yields_any {A} (m : @M W A) : yields (λ _, True) m.
Proof. intros s a s' evs _. exact I. Qed.

Lemma yields_then {A B} (Q : B → Prop) (m : @M W A) (f : A → @M W B) :
  (∀ a, yields Q (f a)) → yields Q (m ≫= f).
Proof.
  intros Hf. apply (yields_bind (λ _, True)); [apply yields_any | auto].
Qed.

Lemma yields_tryCatch {A} (Q : A → Prop) (m : @M W A) (h : Exn → @M W A) :
  yields Q m → (∀ e, yields Q (h e)) → yields Q (tryCatch m h).
Proof.
  intros Hm Hh s a s' evs H.
  destruct (tryCatch_inv _ _ _ _ _ _ H)
    as [(e & s1 & e1 & e2 & _ & H2 & _) | (H1 & _)].
  - exact (Hh e _ _ _ _ H2).
  - exact (Hm _ _ _ _ H1).
Qed.

Variables (globalConfig : GlobalConfig) (projectConfig : ProjectConfig).
Variables (workingDir : string) (logger : Logger).

Lemma preview_step_kept (m : @M W (option string)) :
  yields preview_kept
    (if deployment_waitForPreview projectConfig then
       log logger m_info "Waiting for preview deployment...";;
       u ← m;
       if truthy u
       then log logger m_info ("Preview URL: " +:+ string_of_opt u);; mret u
       else mret None
     else mret None).
Proof.
  destruct (deployment_waitForPreview projectConfig);
    [| apply yields_ret; now left].
  apply yields_then; intros _. apply yields_then; intros u.
  destruct (truthy u) eqn:Hu.
  - apply yields_then; intros _. apply yields_ret. now right.
  - apply yields_ret. now left.
Qed.

Ltac yld :=
  repeat
    lazymatch goal with
    | |- yields _ (throw _) => apply yields_throw
    | |- yields _ (mret _) => apply yields_ret
    | |- yields _ (mbind _ (if deployment_waitForPreview _ then _ else _)) =>
        apply (yields_bind preview_kept);
        [apply preview_step_kept | intros ? ?]
    | |- yields _ (mbind _ _) => apply yields_then; intros ?
    | |- yields _ (if ?b then _ else _) => destruct b eqn:?
    | |- yields _ (match ?x with _ => _ end) => destruct x eqn:?
    end.

Lemma processTicket_try_shape tkey :
  yields (result_shape tkey)
    (processTicket_try globalConfig projectConfig workingDir logger tkey).
Proof.
  unfold processTicket_try. cbv zeta. yld.
  - unfold result_shape, noChanges. cbn. eauto 10.
  - unfold result_shape. cbn. eauto 10.
Qed.

Lemma processTicket_catch_shape tkey err :
  yields (result_shape tkey)
    (processTicket_catch projectConfig logger tkey err).
Proof.
  unfold processTicket_catch. cbv zeta. yld.
  unfold result_shape, failure. cbn. eauto 10.
Qed.

(** X18.  A [WorkResult] has one of two shapes.  A success carries the
    pull request, the summary of the changes and no error, and its preview
    URL is absent or not empty; a failure carries an error and neither a
    pull request, a preview URL nor a summary.  Both carry the key
    [processTicket] was called with. *)
Theorem work_result_shape :
  ∀ tkey s result s' evs,
    processTicket globalConfig projectConfig workingDir logger tkey s
    = (Ret result, s', evs) →
    result_shape tkey result.
Proof.
  intros tkey. change (yields (result_shape tkey)
    (processTicket globalConfig projectConfig workingDir logger tkey)).
  unfold processTicket. apply yields_then; intros _.
  apply yields_tryCatch;
    [apply processTicket_try_shape | apply processTicket_catch_shape].
Qed.

End Yields.

(** ** The iterations of the Daemon *)

Lemma dispatched_app a b : dispatched (a ++ b) = dispatched a ++ dispatched b.
Proof. apply omap_app. Qed.

Lemma dispatched_none evs :
  Forall (λ e, fetched e = None) evs → dispatched evs = [].
Proof.
  induction 1 as [|e evs He _ IH]; [reflexivity |].
  unfold dispatched in *. cbn. now rewrite He.
Qed.

Lemma dispatched_logged lg m message : dispatched (logged lg m message) = [].
Proof. unfold logged. now destruct (shouldLog _ _). Qed.

Section DaemonMore.
Context {W : Type} {host : Host W}.
Variables (globalConfig : GlobalConfig) (projectConfig : ProjectConfig).
Variables (workingDir : string).
Implicit Types (s : @Proc W).

Lemma nofetch_respects {A} (m : M A) s r s' evs :
  respects (λ _ _, True) (λ e, fetched e = None) m →
  m s = (r, s', evs) → dispatched evs = [].
Proof. intros Hm H. apply dispatched_none. exact (proj2 (Hm _ _ _ _ H)). Qed.

Lemma processTicket_fetches_once logger tkey s r s' evs :
  processTicket globalConfig projectConfig workingDir logger tkey s
  = (r, s', evs) →
  dispatched evs = [tkey].
Proof.
  assert (Hq : ∀ e, quiet e = true → fetched e = None)
    by (intros []; (discriminate || reflexivity)).
  assert (Hc : ∀ c, worker_command c = true → fetched (EExec c) = None)
    by reflexivity.
  assert (Hf : ∀ call, follow_up tkey call = true
                       → fetched (EJira call) = None)
    by (intros []; (discriminate || reflexivity)).
  pose proof (foot_after_fetch (λ _ _, True) (λ e, fetched e = None) tkey
                (λ _, I) (λ _ _ _ _ _, I) (λ _ _, I) Hq Hc Hf
                globalConfig projectConfig workingDir logger)
    as (rest & Htry & Hrest).
  pose proof (foot_processTicket_catch (λ _ _, True) (λ e, fetched e = None)
                tkey (λ _, I) (λ _ _ _ _ _, I) (λ _ _, I) Hq Hc
                projectConfig logger) as Hcatch.
  unfold processTicket. rewrite Htry. clear Htry. intros H.
  assert (Htry : ∀ s0 r0 s0' e0,
    (log logger m_info "Fetching ticket details...";;
     ticket ← getTicket tkey; rest ticket) s0 = (r0, s0', e0) →
    dispatched e0 = [tkey]).
  { intros s0 r0 s0' e0 H0. revert H0. run_cbv. rewrite run_log.
    unfold getTicket, host_call.
    destruct (jiraGetTicket tkey (world s0)) as [[ticket | e |] w];
      cbv beta iota zeta.
    - destruct (rest ticket (set_world w s0)) as [[r1 s1] e1] eqn:E1.
      intros [= _ _ <-].
      rewrite dispatched_app, dispatched_logged.
      change (dispatched (EJira (GetTicket tkey) :: e1))
        with (tkey :: dispatched e1).
      now rewrite (nofetch_respects _ _ _ _ _ (Hrest ticket) E1).
    - intros [= _ _ <-]. now rewrite dispatched_app, dispatched_logged.
    - intros [= _ _ <-]. now rewrite dispatched_app, dispatched_logged. }
  destruct (bind_inv _ _ _ _ _ _ H)
    as [([] & s1 & e1 & e2 & H1 & H2 & ->) | [(e & H1 & _) | (H1 & _)]];
    rewrite run_log in H1; try discriminate H1.
  injection H1 as <- <-. rewrite dispatched_app, dispatched_logged.
  destruct (tryCatch_inv _ _ _ _ _ _ H2)
    as [(e & s2 & e3 & e4 & H3 & H4 & ->) | (H3 & _)].
  - rewrite dispatched_app, (Htry _ _ _ _ H3),
      (nofetch_respects _ _ _ _ _ (Hcatch e) H4). reflexivity.
  - exact (Htry _ _ _ _ H3).
Qed.

Lemma processTicket_no_throw logger tkey s r s' evs :
  processTicket globalConfig projectConfig workingDir logger tkey s
  = (r, s', evs) →
  ∀ e, r ≠ Throw e.
Proof.
  intros H e ->. unfold processTicket in H.
  destruct (bind_inv _ _ _ _ _ _ H)
    as [(a & s1 & e1 & e2 & _ & H2 & _) | [(e' & H1 & _) | (H1 & [=])]].
  - destruct (tryCatch_inv _ _ _ _ _ _ H2)
      as [(e' & s2 & e3 & e4 & _ & H3 & _) | (_ & Hne)].
    + destruct (execSync ("git checkout " +:+ baseBranch projectConfig)
                  (world s2)) as [attempt w] eqn:E.
      rewrite (processTicket_catch_run _ _ _ _ _ _ _ E) in H3.
      now destruct attempt.
    + now apply (Hne e).
  - now rewrite run_log in H1.
Qed.

Lemma dispatched_poll_events logger response :
  dispatched (poll_events projectConfig logger response) = [].
Proof.
  unfold poll_events.
  rewrite !dispatched_app, dispatched_logged. cbn.
  destruct response; cbn; auto using dispatched_logged.
Qed.

(** One iteration of the Daemon loop. *)
Lemma poll_step logger s r s' evs :
  poll globalConfig projectConfig workingDir logger s = (r, s', evs) →
  (∀ e, r ≠ Throw e)
  ∧ running s' = running s
  ∧ (r = Ret tt → currentTicket s' = currentTicket s
                  ∨ currentTicket s' = None)
  ∧ ((dispatched evs = [] ∧ processedTickets s' = processedTickets s)
     ∨ ∃ k, dispatched evs = [k] ∧ (k ∉ processedTickets s)
            ∧ (r = Ret tt →
               processedTickets s' = {[k]} ∪ processedTickets s)
            ∧ (r ≠ Ret tt → processedTickets s' = processedTickets s)).
Proof.
  destruct (jiraSearchTickets (poll_jql projectConfig) 10 (world s))
    as [response w] eqn:Hsearch.
  pose proof (getNextTicket_run projectConfig logger s _ _ Hsearch) as Hnext.
  unfold poll, markProcessed. run_cbv. rewrite run_log, Hnext.
  destruct (poll_answer (processedTickets s) response)
    as [[ticket |] | e |] eqn:Hanswer.
  - (* a ticket is dispatched *)
    rewrite run_log.
    destruct (processTicket globalConfig projectConfig workingDir
                (child logger (key ticket)) (key ticket)
                (set_currentTicket (Some (key ticket)) (set_world w s)))
      as [[rw s2] e2] eqn:Hwork.
    pose proof (processTicket_frame _ _ _ _ _ _ _ _ _ Hwork)
      as (Hp & Hr & Hc). cbn in Hp, Hr, Hc.
    pose proof (processTicket_fetches_once _ _ _ _ _ _ Hwork) as Hd.
    pose proof (processTicket_no_throw _ _ _ _ _ _ Hwork) as Hne.
    assert (Hfresh : key ticket ∉ processedTickets s).
    { destruct response as [tickets | |]; try discriminate Hanswer.
      injection Hanswer as Hfirst.
      pose proof (first_available_spec (processedTickets s) tickets) as Hs.
      rewrite Hfirst in Hs. now destruct Hs as (? & ? & _ & ? & _). }
    destruct rw as [result | e | ]; [| now destruct (Hne e) |].
    + destruct (success result);
        [destruct (pr result), (truthy (previewUrl result)) |];
        rewrite ?run_log; intros [= <- <- <-];
        (split; [discriminate |]); (split; [exact Hr |]);
        (split; [intros _; now right |]);
        right; exists (key ticket);
        rewrite !dispatched_app, ?dispatched_logged, dispatched_poll_events,
          Hd;
        (split; [reflexivity |]); (split; [exact Hfresh |]);
        (split; [intros _; cbn; now rewrite Hp
                | intros Hn; now destruct Hn]).
    + intros [= <- <- <-]. split; [discriminate |].
      split; [exact Hr |]. split; [discriminate |].
      right. exists (key ticket).
      rewrite !dispatched_app, !dispatched_logged, dispatched_poll_events, Hd.
      split; [reflexivity | split; [exact Hfresh | split; [discriminate |]]].
      intros _. exact Hp.
  - (* nothing to do *)
    rewrite run_log. intros [= <- <- <-].
    split; [discriminate |]. split; [reflexivity |]. split; [auto |].
    left. split; [| reflexivity].
    now rewrite !dispatched_app, !dispatched_logged, dispatched_poll_events.
  - destruct response; discriminate Hanswer.
  - intros [= <- <- <-].
    split; [discriminate |]. split; [reflexivity |]. split; [discriminate |].
    left. split; [| reflexivity].
    now rewrite !dispatched_app, !dispatched_logged, dispatched_poll_events.
Qed.

(** X19.  One iteration of the Daemon.  [poll] never throws, whatever the
    tracker, git and the agent do; it leaves the [running] flag alone; it
    adds at most one key to the processed set, and only a key that was not
    in it; and when it returns, the current ticket is what it was or is
    reset to [null]. *)
Theorem poll_is_contained :
  ∀ logger s r s' evs,
    poll globalConfig projectConfig workingDir logger s = (r, s', evs) →
    (∀ e, r ≠ Throw e)
    ∧ running s' = running s
    ∧ (processedTickets s' = processedTickets s
       ∨ ∃ k, (k ∉ processedTickets s)
              ∧ processedTickets s' = {[k]} ∪ processedTickets s)
    ∧ (r = Ret tt → currentTicket s' = currentTicket s
                    ∨ currentTicket s' = None).
Proof.
  intros logger s r s' evs H.
  destruct (poll_step _ _ _ _ _ H) as (Hne & Hr & Hc & Hd).
  split; [exact Hne | split; [exact Hr | split; [| exact Hc]]].
  destruct Hd as [[_ Hp] | (k & _ & Hk & Hret & Hother)]; [now left |].
  destruct r as [[] | e |].
  - right. exists k. auto.
  - left. now apply Hother.
  - left. now apply Hother.
Qed.

(** X20.  Over any number of iterations the Daemon starts the Worker at
    most once per ticket: the keys the Worker fetched are pairwise
    distinct, none of them was in the processed set at the start, and no
    iteration throws. *)
Theorem no_double_dispatch :
  ∀ logger n s r s' evs,
    poll_rounds globalConfig projectConfig workingDir logger n s
    = (r, s', evs) →
    NoDup (dispatched evs)
    ∧ (∀ k, k ∈ dispatched evs → k ∉ processedTickets s)
    ∧ (∀ e, r ≠ Throw e).
Proof.
  intros logger n. induction n as [|n IH]; intros s r s' evs H.
  - injection H as <- <- <-. cbn.
    split; [constructor | split; [| discriminate]].
    intros k Hk. inversion Hk.
  - cbn [poll_rounds] in H.
    destruct (bind_inv _ _ _ _ _ _ H)
      as [([] & s1 & e1 & e2 & H1 & H2 & ->)
         | [(e & H1 & ->) | (H1 & ->)]]; clear H;
      destruct (poll_step _ _ _ _ _ H1) as (Hne & _ & _ & Hd).
    + destruct (IH _ _ _ _ H2) as (Hnd & Hfresh & Hne').
      rewrite dispatched_app.
      destruct Hd as [[-> Hp] | (k & -> & Hk & Hret & _)].
      * rewrite Hp in Hfresh. auto.
      * specialize (Hret eq_refl). cbn.
        split; [| split; [| exact Hne']].
        -- constructor; [| exact Hnd]. intros Hin.
           apply (Hfresh k Hin). rewrite Hret.
           apply elem_of_union_l, elem_of_singleton. reflexivity.
        -- intros k' Hk'. apply elem_of_cons in Hk' as [-> | Hk']; auto.
           intros Hin. apply (Hfresh k' Hk'). rewrite Hret.
           now apply elem_of_union_r.
    + now destruct (Hne e).
    + split; [| split; [| discriminate]].
      * destruct Hd as [[-> _] | (k & -> & _)]; [constructor |].
        apply NoDup_singleton.
      * destruct Hd as [[-> _] | (k & -> & Hk & _)].
        -- intros k Hk. inversion Hk.
        -- intros k' Hk'. apply list_elem_of_singleton in Hk' as ->. exact Hk.
Qed.

End DaemonMore.

(** ** Comments in Atlassian Document Format *)

Lemma span_nonspace_app s :
  (span_nonspace s).1 +:+ (span_nonspace s).2 = s.
Proof.
  induction s as [|c s IH]; [reflexivity |]. cbn [span_nonspace].
  destruct (Js.is_space c); [reflexivity |].
  destruct (span_nonspace s) as [a b]. cbn [fst snd] in *.
  now rewrite string_app_cons, IH.
Qed.

Lemma string_prefix_drop p s :
  String.prefix p s = true → p +:+ Js.drop (String.length p) s = s.
Proof.
  revert s. induction p as [|a p IH]; intros s; [reflexivity |].
  destruct s as [|c s]; [discriminate |]. rewrite string_prefix_cons.
  destruct (ascii_dec a c) as [-> |]; [| discriminate].
  intros H. cbn. change (String c p +:+ Js.drop (String.length p) s)
    with (String c (p +:+ Js.drop (String.length p) s)).
  now rewrite (IH _ H).
Qed.

Lemma match_url_app s u rest :
  match_url s = Some (u, rest) → u +:+ rest = s ∧ u ≠ "".
Proof.
  unfold match_url.
  assert (Hgen : ∀ sch, sch ≠ "" → String.prefix sch s = true →
    match span_nonspace (Js.drop (String.length sch) s) with
    | (EmptyString, _) => None
    | (body, rest) => Some (sch +:+ body, rest)
    end = Some (u, rest) → u +:+ rest = s ∧ u ≠ "").
  { intros sch Hsch Hp.
    pose proof (span_nonspace_app (Js.drop (String.length sch) s)) as Happ.
    destruct (span_nonspace _) as [[|b body] rest'] eqn:E; [discriminate |].
    cbn [fst snd] in Happ. intros [= <- <-].
    split; [| destruct sch; [now destruct Hsch | discriminate]].
    rewrite string_app_assoc, Happ. now apply string_prefix_drop. }
  destruct (String.prefix "https://" s) eqn:E1.
  - now apply Hgen.
  - destruct (String.prefix "http://" s) eqn:E2; [| discriminate].
    now apply Hgen.
Qed.

Lemma string_length_app (a b : string) :
  String.length (a +:+ b) = (String.length a + String.length b)%nat.
Proof.
  induction a as [|c a IH]; [reflexivity |].
  rewrite string_app_cons. cbn. now rewrite IH.
Qed.

Lemma js_drop_app_length (a b : string) : Js.drop (String.length a) (a +:+ b) = b.
Proof. induction a as [|c a IH]; [reflexivity | exact IH]. Qed.

Lemma split_urls_concat s : ∀ skip acc,
  (skip ≤ String.length s)%nat →
  fold_right String.append "" (split_urls skip acc s) = acc +:+ Js.drop skip s.
Proof.
  induction s as [|c s IH]; intros skip acc Hskip.
  - cbn. destruct skip; cbn; now rewrite ?string_app_nil_r.
  - destruct skip as [|k].
    + cbn [split_urls Js.drop].
      destruct (match_url (String c s)) as [[u rest] |] eqn:E.
      * apply match_url_app in E as (Happ & Hu).
        destruct u as [|d u]; [now destruct Hu |].
        rewrite string_app_cons in Happ. injection Happ as -> Happ.
        replace (String.length (String c u) - 1)%nat
          with (String.length u) by (cbn; lia).
        cbn [fold_right].
        rewrite IH by (rewrite <- Happ, string_length_app; lia).
        rewrite <- Happ, js_drop_app_length. reflexivity.
      * rewrite IH by lia. cbn [Js.drop].
        now rewrite string_app_assoc.
    + cbn [split_urls Js.drop]. apply IH. cbn in Hskip. lia.
Qed.

Lemma text_node_text part : adf_text (text_node part) = part.
Proof. unfold text_node. now destruct (_ || _)%bool. Qed.

Lemma text_node_ok part : part ≠ "" → node_ok (text_node part).
Proof.
  intros Hp. unfold node_ok, text_node.
  destruct (_ || _)%bool eqn:E; cbn; (split; [exact Hp |]).
  - now intros h [= <-].
  - discriminate.
Qed.

Lemma parts_text (parts : list string) :
  fold_right String.append ""
    (map adf_text
       (flat_map (λ part, match part with
                          | EmptyString => []
                          | _ => [text_node part]
                          end) parts))
  = fold_right String.append "" parts.
Proof.
  induction parts as [|p parts IH]; [reflexivity |].
  destruct p as [|c p]; cbn [flat_map app map fold_right]; [exact IH |].
  now rewrite text_node_text, IH.
Qed.

Lemma parts_ok (parts : list string) :
  Forall node_ok
    (flat_map (λ part, match part with
                       | EmptyString => []
                       | _ => [text_node part]
                       end) parts).
Proof.
  induction parts as [|p parts IH]; [constructor |].
  destruct p as [|c p]; cbn [flat_map app]; [exact IH |].
  constructor; [now apply text_node_ok | exact IH].
Qed.

Lemma blank_text_ok : node_ok blank_text.
Proof. split; [discriminate | discriminate]. Qed.

Lemma has_nonspace_nonempty s : Js.has_nonspace s = true → s ≠ "".
Proof. now destruct s. Qed.

Lemma parseLineWithUrls_spec line :
  parseLineWithUrls line ≠ []
  ∧ Forall node_ok (parseLineWithUrls line)
  ∧ fold_right String.append "" (map adf_text (parseLineWithUrls line))
    = if Js.has_nonspace line then line else " ".
Proof.
  unfold parseLineWithUrls. destruct (Js.has_nonspace line) eqn:E; cbn [negb].
  - assert (Htext := parts_text (split_urls 0 "" line)).
    rewrite split_urls_concat in Htext by lia. cbn in Htext.
    split; [| split; [apply parts_ok | exact Htext]].
    intros Hnil. rewrite Hnil in Htext. cbn in Htext.
    now apply (has_nonspace_nonempty _ E).
  - split; [discriminate | split; [| reflexivity]].
    constructor; [exact blank_text_ok | constructor].
Qed.



(** X21.  The document [textToAdf] builds for a comment is well formed:
    version 1, one paragraph for each line of the text, no paragraph
    without content and no text node with an empty text, and every link
    node carries its own text as [href],
    which starts with [http://] or [https://].  [parseLineWithUrls] never
    returns an empty list, so the fallback of [textToAdf] for it is never
    taken. *)
Theorem textToAdf_well_formed :
  ∀ text,
    doc_version (textToAdf text) = 1
    ∧ length (doc_content (textToAdf text)) = length (Js.split_lines text)
    ∧ Forall (λ p, par_content p ≠ [] ∧ Forall node_ok (par_content p))
        (doc_content (textToAdf text))
    ∧ Forall (λ line, parseLineWithUrls line ≠ []) (Js.split_lines text).
Proof.
  intros text. unfold textToAdf. cbn [doc_version doc_content].
  split; [reflexivity | split; [apply length_map | split]].
  - apply Forall_map, Forall_forall. intros line _. cbn.
    destruct (parseLineWithUrls_spec line) as (Hne & Hok & _).
    destruct (parseLineWithUrls line); [now destruct Hne | auto].
  - apply Forall_forall. intros line _. apply parseLineWithUrls_spec.
Qed.


(** ** The timeout of the agent *)

(** X23.  The timeout of the agent.  It is never 0: a configured timeout
    of 0, like a missing one, means the default of 30 minutes, shown as
    ["30 minutes"]; any other value is used as it is.  The notice shows a
    timeout of a minute or more in minutes and a shorter one in seconds,
    rounded to the nearest. *)
Theorem timeout_configuration :
  ∀ pc,
    timeoutMs pc ≠ 0
    ∧ (claude_timeout pc = None ∨ claude_timeout pc = Some 0 →
       timeoutMs pc = 1800000
       ∧ timeoutDisplay (timeoutMs pc) = "30 minutes")
    ∧ (∀ t, claude_timeout pc = Some t → t ≠ 0 → timeoutMs pc = t)
    ∧ (∀ ms, 60000 ≤ ms →
         ∃ m, timeoutDisplay ms = pretty m +:+ " minutes"
              ∧ -30000 < 60000 * m - ms ≤ 30000)
    ∧ (∀ ms, 0 ≤ ms < 60000 →
         ∃ sec, timeoutDisplay ms = pretty sec +:+ " seconds"
                ∧ -500 < 1000 * sec - ms ≤ 500).
Proof.
  intros pc. unfold timeoutMs, DEFAULT_TIMEOUT_MS.
  split; [| split; [| split; [| split]]].
  - destruct (claude_timeout pc) as [t |]; [| discriminate].
    destruct (Z.eqb_spec t 0); [discriminate | assumption].
  - intros [-> | ->]; cbn; split; (reflexivity || now vm_compute).
  - intros t -> Ht. now rewrite (proj2 (Z.eqb_neq t 0) Ht).
  - intros ms Hms. unfold timeoutDisplay, round_div.
    rewrite (proj2 (Z.leb_le 60000 ms) Hms).
    eexists; split; [reflexivity |].
    pose proof (Z.div_mod (2 * ms + 60000) (2 * 60000) ltac:(lia)).
    pose proof (Z.mod_pos_bound (2 * ms + 60000) (2 * 60000) ltac:(lia)).
    lia.
  - intros ms Hms. unfold timeoutDisplay, round_div.
    rewrite (proj2 (Z.leb_gt 60000 ms)) by lia.
    eexists; split; [reflexivity |].
    pose proof (Z.div_mod (2 * ms + 1000) (2 * 1000) ltac:(lia)).
    pose proof (Z.mod_pos_bound (2 * ms + 1000) (2 * 1000) ltac:(lia)).
    lia.
Qed.

(** ** What a run delivers *)

Section Delivery.
Context {W : Type} {host : Host W}.
Variables (globalConfig : GlobalConfig) (projectConfig : ProjectConfig).
Variables (workingDir : string) (logger : Logger).
Implicit Types (s : @Proc W).

Local Abbreviation base := (baseBranch projectConfig).
Local Abbreviation run_ticket :=
  (processTicket globalConfig projectConfig workingDir logger).
Local Abbreviation try_block :=
  (processTicket_try globalConfig projectConfig workingDir logger).
Local Abbreviation calm :=
  (respects (λ _ _ : @Proc W, True) (λ e, milestone e = false)).

Lemma calm_quiet e : quiet e = true → milestone e = false.
Proof. destruct e; try discriminate; reflexivity. Qed.

Ltac calm_side :=
  first [ exact (λ _, I) | exact (λ _ _ _ _ _, I) | exact (λ _ _, I)
        | exact calm_quiet ].

Lemma calm_filter {A} (m : M A) s r s' evs :
  calm m → m s = (r, s', evs) → List.filter milestone evs = [].
Proof.
  intros Hm H. destruct (Hm _ _ _ _ H) as [_ Hevs]. clear H.
  induction Hevs as [|e l He _ IH]; [reflexivity |].
  cbn [List.filter]. cbv beta in He. rewrite He. exact IH.
Qed.

Lemma milestone_logged lg m message :
  List.filter milestone (logged lg m message) = [].
Proof. unfold logged. now destruct (shouldLog _ _). Qed.

Lemma milestone_checkout b :
  milestone (EExec ("git checkout " +:+ b)) = true.
Proof. unfold milestone, is_checkout. now rewrite string_prefix_app. Qed.

Lemma milestone_push b :
  milestone (EExec ("git push -u origin " +:+ b)) = true.
Proof.
  unfold milestone, publishes. rewrite string_prefix_app.
  apply orb_true_r.
Qed.

Lemma calm_log lg m message : calm (log lg m message).
Proof. apply foot_log; calm_side. Qed.

Lemma calm_bind {A B} (m : M A) (f : A → M B) :
  calm m → (∀ a, calm (f a)) → calm (m ≫= f).
Proof. apply respects_bind; calm_side. Qed.

Lemma calm_exec c : milestone (EExec c) = false → calm (exec c).
Proof. intros Hc. apply respects_exec; [calm_side | exact Hc]. Qed.

Lemma calm_ret {A} (a : A) : calm (mret a).
Proof. apply respects_ret; calm_side. Qed.

Lemma calm_download_each lg dir atts : calm (download_each lg dir atts).
Proof.
  induction atts as [|a atts IH]; cbn; [apply respects_skip; calm_side |].
  apply calm_bind; [apply calm_log | intros _].
  apply calm_bind; [| intros _; exact IH].
  apply respects_host_call; [calm_side | reflexivity].
Qed.

Lemma calm_attachmentsStep ticket :
  calm (attachmentsStep workingDir logger ticket).
Proof.
  unfold attachmentsStep.
  destruct (attachments ticket); [apply respects_skip; calm_side |].
  unfold downloadAttachments. apply calm_bind.
  - apply respects_host_call; [calm_side | reflexivity].
  - intros _. apply calm_download_each.
Qed.

Lemma calm_workTicket pc ticket ticketUrl dir :
  calm (workTicket pc ticket ticketUrl dir).
Proof. apply foot_workTicket; calm_side. Qed.

Lemma calm_commitChanges message files : calm (commitChanges message files).
Proof.
  unfold commitChanges. apply calm_bind.
  - destruct files as [[|f fs] |];
      (apply calm_bind; [now apply calm_exec | intros _; apply calm_ret]).
  - intros _.
    apply calm_bind; [now apply calm_exec | intros _; apply calm_ret].
Qed.

Lemma calm_getDeploymentUrl repo n maxAttempts :
  calm (getDeploymentUrl repo n maxAttempts).
Proof.
  unfold getDeploymentUrl. apply calm_bind.
  { unfold getPullRequest. apply calm_bind; [now apply calm_exec |].
    intros result. apply respects_lift_pure; calm_side. }
  intros p. induction (Z.to_nat maxAttempts) as [|k IH]; cbn;
    [apply calm_ret |].
  apply calm_bind.
  { unfold deployment_attempt.
    apply respects_tryCatch; [calm_side | | intros _; apply calm_ret].
    apply calm_bind; [now apply calm_exec | intros out].
    destruct (_ && _)%bool; [| apply calm_ret].
    apply calm_bind; [now apply calm_exec | intros out'].
    destruct (_ && _)%bool; apply calm_ret. }
  intros [u |]; [apply calm_ret |].
  apply calm_bind; [| intros _; exact IH].
  destruct k; [apply respects_skip | apply foot_sleep]; calm_side.
Qed.

(** The checkouts of a [createBranch] that returns. *)
Lemma createBranch_milestones name b s s' evs :
  createBranch name b s = (Ret tt, s', evs) →
  List.filter milestone evs
  = [EExec ("git checkout " +:+ b); EExec ("git checkout -b " +:+ name)].
Proof.
  unfold createBranch. intros H.
  apply bind_Ret_inv in H as (? & s1 & e1 & ? & H1 & H & ->).
  apply bind_Ret_inv in H as (? & s2 & e2 & ? & H2 & H & ->).
  apply bind_Ret_inv in H as (found & s3 & e3 & ? & H3 & H & ->).
  apply bind_Ret_inv in H as (? & s4 & e4 & ? & H4 & H & ->).
  apply bind_Ret_inv in H as (? & s5 & e5 & ? & H5 & H & ->).
  apply bind_Ret_inv in H as (out & s6 & e6 & ? & H6 & Hskip & ->).
  injection Hskip as <- <-.
  apply exec_inv in H1 as (_ & _ & ->).
  apply exec_inv in H2 as (_ & _ & ->).
  apply exec_inv in H6 as (_ & _ & ->).
  rewrite !List.filter_app.
  rewrite (calm_filter _ _ _ _ _ (respects_getBranchExists _ _
             (λ _, I) (λ _ _ _ _ _, I) (λ _ _, I) name eq_refl) H3).
  assert (E4 : List.filter milestone e4 = []).
  { refine (calm_filter _ _ _ _ _ _ H4).
    destruct found; [| apply respects_skip; calm_side].
    apply calm_bind; [now apply calm_exec | intros _; apply calm_ret]. }
  assert (E5 : List.filter milestone e5 = []).
  { refine (calm_filter _ _ _ _ _ _ H5).
    apply respects_tryCatch; [calm_side | | intros _; apply calm_ret].
    apply calm_bind; [now apply calm_exec | intros _; apply calm_ret]. }
  rewrite E4, E5. cbn [List.filter app].
  rewrite milestone_checkout.
  change ("git checkout -b " +:+ name)
    with ("git checkout " +:+ ("-b " +:+ name)) at 1.
  rewrite milestone_checkout.
  change (milestone (EExec ("git pull origin " +:+ b))) with false.
  reflexivity.
Qed.

Ltac log_step H :=
  let L := fresh "L" in
  apply bind_Ret_inv in H as ([] & ? & ? & ? & L & H & ->);
  rewrite run_log in L; injection L as <- <-.

Lemma transitionTicket_milestones tkey target s s' evs :
  transitionTicket tkey target s = (Ret tt, s', evs) →
  ∃ id, List.filter milestone evs = [EJira (PostTransition tkey id)].
Proof.
  unfold transitionTicket, getTransitions, host_call. intros H.
  apply bind_Ret_inv in H as (transitions & s1 & e1 & e2 & H1 & H & ->).
  destruct (jiraGetTransitions tkey (world s)) as [r1 w1]; injection H1 as -> <- <-.
  destruct (List.find _ transitions) as [t |]; [| discriminate].
  destruct (jiraPostTransition tkey (tr_id t) _) as [r2 w2].
  injection H as -> <- <-. now exists (tr_id t).
Qed.

(** X24.  What a successful run has done.  Whenever [processTicket]
    returns [success = true], the result carries the pull request and the
    summary, and the actions of the run that move HEAD, publish or write to
    the tracker are, in this order: the checkout of the base branch and of
    the new feature branch, the push of that branch, the creation of the
    pull request with the formatted title and body, the comment on the
    ticket made of the pull request, the preview URL and the summary, the
    transition of the ticket when one is configured, and the checkout of
    the base branch. *)
Theorem success_is_delivered :
  ∀ tkey s result s' evs,
    run_ticket tkey s = (Ret result, s', evs) →
    success result = true →
    ∃ ticket p summaryText moved,
      ticketKey result = tkey ∧ pr result = Some p ∧ error result = None
      ∧ changesSummary result = Some summaryText
      ∧ List.filter milestone evs
        = [ EExec ("git checkout " +:+ base);
            EExec ("git checkout -b " +:+ branchName projectConfig ticket);
            EExec ("git push -u origin " +:+ branchName projectConfig ticket);
            EExec (pr_create_command
                     (formatPattern (workflow_pr_titlePattern projectConfig)
                        ticket)
                     (formatPrBody projectConfig ticket
                        (getTicketUrl globalConfig tkey) summaryText)
                     base);
            EJira (AddComment tkey
                     (formatJiraComment p (previewUrl result) summaryText)) ]
          ++ moved ++ [EExec ("git checkout " +:+ base)]
      ∧ (if truthy (workflow_transitions_onPrCreated projectConfig)
         then ∃ id, moved = [EJira (PostTransition tkey id)]
         else moved = []).
Proof.
  intros tkey s result s' evs H Hok. unfold processTicket in H.
  apply bind_Ret_inv in H as ([] & s0 & e0 & ? & Hlog & H & ->).
  rewrite run_log in Hlog. injection Hlog as <- <-.
  destruct (tryCatch_inv _ _ _ _ _ _ H)
    as [(err & s1 & e1 & e2 & _ & Hcatch & _) | (Htry & _)]; clear H.
  { destruct (execSync ("git checkout " +:+ base) (world s1))
      as [attempt w] eqn:E.
    rewrite (processTicket_catch_run _ _ _ _ _ _ _ E) in Hcatch.
    destruct attempt; cbn [recovered] in Hcatch; try discriminate;
      injection Hcatch as <- _ _; discriminate. }
  unfold processTicket_try in Htry. rename Htry into H.
  log_step H.
  apply bind_Ret_inv in H as (ticket & s1 & e1 & ? & H1 & H & ->).
  apply bind_Ret_inv in H as ([] & s2 & e2 & ? & H2 & H & ->).
  log_step H.
  apply bind_Ret_inv in H as ([] & s3 & e3 & ? & H3 & H & ->).
  log_step H.
  apply bind_Ret_inv in H as (cr & s4 & e4 & ? & H4 & H & ->).
  log_step H.
  apply bind_Ret_inv in H as ([] & s4a & e4a & ? & H4a & H & ->).
  apply bind_Ret_inv in H as ([] & s4b & e4b & ? & H4b & H & ->).
  log_step H.
  apply bind_Ret_inv in H as (st & s5 & e5 & ? & H5 & H & ->).
  apply bind_Ret_inv in H as (newCommits & s6 & e6 & ? & H6 & H & ->).
  log_step H.
  destruct (negb _ && negb newCommits)%bool.
  { log_step H. injection H as <- _ _. discriminate. }
  apply bind_Ret_inv in H as ([] & s7 & e7 & ? & H7 & H & ->).
  log_step H.
  apply bind_Ret_inv in H as ([] & s8 & e8 & ? & H8 & H & ->).
  apply bind_Ret_inv in H as (summaryText & s9 & e9 & ? & H9 & H & ->).
  log_step H.
  apply bind_Ret_inv in H as (p & s10 & e10 & ? & H10 & H & ->).
  apply bind_Ret_inv in H as (preview & s11 & e11 & ? & H11 & H & ->).
  log_step H.
  apply bind_Ret_inv in H as ([] & s12 & e12 & ? & H12 & H & ->).
  apply bind_Ret_inv in H as ([] & s13 & e13 & ? & H13 & H & ->).
  apply bind_Ret_inv in H as ([] & s14 & e14 & ? & H14 & H & ->).
  log_step H. injection H as <- _ <-.
  assert (F1 : List.filter milestone e1 = []).
  { refine (calm_filter _ _ _ _ _ _ H1).
    apply respects_host_call; [calm_side | reflexivity]. }
  assert (F2 : List.filter milestone e2 = [])
    by exact (calm_filter _ _ _ _ _ (calm_attachmentsStep ticket) H2).
  pose proof (createBranch_milestones _ _ _ _ _ H3) as F3.
  assert (F4 : List.filter milestone e4 = [])
    by exact (calm_filter _ _ _ _ _ (calm_workTicket _ _ _ _) H4).
  assert (F4a : List.filter milestone e4a = []).
  { refine (calm_filter _ _ _ _ _ _ H4a).
    destruct (truthy _); [apply calm_log | apply respects_skip; calm_side]. }
  assert (F4b : List.filter milestone e4b = []).
  { refine (calm_filter _ _ _ _ _ _ H4b).
    destruct (negb _); [apply respects_throw | apply respects_skip];
      calm_side. }
  assert (F5 : List.filter milestone e5 = []).
  { refine (calm_filter _ _ _ _ _ _ H5).
    apply respects_getStatus; try calm_side. reflexivity. }
  assert (F6 : List.filter milestone e6 = []).
  { refine (calm_filter _ _ _ _ _ _ H6).
    apply respects_hasNewCommits; try calm_side. reflexivity. }
  assert (F7 : List.filter milestone e7 = []).
  { refine (calm_filter _ _ _ _ _ _ H7).
    destruct (_ || _)%bool; [| apply respects_skip; calm_side].
    apply calm_bind; [apply calm_log | intros _; apply calm_commitChanges]. }
  assert (F8 : e8 = [EExec ("git push -u origin "
                            +:+ branchName projectConfig ticket)]).
  { unfold pushBranch in H8.
    apply bind_Ret_inv in H8 as (? & ? & ? & ? & H8 & [= <- <-] & ->).
    apply exec_inv in H8 as (_ & _ & ->). reflexivity. }
  assert (F9 : List.filter milestone e9 = []).
  { refine (calm_filter _ _ _ _ _ _ H9).
    apply foot_getCommitSummary; calm_side. }
  assert (F10 : e10 = [EExec (pr_create_command
                     (formatPattern (workflow_pr_titlePattern projectConfig)
                        ticket)
                     (formatPrBody projectConfig ticket
                        (getTicketUrl globalConfig tkey) summaryText)
                     base)]).
  { unfold createPullRequest in H10.
    apply bind_Ret_inv in H10 as (out & ? & ? & ? & H10 & Hparse & ->).
    apply exec_inv in H10 as (_ & _ & ->).
    destruct (jsonPullRequest out);
      [destruct (matchPullRequestUrl out) as [[u n] |]; [| discriminate] |];
      injection Hparse as _ _ <-; reflexivity. }
  assert (F11 : List.filter milestone e11 = []).
  { refine (calm_filter _ _ _ _ _ _ H11).
    destruct (deployment_waitForPreview _); [| apply calm_ret].
    apply calm_bind; [apply calm_log | intros _].
    apply calm_bind; [apply calm_getDeploymentUrl | intros u].
    destruct (truthy u); [| apply calm_ret].
    apply calm_bind; [apply calm_log | intros _; apply calm_ret]. }
  assert (F12 : e12 = [EJira (AddComment tkey
                         (formatJiraComment p preview summaryText))]).
  { unfold addComment, host_call in H12.
    destruct (jiraAddComment _ _ _) as [r12 w12].
    now injection H12 as _ _ <-. }
  assert (F14 : e14 = [EExec ("git checkout " +:+ base)]).
  { unfold checkoutBranch in H14.
    apply bind_Ret_inv in H14 as (? & ? & ? & ? & H14 & [= <- <-] & ->).
    apply exec_inv in H14 as (_ & _ & ->). reflexivity. }
  exists ticket, p, summaryText, (List.filter milestone e13).
  do 4 (split; [reflexivity |]). split.
  - rewrite !List.filter_app, !milestone_logged, F1, F2, F3, F4, F4a, F4b,
      F5, F6, F7, F8, F9, F10, F11, F12, F14.
    cbn [List.filter app previewUrl].
    rewrite milestone_checkout. unfold branchName. rewrite milestone_push.
    reflexivity.
  - destruct (truthy (workflow_transitions_onPrCreated projectConfig));
      [| now injection H13 as _ <-].
    log_step H13. rewrite List.filter_app, milestone_logged.
    exact (transitionTicket_milestones _ _ _ _ _ H13).
Qed.

(** X25.  When the agent returns without success, [processTicket]
    reports ["Claude Code failed: "] followed by the error of the agent,
    after an attempt to check out the base branch; the branch was created
    and nothing else happened: no push, no pull request, no comment and no
    transition. *)
Theorem agent_failure_publishes_nothing :
  ∀ tkey s0 ticket s1 e1 s2 e2 s3 e3 cr s4 e4,
    getTicket tkey s0 = (Ret ticket, s1, e1) →
    attachmentsStep workingDir logger ticket s1 = (Ret tt, s2, e2) →
    createBranch (branchName projectConfig ticket) base s2
    = (Ret tt, s3, e3) →
    workTicket projectConfig ticket (getTicketUrl globalConfig tkey)
      workingDir s3 = (Ret cr, s4, e4) →
    cr_success cr = false →
    ∃ attempt w evs,
      execSync ("git checkout " +:+ base) (world s4) = (attempt, w)
      ∧ run_ticket tkey s0
        = (recovered attempt
             (failure tkey ("Claude Code failed: "
                            +:+ string_of_opt (cr_error cr))),
           set_world w s4, evs)
      ∧ List.filter milestone evs
        = [ EExec ("git checkout " +:+ base);
            EExec ("git checkout -b " +:+ branchName projectConfig ticket);
            EExec ("git checkout " +:+ base) ].
Proof.
  intros tkey s0 ticket s1 e1 s2 e2 s3 e3 cr s4 e4 H1 H2 H3 H4 Hfail.
  destruct (execSync ("git checkout " +:+ base) (world s4))
    as [attempt w] eqn:E.
  exists attempt, w.
  assert (F1 : List.filter milestone e1 = []).
  { refine (calm_filter _ _ _ _ _ _ H1).
    apply respects_host_call; [calm_side | reflexivity]. }
  assert (F2 : List.filter milestone e2 = [])
    by exact (calm_filter _ _ _ _ _ (calm_attachmentsStep ticket) H2).
  pose proof (createBranch_milestones _ _ _ _ _ H3) as F3.
  assert (F4 : List.filter milestone e4 = [])
    by exact (calm_filter _ _ _ _ _ (calm_workTicket _ _ _ _) H4).
  assert (Htry : ∃ evs0,
            try_block tkey s0
            = (Throw (JsError ("Claude Code failed: "
                               +:+ string_of_opt (cr_error cr))), s4, evs0)
            ∧ List.filter milestone evs0
              = [ EExec ("git checkout " +:+ base);
                  EExec ("git checkout -b "
                         +:+ branchName projectConfig ticket) ]).
  { unfold attachmentsStep, branchName in H2, H3.
    unfold processTicket_try. run_cbv.
    cbv [mbind M_bind mret M_ret gets modify emit emits skip throw pending
         tryCatch lift_pure] in H2.
    rewrite !run_log, H1; cbv beta iota zeta.
    rewrite H2; cbv beta iota zeta.
    rewrite !run_log, H3; cbv beta iota zeta.
    rewrite !run_log, H4; cbv beta iota zeta.
    rewrite !run_log, Hfail.
    assert (Hlog : ∀ s, (if truthy (cr_error cr)
                         then log logger m_error
                                ("Claude error: "
                                 +:+ string_of_opt (cr_error cr))
                         else λ s, (Ret tt, s, [])) s
                        = (Ret tt, s, if truthy (cr_error cr)
                                      then logged logger m_error
                                             ("Claude error: "
                                              +:+ string_of_opt (cr_error cr))
                                      else [])).
    { intros s. destruct (truthy _); [apply run_log | reflexivity]. }
    rewrite Hlog; cbv beta iota zeta. cbn [negb].
    eexists. split; [reflexivity |].
    rewrite !List.filter_app, !milestone_logged, F1, F2, F3, F4.
    destruct (truthy _); [rewrite milestone_logged |]; reflexivity. }
  destruct Htry as (evs0 & Htry & F0).
  unfold processTicket. run_cbv.
  rewrite run_log, Htry, (processTicket_catch_run _ _ _ _ _ _ _ E).
  eexists. split; [reflexivity | split; [reflexivity |]].
  cbn [errorMessage].
  rewrite !List.filter_app, !milestone_logged, F0.
  cbn [List.filter app]. now rewrite milestone_checkout.
Qed.

End Delivery.

(** ** The statements at concrete inputs *)

Lemma formatPattern_defaults_witness :
  formatPattern "feature/{ticket_key}" Mock.ticket42 = "feature/PROJ-42"
  ∧ formatPattern "{ticket_key}: {summary}" Mock.ticket42
    = "PROJ-42: fix-login-bug".
Proof. exact (formatPattern_defaults Mock.ticket42 eq_refl). Defined.

Lemma escape_quotes_spec_witness :
  escape_quotes "PROJ-42: Implementation" = "PROJ-42: Implementation".
Proof.
  exact (proj2 (proj2 (escape_quotes_spec "PROJ-42: Implementation")) eq_refl).
Defined.

Lemma getStatus_reads_porcelain_witness :
  parse_status
    (porcelain [ {| in_index := "M"; in_tree := " "; path := "src/a.ts" |};
                 {| in_index := "?"; in_tree := "?"; path := "notes.txt" |};
                 {| in_index := " "; in_tree := "M"; path := "src/b.ts" |} ])
  = {| staged := ["src/a.ts"]; unstaged := ["src/b.ts"];
       untracked := ["notes.txt"] |}.
Proof.
  apply (getStatus_reads_porcelain
           [ {| in_index := "M"; in_tree := " "; path := "src/a.ts" |};
             {| in_index := "?"; in_tree := "?"; path := "notes.txt" |};
             {| in_index := " "; in_tree := "M"; path := "src/b.ts" |} ]).
  repeat constructor.
Defined.

Lemma error_is_never_filtered_witness :
  log Mock.logger m_debug "Polling with JQL" (Mock.start Mock.idle)
  = (Ret tt, Mock.start Mock.idle, []).
Proof.
  apply (proj1 (proj2 error_is_never_filtered)). discriminate.
Defined.

Lemma child_prefixes_nest_witness :
  child (child Mock.logger "Daemon") "Worker"
  = child Mock.logger "Daemon:Worker".
Proof.
  apply (proj1 (proj2 (proj2 (child_prefixes_nest Mock.logger "Daemon"
                                "Worker")))).
  right. discriminate.
Defined.

Lemma git_probes_swallow_errors_witness :
  getBranchExists "feature/PROJ-42" (Mock.start Mock.idle)
  = (Ret false, Mock.start Mock.idle,
     [EExec "git rev-parse --verify feature/PROJ-42"]).
Proof.
  apply (proj2 (git_probes_swallow_errors "feature/PROJ-42"
                  (Mock.start Mock.idle))
           (Throw (JsError
              "Command failed: git rev-parse --verify feature/PROJ-42"))
           Mock.idle).
  vm_compute. reflexivity.
Defined.


Lemma getNextTicket_first_unprocessed_witness :
  ∃ evs,
    getNextTicket Mock.projectConfig Mock.logger (Mock.start Mock.idle)
    = (Ret (Some Mock.ticket42), Mock.start Mock.idle, evs).
Proof.
  assert (H : jiraSearchTickets (poll_jql Mock.projectConfig) 10
                (world (Mock.start Mock.idle))
              = (Ret [Mock.ticket42], Mock.idle)) by reflexivity.
  destruct (getNextTicket_first_unprocessed Mock.projectConfig Mock.logger
              (Mock.start Mock.idle) [Mock.ticket42] Mock.idle H)
    as (answer & evs & Hrun & _ & _ & Hnone).
  exists evs. rewrite Hrun.
  destruct answer as [t |].
  - vm_compute in Hrun. now injection Hrun as <- _.
  - specialize (Hnone eq_refl Mock.ticket42 ltac:(left)).
    now apply elem_of_empty in Hnone.
Defined.



Lemma runClaude_first_settlement_witness :
  ∃ trace,
    runClaude Mock.projectConfig "Work on JIRA ticket PROJ-42" "/repo"
      (Mock.start Mock.busy)
    = (Ret {| cr_success := true; cr_output := "done"; cr_error := None |},
       set_world
         (Mock.with_tree "" ("1a2b3c4 PROJ-42: fix login" +:+ nl) Mock.busy)
         (Mock.start Mock.busy),
       trace).
Proof.
  assert (H : spawn "claude"
                (claude_args Mock.projectConfig "Work on JIRA ticket PROJ-42")
                "/repo" (world (Mock.start Mock.busy))
              = (Ret [StdoutData "done"; CloseEvent (Some 0)],
                 Mock.with_tree "" ("1a2b3c4 PROJ-42: fix login" +:+ nl)
                   Mock.busy)) by reflexivity.
  exact (proj1 (proj2 (runClaude_first_settlement _ _ _ _ _ _ H)
                  [StdoutData "done"] (CloseEvent (Some 0)) [] _
                  eq_refl eq_refl eq_refl)).
Defined.

Lemma no_kill_before_timeout_witness :
  ∃ r s' trace,
    runClaude Mock.projectConfig "Work on JIRA ticket PROJ-42" "/repo"
      (Mock.start Mock.busy) = (r, s', trace)
    ∧ Forall (λ e, is_kill e = false) trace.
Proof.
  assert (H : spawn "claude"
                (claude_args Mock.projectConfig "Work on JIRA ticket PROJ-42")
                "/repo" (world (Mock.start Mock.busy))
              = (Ret [StdoutData "done"; CloseEvent (Some 0)],
                 Mock.with_tree "" ("1a2b3c4 PROJ-42: fix login" +:+ nl)
                   Mock.busy)) by reflexivity.
  pose (o := runClaude Mock.projectConfig "Work on JIRA ticket PROJ-42"
               "/repo" (Mock.start Mock.busy)).
  assert (Ho : o = (o.1.1, o.1.2, o.2)) by (vm_compute; reflexivity).
  exists o.1.1, o.1.2, o.2. split; [exact Ho |].
  exact (no_kill_before_timeout _ _ _ _ _ _ _ _ _ H eq_refl Ho).
Defined.

Lemma sigkill_needs_undelivered_sigterm_witness :
  ∃ evs w before rest,
    spawn "claude"
      (claude_args Mock.projectConfig "Work on JIRA ticket PROJ-42") "/repo"
      (world (Mock.start unreachable)) = (Ret evs, w)
    ∧ evs = before ++ TimeoutElapsed false :: rest.
Proof.
  pose (o := runClaude Mock.projectConfig "Work on JIRA ticket PROJ-42"
               "/repo" (Mock.start unreachable)).
  assert (Ho : o = (o.1.1, o.1.2, o.2)) by (vm_compute; reflexivity).
  apply (sigkill_needs_undelivered_sigterm _ _ _ _ _ _ _ Ho).
  vm_compute. do 3 right. left.
Defined.

Lemma worker_tracker_footprint_witness :
  ∃ r s' evs,
    processTicket Mock.globalConfig Mock.projectConfig "/repo" Mock.logger
      "PROJ-42" (Mock.start Mock.busy) = (r, s', evs)
    ∧ Forall (λ e, ∀ call, e = EJira call →
                about_ticket "PROJ-42" call = true) evs.
Proof.
  pose (o := processTicket Mock.globalConfig Mock.projectConfig "/repo"
               Mock.logger "PROJ-42" (Mock.start Mock.busy)).
  assert (Ho : o = (o.1.1, o.1.2, o.2)) by (vm_compute; reflexivity).
  exists o.1.1, o.1.2, o.2. split; [exact Ho |].
  exact (worker_tracker_footprint _ _ _ _ _ _ _ _ _ Ho).
Defined.

Lemma worker_command_footprint_witness :
  ∃ r s' evs,
    processTicket Mock.globalConfig Mock.projectConfig "/repo" Mock.logger
      "PROJ-42" (Mock.start Mock.busy) = (r, s', evs)
    ∧ Forall (λ e, ∀ c, e = EExec c → worker_command c = true) evs.
Proof.
  pose (o := processTicket Mock.globalConfig Mock.projectConfig "/repo"
               Mock.logger "PROJ-42" (Mock.start Mock.busy)).
  assert (Ho : o = (o.1.1, o.1.2, o.2)) by (vm_compute; reflexivity).
  exists o.1.1, o.1.2, o.2. split; [exact Ho |].
  exact (worker_command_footprint _ _ _ _ _ _ _ _ _ Ho).
Defined.

Lemma work_result_shape_witness :
  ∃ result s' evs,
    processTicket Mock.globalConfig Mock.projectConfig "/repo" Mock.logger
      "PROJ-42" (Mock.start Mock.busy) = (Ret result, s', evs)
    ∧ success result = true
    ∧ result_shape "PROJ-42" result.
Proof.
  pose (o := processTicket Mock.globalConfig Mock.projectConfig "/repo"
               Mock.logger "PROJ-42" (Mock.start Mock.busy)).
  pose (result :=
    {| success := true; ticketKey := "PROJ-42";
       pr := Some {| number := 7;
                     url := "https://github.com/acme/shop/pull/7";
                     title := "PROJ-42: fix-login-bug"; state := "open";
                     headSha := "" |};
       previewUrl := None; error := None;
       changesSummary := Some ("1a2b3c4 PROJ-42: fix login" +:+ nl) |}).
  assert (Ho : o = (Ret result, o.1.2, o.2)) by (vm_compute; reflexivity).
  exists result, o.1.2, o.2. split; [exact Ho | split; [reflexivity |]].
  exact (work_result_shape _ _ _ _ _ _ _ _ _ Ho).
Defined.

Lemma poll_is_contained_witness :
  ∃ r s' evs,
    poll Mock.globalConfig Mock.projectConfig "/repo" Mock.logger
      (Mock.start Mock.idle) = (r, s', evs)
    ∧ (∀ e, r ≠ Throw e)
    ∧ running s' = true.
Proof.
  pose (o := poll Mock.globalConfig Mock.projectConfig "/repo" Mock.logger
               (Mock.start Mock.idle)).
  assert (Ho : o = (o.1.1, o.1.2, o.2)) by (vm_compute; reflexivity).
  exists o.1.1, o.1.2, o.2. split; [exact Ho |].
  destruct (poll_is_contained _ _ _ _ _ _ _ _ Ho) as (Hr & Hrun & _).
  split; [exact Hr | exact Hrun].
Defined.

Lemma no_double_dispatch_witness :
  ∃ r s' evs,
    poll_rounds Mock.globalConfig Mock.projectConfig "/repo" Mock.logger 2
      (Mock.start Mock.idle) = (r, s', evs)
    ∧ dispatched evs = ["PROJ-42"]
    ∧ NoDup (dispatched evs).
Proof.
  pose (o := poll_rounds Mock.globalConfig Mock.projectConfig "/repo"
               Mock.logger 2 (Mock.start Mock.idle)).
  assert (Ho : o = (o.1.1, o.1.2, o.2)) by (vm_compute; reflexivity).
  exists o.1.1, o.1.2, o.2. split; [exact Ho |].
  split; [vm_compute; reflexivity |].
  exact (proj1 (no_double_dispatch _ _ _ _ _ _ _ _ _ Ho)).
Defined.


Lemma timeout_configuration_witness :
  timeoutMs Mock.projectConfig = 1800000
  ∧ timeoutDisplay (timeoutMs Mock.projectConfig) = "30 minutes".
Proof.
  apply (proj1 (proj2 (timeout_configuration Mock.projectConfig))).
  left. reflexivity.
Defined.

Lemma success_is_delivered_witness :
  ∃ result s' evs,
    processTicket Mock.globalConfig Mock.projectConfig "/repo" Mock.logger
      "PROJ-42" (Mock.start Mock.busy) = (Ret result, s', evs)
    ∧ success result = true
    ∧ ∃ create comment,
        List.filter milestone evs
        = [ EExec "git checkout develop";
            EExec "git checkout -b feature/PROJ-42";
            EExec "git push -u origin feature/PROJ-42";
            EExec create; EJira (AddComment "PROJ-42" comment);
            EJira (PostTransition "PROJ-42" "31");
            EExec "git checkout develop" ].
Proof.
  pose (o := processTicket Mock.globalConfig Mock.projectConfig "/repo"
               Mock.logger "PROJ-42" (Mock.start Mock.busy)).
  pose (result :=
    {| success := true; ticketKey := "PROJ-42";
       pr := Some {| number := 7;
                     url := "https://github.com/acme/shop/pull/7";
                     title := "PROJ-42: fix-login-bug"; state := "open";
                     headSha := "" |};
       previewUrl := None; error := None;
       changesSummary := Some ("1a2b3c4 PROJ-42: fix login" +:+ nl) |}).
  assert (Ho : o = (Ret result, o.1.2, o.2)) by (vm_compute; reflexivity).
  exists result, o.1.2, o.2. split; [exact Ho | split; [reflexivity |]].
  destruct (success_is_delivered _ _ _ _ _ _ _ _ _ Ho eq_refl)
    as (ticket & p & summaryText & moved & _ & _ & _ & _ & Hevs & _).
  eexists _, _. vm_compute. reflexivity.
Defined.

Lemma agent_failure_publishes_nothing_witness :
  ∃ r s' evs,
    processTicket Mock.globalConfig Mock.projectConfig "/repo" Mock.logger
      "PROJ-42" (Mock.start failing) = (r, s', evs)
    ∧ r = Ret (failure "PROJ-42" "Claude Code failed: boom")
    ∧ List.filter milestone evs
      = [ EExec "git checkout develop";
          EExec "git checkout -b feature/PROJ-42";
          EExec "git checkout develop" ].
Proof.
  pose (o1 := getTicket "PROJ-42" (Mock.start failing)).
  pose (o2 := attachmentsStep "/repo" Mock.logger Mock.ticket42 o1.1.2).
  pose (o3 := createBranch "feature/PROJ-42" "develop" o2.1.2).
  pose (o4 := workTicket Mock.projectConfig Mock.ticket42
                (getTicketUrl Mock.globalConfig "PROJ-42") "/repo" o3.1.2).
  assert (H1 : o1 = (Ret Mock.ticket42, o1.1.2, o1.2))
    by (vm_compute; reflexivity).
  assert (H2 : o2 = (Ret tt, o2.1.2, o2.2)) by (vm_compute; reflexivity).
  assert (H3 : o3 = (Ret tt, o3.1.2, o3.2)) by (vm_compute; reflexivity).
  assert (H4 : o4 = (Ret {| cr_success := false; cr_output := "";
                            cr_error := Some "boom" |}, o4.1.2, o4.2))
    by (vm_compute; reflexivity).
  destruct (agent_failure_publishes_nothing Mock.globalConfig
              Mock.projectConfig "/repo" Mock.logger
              _ _ _ _ _ _ _ _ _ _ _ _ H1 H2 H3 H4 eq_refl)
    as (attempt & w & evs & E & Hrun & Hevs).
  exists (recovered attempt (failure "PROJ-42" "Claude Code failed: boom")),
    (set_world w o4.1.2), evs.
  split; [exact Hrun | split; [| exact Hevs]].
  vm_compute in E. now injection E as <- _.
Defined.
